(** * stock_analyzer.c: metric pipeline, observation cache, ranking, session clock

    A shallow embedding of [src/stock_analyzer.c].  C [int] is a 32-bit
    two's-complement integer carried in [Z]; C [double] is IEEE binary64,
    carried by the primitive [float]; NUL-terminated strings are [string];
    a [struct json_object *] of json-c is a value of [json], the NULL
    pointer being [JNull].

    The program's own functions are transcribed: [is_premarket],
    [init_cache_from_file], [save_cache_to_file], [update_cache],
    [get_cached_values], [cmp_stocks_by_trades] and the body of [main].
    What [main] calls outside the repository is modelled from its
    documentation: the json-c accessors, [gmtime], and [qsort], the latter a
    parameter held to the ISO C contract.  Files hold JSON documents rather
    than their text, and the symbol list comes as [read_symbol_list]
    returns it.

    Around [main], [read_symbol_list] is transcribed over the bytes of the
    list file ([fgets], [strtok], [strcspn] and [toupper] from their C
    definitions), and so are the [--list] option, the [strcat] loop of the
    URL, [WriteMemoryCallback], and the table loop of [generate_html] with
    [snprintf] on its row format a parameter. *)

From Stdlib Require Import ZArith List String Ascii Bool Lia.
From Stdlib Require Import Floats Permutation Sorted.
Import ListNotations.

Local Open Scope string_scope.
Local Open Scope Z_scope.

(** ** Machine integers *)

Module CInt.

Definition INT_MIN : Z := - 2 ^ 31.
Definition INT_MAX : Z := 2 ^ 31 - 1.

Definition in_range (z : Z) : Prop := INT_MIN <= z <= INT_MAX.

(** Two's-complement reduction of a mathematical result into [int]. *)
Definition wrap (z : Z) : Z := (z + 2 ^ 31) mod 2 ^ 32 - 2 ^ 31.

Definition sub (a b : Z) : Z := wrap (a - b).

(** json-c saturates wide integers when an [int32_t] is asked for. *)
Definition clamp (z : Z) : Z :=
  if z <=? INT_MIN then INT_MIN
  else if INT_MAX <=? z then INT_MAX
  else z.

(** C's [%] truncates toward zero. *)
Definition rem (a b : Z) : Z := Z.rem a b.

End CInt.

(** ** IEEE doubles *)

Module CDouble.

Local Open Scope float_scope.

(** [(double) z] for an integer [z]: the nearest binary64 value. *)
Definition of_Z (z : Z) : float :=
  SF2Prim (binary_normalize prec emax z 0%Z false).

(** The integer part of [m * 2 ^ e]. *)
Definition magnitude (m : positive) (e : Z) : Z :=
  if (0 <=? e)%Z then Z.shiftl (Zpos m) e else Z.shiftr (Zpos m) (- e).

(** [(int32_t) d] for a finite [d] strictly between the [int] bounds:
    the fractional part is discarded.  A NaN reaches the cast only through
    undefined behaviour; it is given the x86 result. *)
Definition truncate (d : float) : Z :=
  match Prim2SF d with
  | S754_finite s m e => if s then (- magnitude m e)%Z else magnitude m e
  | S754_zero _ => 0%Z
  | _ => CInt.INT_MIN
  end.

Definition is_zero (d : float) : bool :=
  match Prim2SF d with S754_zero _ => true | _ => false end.

(** Neither an infinity nor a NaN. *)
Definition finite (d : float) : bool :=
  match Prim2SF d with
  | S754_zero _ | S754_finite _ _ _ => true
  | _ => false
  end.

End CDouble.

(** ** json-c values *)

Set Warnings "-register-all".

Inductive json : Type :=
| JNull
| JBool (b : bool)
| JInt (z : Z)
| JDouble (d : float)
| JString (s : string)
| JArray (items : list json)
| JObject (fields : list (string * json)).

Definition is_null (j : json) : bool :=
  match j with JNull => true | _ => false end.

Fixpoint lh_table_lookup (fields : list (string * json)) (key : string) : json :=
  match fields with
  | [] => JNull
  | (k, v) :: rest => if String.eqb k key then v else lh_table_lookup rest key
  end.

(** [json_object_object_get_ex(jso, key, &value)]: [value] is left NULL when
    [jso] is NULL, is not an object, or has no such key. *)
Definition json_object_object_get_ex (jso : json) (key : string) : json :=
  match jso with
  | JObject fields => lh_table_lookup fields key
  | _ => JNull
  end.

(** [json_object_object_add(jso, key, val)]: an existing key keeps its place
    and takes the new value; a new key goes last. *)
Fixpoint lh_table_insert (fields : list (string * json)) (key : string) (val : json)
  : list (string * json) :=
  match fields with
  | [] => [(key, val)]
  | (k, v) :: rest =>
      if String.eqb k key then (k, val) :: rest
      else (k, v) :: lh_table_insert rest key val
  end.

Definition json_object_object_add (jso : json) (key : string) (val : json) : json :=
  match jso with
  | JObject fields => JObject (lh_table_insert fields key val)
  | other => other
  end.

(** What json-c obtains from the C library when a JSON string is read as a
    number: [None] when the conversion fails, stops before the end of the
    string or overflows. *)
Class StringConv : Type := {
  string_as_double : string -> option float;
  string_as_int64 : string -> option Z
}.

Section Accessors.

Context {conv : StringConv}.

Definition json_object_get_double (jso : json) : float :=
  match jso with
  | JDouble d => d
  | JInt z => CDouble.of_Z z
  | JBool b => if b then 1%float else 0%float
  | JString s =>
      match string_as_double s with Some d => d | None => 0%float end
  | _ => 0%float
  end.

Definition json_object_get_int (jso : json) : Z :=
  match jso with
  | JInt z => CInt.clamp z
  | JDouble d =>
      if (d <=? CDouble.of_Z CInt.INT_MIN)%float then CInt.INT_MIN
      else if (CDouble.of_Z CInt.INT_MAX <=? d)%float then CInt.INT_MAX
      else CDouble.truncate d
  | JBool b => if b then 1 else 0
  | JString s =>
      match string_as_int64 s with Some z => CInt.clamp z | None => 0 end
  | _ => 0
  end.

End Accessors.

(** ** Data model *)

Definition MAX_SYMBOLS : Z := 15000.
Definition MAX_SYMBOL_LENGTH : nat := 16.

(** [strncpy(dst, src, MAX_SYMBOL_LENGTH - 1); dst[MAX_SYMBOL_LENGTH - 1] = 0]
    into a [char[MAX_SYMBOL_LENGTH]] field: the first fifteen characters. *)
Definition copy_symbol (src : string) : string :=
  substring 0 (MAX_SYMBOL_LENGTH - 1) src.

Record StockResult : Type := mkStockResult {
  symbol : string;
  price : float;
  day_close : float;
  percent : float;
  gradient_full : float;
  gradient_recent : float;
  gradient_change : float;
  volume : Z;
  volume_change : Z;
  trades : Z;
  trades_change : Z
}.

Record StockCache : Type := mkStockCache {
  cache_symbol : string;
  cache_gradient_recent : float;
  cache_volume : Z;
  cache_trades : Z
}.

(** [struct tm], the fields the program reads. *)
Record tm : Type := mkTm {
  tm_sec : Z;
  tm_min : Z;
  tm_hour : Z;
  tm_mday : Z;
  tm_mon : Z;
  tm_year : Z;
  tm_wday : Z
}.

(** ** Observation cache: [g_cache] with [g_cache_count] its length *)

Definition g_cache_count (g_cache : list StockCache) : Z :=
  Z.of_nat (List.length g_cache).

(** The first loop of [update_cache]: the first entry whose symbol compares
    equal is overwritten; [None] when the loop falls through. *)
Fixpoint update_cache_hit (g_cache : list StockCache) (sym : string)
  (gradient : float) (vol trd : Z) : option (list StockCache) :=
  match g_cache with
  | [] => None
  | e :: rest =>
      if String.eqb (cache_symbol e) sym
      then Some (mkStockCache (cache_symbol e) gradient vol trd :: rest)
      else option_map (cons e) (update_cache_hit rest sym gradient vol trd)
  end.

Definition update_cache (g_cache : list StockCache) (sym : string)
  (gradient : float) (vol trd : Z) : list StockCache :=
  match update_cache_hit g_cache sym gradient vol trd with
  | Some g_cache' => g_cache'
  | None =>
      if g_cache_count g_cache <? MAX_SYMBOLS
      then g_cache ++ [mkStockCache (copy_symbol sym) gradient vol trd]
      else g_cache
  end.

(** The three out-parameters of [get_cached_values], as a triple. *)
Fixpoint get_cached_values (g_cache : list StockCache) (sym : string)
  : float * Z * Z :=
  match g_cache with
  | [] => (0%float, 0, 0)
  | e :: rest =>
      if String.eqb (cache_symbol e) sym
      then (cache_gradient_recent e, cache_volume e, cache_trades e)
      else get_cached_values rest sym
  end.

(** [save_cache_to_file], up to the text of the document: the object handed
    to [json_object_to_json_string_ext]. *)
Definition cache_item (e : StockCache) : json :=
  JObject [("gradient_recent", JDouble (cache_gradient_recent e));
           ("volume", JInt (cache_volume e));
           ("trades", JInt (cache_trades e))].

Definition save_cache_document (g_cache : list StockCache) : json :=
  fold_left
    (fun doc e => json_object_object_add doc (cache_symbol e) (cache_item e))
    g_cache (JObject []).

Section Program.

Context {conv : StringConv}.

(** The iteration of [init_cache_from_file] over the pairs of the parsed
    document, appending to [g_cache]. *)
Fixpoint init_cache_entries (pairs : list (string * json))
  (g_cache : list StockCache) : list StockCache :=
  match pairs with
  | [] => g_cache
  | (sym, val) :: rest =>
      if g_cache_count g_cache <? MAX_SYMBOLS then
        let gradient_obj := json_object_object_get_ex val "gradient_recent" in
        let volume_obj := json_object_object_get_ex val "volume" in
        let trades_obj := json_object_object_get_ex val "trades" in
        if negb (is_null gradient_obj) && negb (is_null volume_obj)
           && negb (is_null trades_obj)
        then init_cache_entries rest
               (g_cache ++ [mkStockCache (copy_symbol sym)
                              (json_object_get_double gradient_obj)
                              (json_object_get_int volume_obj)
                              (json_object_get_int trades_obj)])
        else init_cache_entries rest g_cache
      else g_cache
  end.

(** [init_cache_from_file] on the outcome of opening and parsing
    [previous_results.json]: [None] for a missing file, [Some JNull] for a
    text the tokener rejects.  The result is [None] when the document is
    not an object: [json_object_iter_begin] then dereferences a NULL table
    and the process dies. *)
Definition init_cache_from_file (file : option json) (g_cache : list StockCache)
  : option (list StockCache) :=
  match file with
  | None => Some g_cache
  | Some JNull => Some g_cache
  | Some (JObject pairs) => Some (init_cache_entries pairs g_cache)
  | Some _ => None
  end.

(** ** Session clock *)

Definition is_premarket (current_time : tm) : bool :=
  let hour := tm_hour current_time in
  let minute := tm_min current_time in
  ((4 <=? hour) && (hour <? 9)) || ((hour =? 9) && (minute <? 30)).

(** The daylight-saving decision of [main], on the broken-down UTC time. *)
Definition is_dst (gmt_time : tm) : bool :=
  if (2 <? tm_mon gmt_time) && (tm_mon gmt_time <? 10) then true
  else if tm_mon gmt_time =? 2 then
    let second_sunday :=
      14 - CInt.rem (tm_wday gmt_time + 7 - CInt.rem (tm_mday gmt_time) 7) 7 in
    second_sunday <=? tm_mday gmt_time
  else if tm_mon gmt_time =? 10 then
    let first_sunday :=
      7 - CInt.rem (tm_wday gmt_time + 7 - CInt.rem (tm_mday gmt_time) 7) 7 in
    tm_mday gmt_time <? first_sunday
  else false.

(** ** Metric engine: one iteration of the per-symbol loop *)

(** The locals of the loop body once every [continue] has been passed. *)
Record snapshot_values : Type := mkSnapshotValues {
  minute_trades : Z;
  price_now : float;
  snapshot_day_close : float;
  minute_volume : Z;
  reference_price : float
}.

Definition nonnull (j : json) : option json :=
  if is_null j then None else Some j.

Notation "'let*' x ':=' e 'in' k" :=
  (match e with Some x => k | None => None end)
    (at level 10, x name, e at level 100, k at level 200, only parsing).

(** Lines 669-731; [None] is [continue]. *)
Definition read_snapshot (est_time : tm) (json_response : json) (sym : string)
  : option snapshot_values :=
  let* snapshot := nonnull (json_object_object_get_ex json_response sym) in
  let latest_trade := json_object_object_get_ex snapshot "latestTrade" in
  let minute_bar := json_object_object_get_ex snapshot "minuteBar" in
  if is_null latest_trade || is_null minute_bar then None else
  let* min_bar_n := nonnull (json_object_object_get_ex minute_bar "n") in
  let minute_trades := json_object_get_int min_bar_n in
  if minute_trades <? 50 then None else
  let* trade_t := nonnull (json_object_object_get_ex latest_trade "t") in
  let* trade_p := nonnull (json_object_object_get_ex latest_trade "p") in
  let price_now := json_object_get_double trade_p in
  let* daily_bar := nonnull (json_object_object_get_ex snapshot "dailyBar") in
  let* daily_c := nonnull (json_object_object_get_ex daily_bar "c") in
  let day_close := json_object_get_double daily_c in
  let* min_bar_v := nonnull (json_object_object_get_ex minute_bar "v") in
  let minute_volume := json_object_get_int min_bar_v in
  let premarket_time := is_premarket est_time in
  if premarket_time then
    Some (mkSnapshotValues minute_trades price_now day_close minute_volume day_close)
  else
    let* prev_daily_bar := nonnull (json_object_object_get_ex snapshot "prevDailyBar") in
    let* prev_daily_c := nonnull (json_object_object_get_ex prev_daily_bar "c") in
    Some (mkSnapshotValues minute_trades price_now day_close minute_volume
            (json_object_get_double prev_daily_c)).

(** Lines 733-735. *)
Definition percent_of (v : snapshot_values) : float :=
  (((price_now v - reference_price v) / reference_price v) * 100)%float.

Definition gradient_full_of (v : snapshot_values) : float :=
  (percent_of v / 2)%float.

Definition gradient_recent_of (v : snapshot_values) : float :=
  (((price_now v - snapshot_day_close v) / snapshot_day_close v) * 100)%float.

(** The state the loop threads: the global cache and [results[0..num_results)]. *)
Record loop_state : Type := mkLoopState {
  g_cache : list StockCache;
  results : list StockResult
}.

(** Lines 737-758: the row is filled from the cached values read first,
    then the cache is updated. *)
Definition emit_result (v : snapshot_values) (sym : string) (st : loop_state)
  : loop_state :=
  let percent := percent_of v in
  let gradient_full := gradient_full_of v in
  let gradient_recent := gradient_recent_of v in
  let '(prev_gradient_recent, prev_volume, prev_trades) :=
    get_cached_values (g_cache st) sym in
  let row :=
    mkStockResult (copy_symbol sym) (price_now v) (snapshot_day_close v)
      percent gradient_full gradient_recent
      (gradient_recent - prev_gradient_recent)%float
      (minute_volume v) (CInt.sub (minute_volume v) prev_volume)
      (minute_trades v) (CInt.sub (minute_trades v) prev_trades) in
  mkLoopState
    (update_cache (g_cache st) sym gradient_recent (minute_volume v) (minute_trades v))
    (results st ++ [row]).

Definition process_symbol (est_time : tm) (json_response : json)
  (st : loop_state) (sym : string) : loop_state :=
  match read_snapshot est_time json_response sym with
  | None => st
  | Some v => emit_result v sym st
  end.

Definition process_universe (est_time : tm) (json_response : json)
  (universe : list string) (st : loop_state) : loop_state :=
  fold_left (process_symbol est_time json_response) universe st.

End Program.

(** ** The C library's [gmtime] on seconds since the epoch (proleptic
    Gregorian calendar, days counted from 0000-03-01). *)
Definition gmtime (t : Z) : tm :=
  let days := t / 86400 in
  let secs := t mod 86400 in
  let z := days + 719468 in
  let era := z / 146097 in
  let doe := z mod 146097 in
  let yoe := (doe - doe / 1460 + doe / 36524 - doe / 146096) / 365 in
  let doy := doe - (365 * yoe + yoe / 4 - yoe / 100) in
  let mp := (5 * doy + 2) / 153 in
  let d := doy - (153 * mp + 2) / 5 + 1 in
  let m := if mp <? 10 then mp + 3 else mp - 9 in
  let y := yoe + era * 400 + (if m <=? 2 then 1 else 0) in
  mkTm (secs mod 60) (secs mod 3600 / 60) (secs / 3600)
       d (m - 1) (y - 1900) ((days + 4) mod 7).

(** ** Ranking *)

Definition cmp_stocks_by_trades (a b : StockResult) : Z :=
  CInt.sub (trades b) (trades a).

(** Line 767, for a given [qsort]. *)
Definition rank
  (qsort : list StockResult -> (StockResult -> StockResult -> Z) -> list StockResult)
  (rows : list StockResult) : list StockResult :=
  qsort rows cmp_stocks_by_trades.

(** What ISO C asks of a comparison function on the members of the array:
    opposite signs for opposite calls, and transitivity. *)
Definition consistent {A : Type} (compar : A -> A -> Z) (l : list A) : Prop :=
  (forall a b, In a l -> In b l -> Z.sgn (compar a b) = - Z.sgn (compar b a))
  /\ (forall a b c, In a l -> In b l -> In c l ->
                    compar a b <= 0 -> compar b c <= 0 -> compar a c <= 0).

(** What ISO C promises of [qsort]: the array is rearranged, into ascending
    order of a consistent comparison function; members that compare equal
    come in an unspecified order. *)
Definition qsort_contract {A : Type}
  (qsort : list A -> (A -> A -> Z) -> list A) : Prop :=
  forall (l : list A) (compar : A -> A -> Z),
    Permutation l (qsort l compar)
    /\ (consistent compar l ->
        StronglySorted (fun a b => compar a b <= 0) (qsort l compar)).

(** One implementation within that contract: insertion from the right end,
    each member placed behind the members it compares equal to. *)
Fixpoint insert_behind {A : Type} (compar : A -> A -> Z) (x : A) (l : list A)
  : list A :=
  match l with
  | [] => [x]
  | y :: rest =>
      if compar x y <? 0 then x :: y :: rest
      else y :: insert_behind compar x rest
  end.

Definition insertion_qsort {A : Type} (l : list A) (compar : A -> A -> Z) : list A :=
  fold_right (insert_behind compar) [] l.

(** ** The run: [main] *)

(** What [generate_html] is given; the text of [latest.html] is a function
    of these. *)
Record report : Type := mkReport {
  report_rows : list StockResult;
  report_time : tm;
  report_timezone : string
}.

(** The files the run reads and writes, and the remote copies made by [scp]. *)
Record world : Type := mkWorld {
  previous_results_json : option json;
  latest_html : option report;
  scp_runs : list report
}.

(** What the run is given besides the files: the environment, the symbol
    list as [read_symbol_list] returns it ([None] for NULL), whether
    [curl_easy_init] gives a handle, the transfer ([None] unless [CURLE_OK],
    else [json_tokener_parse] of the received text, [JNull] when the
    tokener rejects it), the clock, and whether the two [fopen(.., "w")]
    succeed.  [malloc] is taken to succeed. *)
Record run_input : Type := mkRunInput {
  api_key_id : option string;
  secret_key_id : option string;
  symbol_list : option (list string);
  curl : bool;
  transfer : option json;
  now : Z;
  html_file_opens : bool;
  cache_file_opens : bool
}.

Inductive outcome : Type :=
| Exit (status : Z) (w : world)
| Killed (w : world)     (* abnormal termination inside json-c *)
| Undefined.             (* a write past the end of a fixed buffer *)

Definition MAX_URL_LENGTH : Z := 65536.

Definition url_prefix : string :=
  "https://data.alpaca.markets/v2/stocks/snapshots?symbols=".

Definition strlen (s : string) : Z := Z.of_nat (String.length s).

(** Characters [strcpy]/[strcat] put into [url_buffer], and [sprintf] into
    the two 128-byte headers, each followed by a NUL. *)
Definition url_length (universe : list string) : Z :=
  strlen url_prefix
  + fold_right (fun s n => strlen s + n) 0 universe
  + (Z.of_nat (List.length universe) - 1).

Definition request_fits (key secret : string) (universe : list string) : bool :=
  (url_length universe <? MAX_URL_LENGTH)
  && (strlen "APCA-API-KEY-ID: " + strlen key <? 128)
  && (strlen "APCA-API-SECRET-KEY: " + strlen secret <? 128).

Definition timezone_abbr (gmt_time : tm) : string :=
  if is_dst gmt_time then "EDT" else "EST".

Definition eastern_time (gmt : Z) : Z :=
  if is_dst (gmtime gmt) then gmt - 4 * 3600 else gmt - 5 * 3600.

Definition save_cache_to_file (g_cache : list StockCache) (opens : bool) (w : world)
  : world :=
  if opens
  then mkWorld (Some (save_cache_document g_cache)) (latest_html w) (scp_runs w)
  else w.

Section Main.

Context {conv : StringConv}.

(** The C library's [qsort(base, nmemb, size, compar)] on the rows. *)
Variable qsort :
  list StockResult -> (StockResult -> StockResult -> Z) -> list StockResult.

(** Lines 764-787, entered with [num_results > 0]. *)
Definition publish (i : run_input) (st : loop_state) (w : world) : world :=
  let ranked := rank qsort (results st) in
  let page :=
    mkReport ranked (gmtime (eastern_time (now i))) (timezone_abbr (gmtime (now i))) in
  let w1 :=
    if html_file_opens i
    then mkWorld (previous_results_json w) (Some page) (scp_runs w ++ [page])
    else w in
  save_cache_to_file (g_cache st) (cache_file_opens i) w1.

Definition main (i : run_input) (w : world) : outcome :=
  match api_key_id i, secret_key_id i with
  | Some key, Some secret =>
      match symbol_list i with
      | Some (first :: others) =>
          let universe := firstn (Z.to_nat MAX_SYMBOLS) (first :: others) in
          match init_cache_from_file (previous_results_json w) [] with
          | None => Killed w
          | Some cache =>
              if curl i then
                if request_fits key secret universe then
                  match transfer i with
                  | None => Exit 1 w
                  | Some json_response =>
                      let est_time := gmtime (eastern_time (now i)) in
                      if is_null json_response then Exit 1 w
                      else
                        let st := process_universe est_time json_response
                                    universe (mkLoopState cache []) in
                        if (0 <? Z.of_nat (List.length (results st)))
                        then Exit 0 (publish i st w)
                        else Exit 0 w
                  end
                else Undefined
              else Exit 0 w
          end
      | _ => Exit 1 w
      end
  | _, _ => Exit 1 w
  end.

End Main.

(** ** The symbol list: [read_symbol_list] *)

Definition NUL : ascii := "000"%char.
Definition TAB : ascii := "009"%char.
Definition LF : ascii := "010"%char.
Definition CR : ascii := "013"%char.
Definition SPACE : ascii := " "%char.

(** The C string in a [char] array that holds the bytes [s]: it ends before
    the first NUL. *)
Fixpoint c_str (s : string) : string :=
  match s with
  | EmptyString => EmptyString
  | String c rest => if Ascii.eqb c NUL then EmptyString else String c (c_str rest)
  end.

(** [strchr(set, c) != NULL], for a [c] other than NUL. *)
Fixpoint strchr (set : string) (c : ascii) : bool :=
  match set with
  | EmptyString => false
  | String d rest => Ascii.eqb d c || strchr rest c
  end.

(** [s + strspn(s, accept)]. *)
Fixpoint skip_span (s accept : string) : string :=
  match s with
  | EmptyString => EmptyString
  | String c rest => if strchr accept c then skip_span rest accept else s
  end.

(** The first [strcspn(s, reject)] characters of [s]. *)
Fixpoint strcspn_prefix (s reject : string) : string :=
  match s with
  | EmptyString => EmptyString
  | String c rest =>
      if strchr reject c then EmptyString
      else String c (strcspn_prefix rest reject)
  end.

(** [strtok(s, delim)] with a buffer as first argument: the first token,
    NULL when the buffer holds delimiters only. *)
Definition strtok (s delim : string) : option string :=
  match skip_span s delim with
  | EmptyString => None
  | t => Some (strcspn_prefix t delim)
  end.

(** [toupper] in the "C" locale, the locale of a program that never calls
    [setlocale]. *)
Definition toupper (c : ascii) : ascii :=
  let n := nat_of_ascii c in
  if ((97 <=? n) && (n <=? 122))%nat then ascii_of_nat (n - 32) else c.

(** Lines 226-228. *)
Fixpoint upcase (s : string) : string :=
  match s with
  | EmptyString => EmptyString
  | String c rest => String (toupper c) (upcase rest)
  end.

(** [fgets(buffer, size, file)] on what is left of the stream: at most
    [size - 1] characters, the first newline being the last one taken; the
    result is the characters stored and the rest of the stream, NULL at the
    end of the file. *)
Fixpoint fgets_read (room : nat) (stream : string) : string * string :=
  match room, stream with
  | S room', String c rest =>
      if Ascii.eqb c LF then (String c EmptyString, rest)
      else let (line, rest') := fgets_read room' rest in (String c line, rest')
  | _, _ => (EmptyString, stream)
  end.

Definition fgets (size : nat) (stream : string) : option (string * string) :=
  match stream with
  | EmptyString => None
  | _ => Some (fgets_read (size - 1) stream)
  end.

(** The buffers that successive calls [fgets(buffer, sizeof(buffer), file)]
    fill until the call that returns NULL; every call takes at least one
    character, so the length of the stream bounds their number. *)
Fixpoint fgets_loop (fuel : nat) (stream : string) : list string :=
  match fuel with
  | O => []
  | S fuel' =>
      match fgets 256 stream with
      | None => []
      | Some (buffer, rest) => buffer :: fgets_loop fuel' rest
      end
  end.

Definition fgets_lines (stream : string) : list string :=
  fgets_loop (String.length stream) stream.

Definition blank_or_eol : string :=
  String SPACE (String TAB (String CR (String LF EmptyString))).

Definition blank : string := String SPACE (String TAB EmptyString).

Definition eol_chars : string := String CR (String LF EmptyString).

(** [strlen(token) > 0 && strlen(token) < MAX_SYMBOL_LENGTH - 1]. *)
Definition symbol_fits (token : string) : bool :=
  (0 <? strlen token) && (strlen token <? Z.of_nat MAX_SYMBOL_LENGTH - 1).

(** Lines 188-193: whether the first pass counts the buffer. *)
Definition counted (buffer : string) : bool :=
  if 0 <? strlen buffer then
    match strtok buffer blank_or_eol with
    | Some token => symbol_fits token
    | None => false
    end
  else false.

(** Lines 187-194, over the buffers [fgets] delivers. *)
Fixpoint count_symbols (buffers : list string) (count : Z) : Z :=
  match buffers with
  | [] => count
  | buffer :: rest =>
      if count <? MAX_SYMBOLS
      then count_symbols rest (if counted buffer then count + 1 else count)
      else count
  end.

(** Lines 213-231: the symbol the second pass stores for a buffer, if any. *)
Definition loaded (buffer : string) : option string :=
  let line := strcspn_prefix buffer eol_chars in
  match strtok line blank with
  | Some token =>
      if symbol_fits token then Some (upcase (copy_symbol token)) else None
  | None => None
  end.

(** Lines 212-232, after [rewind]; [symbols] is [symbols[0..i)]. *)
Fixpoint load_symbols (buffers : list string) (count : Z) (symbols : list string)
  : list string :=
  match buffers with
  | [] => symbols
  | buffer :: rest =>
      if Z.of_nat (List.length symbols) <? count then
        match loaded buffer with
        | Some sym => load_symbols rest count (symbols ++ [sym])
        | None => load_symbols rest count symbols
        end
      else symbols
  end.

(** [read_symbol_list] on the contents of the file, [None] for a file that
    does not open; the result is the array with [*num_symbols] its length,
    [None] for NULL.  [calloc] is taken to succeed. *)
Definition read_symbol_list (file : option string) : option (list string) :=
  match file with
  | None => None
  | Some text =>
      let buffers := map c_str (fgets_lines text) in
      let count := count_symbols buffers 0 in
      if count =? 0 then None
      else
        let symbols := load_symbols buffers count [] in
        if Z.of_nat (List.length symbols) =? 0 then None else Some symbols
  end.

(** Lines 502 and 520-525 of [main], on [argv[1..argc)]: the value of the
    [--list] option, the default when there is none. *)
Fixpoint list_option (args : list string) (list_filename : string) : string :=
  match args with
  | [] => list_filename
  | a :: tl =>
      match tl with
      | [] => list_filename
      | b :: rest =>
          if String.eqb a "--list" then list_option rest b
          else list_option tl list_filename
      end
  end.

Definition list_filename (argv : list string) : string :=
  list_option (tl argv) "combined.lis".

(** ** The request: the URL of lines 566-573 *)



(** ** The response body: [WriteMemoryCallback] *)

(** [memory] holds [size] bytes and, behind them, a NUL. *)
Record MemoryStruct : Type := mkMemoryStruct {
  memory : string;
  size : Z
}.

(** [WriteMemoryCallback(contents, size, nmemb, userp)] for the
    [size * nmemb] bytes [contents]; [realloc_ok] is whether [realloc]
    returns a block.  The result is the return value and [*userp]. *)
Definition WriteMemoryCallback (contents : string) (realloc_ok : bool)
  (mem : MemoryStruct) : Z * MemoryStruct :=
  let realsize := strlen contents in
  if realloc_ok
  then (realsize, mkMemoryStruct (memory mem ++ contents) (size mem + realsize))
  else (0, mem).

(** libcurl hands the body over piece by piece and gives the transfer up
    ([CURLE_WRITE_ERROR]) when the callback returns another number than the
    number of bytes it was given. *)
Fixpoint receive (pieces : list (string * bool)) (mem : MemoryStruct)
  : option MemoryStruct :=
  match pieces with
  | [] => Some mem
  | (contents, realloc_ok) :: rest =>
      let (written, mem') := WriteMemoryCallback contents realloc_ok mem in
      if written =? strlen contents then receive rest mem' else None
  end.

(** ** The report: the table of [generate_html] *)

Section Html.

(** The C library's [snprintf] on the row format of lines 283-295: the text
    the format produces for a class and a row, however long, [None] for an
    output error. *)
Variable snprintf_row : string -> StockResult -> option string.

Definition row_buffer_size : Z := 1024.

(** Lines 275-280. *)
Definition row_class (r : StockResult) : string :=
  if 1000 <? trades r then "high-trades" else EmptyString.

(** Lines 273-321: [continue] on a row that does not fit [row], [break]
    when the table would not hold the row. *)
Fixpoint table_rows (results : list StockResult) (table_buffer_size : Z)
  (table_buffer : string) : string :=
  match results with
  | [] => table_buffer
  | r :: rest =>
      match snprintf_row (row_class r) r with
      | None => table_rows rest table_buffer_size table_buffer
      | Some row =>
          let chars_written := strlen row in
          if (chars_written <? 0) || (row_buffer_size <=? chars_written)
          then table_rows rest table_buffer_size table_buffer
          else if table_buffer_size <=? strlen table_buffer + strlen row
          then table_buffer
          else table_rows rest table_buffer_size (table_buffer ++ row)
      end
  end.

(** Lines 262-271 and the loop, for [num_results] within [int]. *)
Definition table (results : list StockResult) : string :=
  let num_results := Z.of_nat (List.length results) in
  table_rows results (row_buffer_size * (num_results + 1)) EmptyString.

End Html.

(** ** Auxiliary notions used in the statements *)

Definition cache_has (g_cache : list StockCache) (sym : string) : bool :=
  existsb (fun e => String.eqb (cache_symbol e) sym) g_cache.

(** What the C types hold of a cache entry: a symbol of at most fifteen
    characters in [char[16]], and two [int]s. *)
Definition cache_entry_ok (e : StockCache) : Prop :=
  (String.length (cache_symbol e) <= 15)%nat
  /\ CInt.in_range (cache_volume e) /\ CInt.in_range (cache_trades e).

(** The pair [save_cache_to_file] adds for an entry. *)
Definition cache_field (e : StockCache) : string * json :=
  (cache_symbol e, cache_item e).

(** Insertion by symbol: the first entry of that symbol is replaced, a new
    symbol goes last. *)
Fixpoint upsert (d : list StockCache) (e : StockCache) : list StockCache :=
  match d with
  | [] => [e]
  | x :: rest =>
      if String.eqb (cache_symbol x) (cache_symbol e) then e :: rest
      else x :: upsert rest e
  end.

(** The run gets as far as the transfer: credentials and a symbol list are
    there, the cache file loads into [cache], a curl handle exists and the
    request fits its buffers; [universe] is the list the loop will walk. *)
Definition reaches_transfer `{StringConv} (i : run_input) (w : world)
  (universe : list string) (cache : list StockCache) : Prop :=
  exists key secret first others,
    api_key_id i = Some key
    /\ secret_key_id i = Some secret
    /\ symbol_list i = Some (first :: others)
    /\ universe = firstn (Z.to_nat MAX_SYMBOLS) (first :: others)
    /\ init_cache_from_file (previous_results_json w) [] = Some cache
    /\ curl i = true
    /\ request_fits key secret universe = true.

(** A member of a member: [path j ["minuteBar"; "n"]] is [j.minuteBar.n],
    NULL as soon as a step is missing. *)
Definition path (j : json) (keys : list string) : json :=
  fold_left json_object_object_get_ex keys j.

Section Validation.

Context {conv : StringConv}.

(** The validation of section 4.2, in the spec's words: the members a
    snapshot must provide, the previous-day close only outside
    pre-market. *)
Definition snapshot_complete (premarket : bool) (snapshot : json) : bool :=
  negb (is_null (path snapshot ["minuteBar"; "n"]))
  && negb (is_null (path snapshot ["latestTrade"; "t"]))
  && negb (is_null (path snapshot ["latestTrade"; "p"]))
  && negb (is_null (path snapshot ["dailyBar"; "c"]))
  && negb (is_null (path snapshot ["minuteBar"; "v"]))
  && (premarket || negb (is_null (path snapshot ["prevDailyBar"; "c"]))).

Definition snapshot_values_of (premarket : bool) (snapshot : json)
  : snapshot_values :=
  mkSnapshotValues
    (json_object_get_int (path snapshot ["minuteBar"; "n"]))
    (json_object_get_double (path snapshot ["latestTrade"; "p"]))
    (json_object_get_double (path snapshot ["dailyBar"; "c"]))
    (json_object_get_int (path snapshot ["minuteBar"; "v"]))
    (json_object_get_double
       (path snapshot [if premarket then "dailyBar" else "prevDailyBar"; "c"])).

End Validation.

(** The daylight-saving rule in the spec's words, on a broken-down date:
    the weekday of day [d] of the month that [t] lies in, the [k]-th Sunday
    of that month, and the period from the second Sunday of March up to,
    and not including, the first Sunday of November. *)
Definition weekday_of (t : tm) (d : Z) : Z :=
  (tm_wday t + (d - tm_mday t)) mod 7.

Definition nth_sunday (t : tm) (k d : Z) : Prop :=
  7 * (k - 1) < d <= 7 * k /\ weekday_of t d = 0.

Definition daylight_saving (t : tm) : Prop :=
  3 <= tm_mon t <= 9
  \/ (tm_mon t = 2 /\ exists d, nth_sunday t 2 d /\ d <= tm_mday t)
  \/ (tm_mon t = 10 /\ exists d, nth_sunday t 1 d /\ tm_mday t < d).

(** Seconds since the last midnight of the wall clock that shows [t]. *)
Definition seconds_of_day (t : Z) : Z := t mod 86400.

(** Every character of [s] satisfies [p]. *)
Fixpoint all_chars (p : ascii -> bool) (s : string) : bool :=
  match s with
  | EmptyString => true
  | String c rest => p c && all_chars p rest
  end.

(** The characters of a symbol as [read_symbol_list] stores it: no blank,
    no end of line, no NUL, and nothing [toupper] would change. *)
Definition symbol_char (c : ascii) : bool :=
  negb (strchr blank_or_eol c) && negb (Ascii.eqb c NUL) && Ascii.eqb (toupper c) c.

Definition listed_symbol (s : string) : bool :=
  symbol_fits s && all_chars symbol_char s.

(** A text file with lines that one [fgets] takes whole: at most 253
    characters before the end of the line, none of them CR, LF or NUL. *)
Definition text_char (c : ascii) : bool :=
  negb (strchr eol_chars c) && negb (Ascii.eqb c NUL).

Definition text_line (body : string) : bool :=
  (String.length body <=? 253)%nat && all_chars text_char body.

Definition newline : string := String LF EmptyString.
Definition crlf : string := String CR (String LF EmptyString).

(** The file whose lines are [lines], each followed by [eol], and then
    [last] with no end of line behind it. *)
Definition text_of (eol : string) (lines : list string) (last : string) : string :=
  fold_right (fun body text => body ++ eol ++ text) last lines.

(** The first word of a line, if it has one. *)
Definition first_word (line : string) : list string :=
  match strtok line blank with
  | Some token => [token]
  | None => []
  end.

(** What the second pass would store for the buffers were there no bound
    on their number. *)
Definition symbols_of (buffers : list string) : list string :=
  flat_map (fun b => match loaded b with Some s => [s] | None => [] end) buffers.

(** The ends of a buffer that holds a line: none (the last line of a file),
    LF, or CR LF. *)
Definition line_end (tail : string) : Prop :=
  tail = EmptyString \/ tail = newline \/ tail = crlf.

Definition buffers_of (eol : string) (lines : list string) (last : string)
  : list string :=
  (map (fun body => (body ++ eol)%string) lines
   ++ match last with EmptyString => [] | _ => [last] end)%list.

(** The symbol passes every check of the loop body. *)
Definition passes `{StringConv} (est_time : tm) (json_response : json) (sym : string)
  : bool :=
  match read_snapshot est_time json_response sym with
  | Some _ => true
  | None => false
  end.

(** What a row shows of the snapshot itself: every field but the three
    changes. *)
Definition observation (r : StockResult)
  : string * float * float * float * float * float * Z * Z :=
  (symbol r, price r, day_close r, percent r, gradient_full r, gradient_recent r,
   volume r, trades r).

Section Loaded.

Context {conv : StringConv}.

(** Lines 100-104 of [init_cache_from_file]: the three members are there. *)
Definition complete_entry (val : json) : bool :=
  negb (is_null (json_object_object_get_ex val "gradient_recent"))
  && negb (is_null (json_object_object_get_ex val "volume"))
  && negb (is_null (json_object_object_get_ex val "trades")).

(** Lines 105-109: the entry stored for a pair of the document. *)
Definition entry_of (pair : string * json) : StockCache :=
  mkStockCache (copy_symbol (fst pair))
    (json_object_get_double (json_object_object_get_ex (snd pair) "gradient_recent"))
    (json_object_get_int (json_object_object_get_ex (snd pair) "volume"))
    (json_object_get_int (json_object_object_get_ex (snd pair) "trades")).

End Loaded.

(** The changes of a row are its values: it was measured against the
    baseline [(0.0, 0, 0)]. *)
Definition zero_baseline (r : StockResult) : Prop :=
  gradient_change r = gradient_recent r
  /\ volume_change r = volume r
  /\ trades_change r = trades r.

(** The cache file is absent, or holds what [save_cache_to_file] writes for
    a cache within what the C types hold. *)
Definition written_by_save (file : option json) : Prop :=
  file = None
  \/ exists c, g_cache_count c <= MAX_SYMBOLS /\ Forall cache_entry_ok c
               /\ file = Some (save_cache_document c).

(** The strings of a list, one after the other. *)
Definition strcat_all (l : list string) : string :=
  fold_right append EmptyString l.

Section Rows.

Variable snprintf_row : string -> StockResult -> option string.

(** The text of a row when it fits the row buffer of [generate_html]. *)
Definition fitting_row (r : StockResult) : list string :=
  match snprintf_row (row_class r) r with
  | Some row => if strlen row <? row_buffer_size then [row] else []
  | None => []
  end.

End Rows.

(** ** Example data *)

Module Examples.

Local Open Scope float_scope.

(** A snapshot record as the data service sends it. *)
Definition snapshot (p : json) (n v : json) (c : json) (prev : json) : json :=
  JObject [("latestTrade", JObject [("t", JString "2024-03-11T13:00:00Z"); ("p", p)]);
           ("minuteBar", JObject [("n", n); ("v", v)]);
           ("dailyBar", JObject [("c", c)]);
           ("prevDailyBar", prev)].

Definition premarket_tm : tm := mkTm 0 0 8 11 2 124 1.
Definition regular_tm : tm := mkTm 0 0 11 11 2 124 1.

(** Symbols ["QAAA"], ["QAAB"], ...: distinct three-letter counters. *)
Definition letter (k : Z) : ascii := ascii_of_nat (Z.to_nat (65 + k mod 26)).

Definition counter_symbol (k : Z) : string :=
  String "Q" (String (letter (k / 676)) (String (letter (k / 26))
    (String (letter k) EmptyString))).

Definition full_cache : list StockCache :=
  map (fun k => mkStockCache (counter_symbol (Z.of_nat k)) 1 100 60)
      (seq 0 (Z.to_nat MAX_SYMBOLS)).

(** A response for ["NEW"] alone, with [n] trades in the current minute
    and no previous-day bar. *)
Definition response_with_count (n : Z) : json :=
  JObject [("NEW", snapshot (JDouble 101) (JInt n) (JInt 4000)
                     (JDouble 100) JNull)].

Definition new_response : json := response_with_count 75.

(** A run for the one symbol ["NEW"] over a cache file that holds an
    earlier observation of it. *)
Definition earlier_cache : list StockCache := [mkStockCache "NEW" 0.5 3000 70].

Definition earlier_world : world :=
  mkWorld (Some (save_cache_document earlier_cache)) None [].

Definition run_with (response : json) : run_input :=
  mkRunInput (Some "key") (Some "secret") (Some ["NEW"]) true (Some response)
             1710160200 true true.

(** A response whose current-day close is [c], with the previous-day bar
    [prev]. *)
Definition response_with_close (c prev : json) : json :=
  JObject [("NEW", snapshot (JDouble 101) (JInt 75) (JInt 4000) c prev)].

(** Four rows with trade counts 10, 50, 50 and 5, named in input order. *)
Definition row (sym : string) (n : Z) : StockResult :=
  mkStockResult sym 101 100 1 0.5 1 1 4000 4000 n n.

Definition four_rows : list StockResult :=
  [row "IDX0" 10; row "IDX1" 50; row "IDX2" 50; row "IDX3" 5].

(** A list file: lower case, leading blanks and a second word, an empty
    line, a name too long for a symbol, and a last line without newline. *)
Definition list_lines : list string :=
  ["aapl"; "  msft  extra"; EmptyString; "averyveryverylongsymbolname"; "brk.b"].

Definition list_file : string := text_of newline list_lines "tsla".

(** Runs for ["NEW"] in which the transfer fails, the key is not in the
    environment, curl gives no handle, and [latest.html] does not open. *)
Definition failed_run : run_input :=
  mkRunInput (Some "key") (Some "secret") (Some ["NEW"]) true None 1710160200 true true.

Definition no_credentials : run_input :=
  mkRunInput None (Some "secret") (Some ["NEW"]) true (Some new_response)
    1710160200 true true.

Definition no_handle : run_input :=
  mkRunInput (Some "key") (Some "secret") (Some ["NEW"]) false (Some new_response)
    1710160200 true true.

Definition unwritable_report : run_input :=
  mkRunInput (Some "key") (Some "secret") (Some ["NEW"]) true (Some new_response)
    1710160200 false true.

(** What the data service answers to a request it refuses. *)
Definition error_body : json := JObject [("message", JString "forbidden.")].

(** As many four-letter symbols as the program admits. *)
Definition long_universe : list string :=
  map (fun k => counter_symbol (Z.of_nat k)) (seq 0 (Z.to_nat MAX_SYMBOLS)).

Definition long_run : run_input :=
  mkRunInput (Some "key") (Some "secret") (Some long_universe) true
    (Some new_response) 1710160200 true true.

(** A word of 255 characters, as many as one [fgets] takes. *)
Definition long_word : string := string_of_list_ascii (repeat "x"%char 255).

(** A key of 111 characters, and a run that has it in the environment. *)
Definition long_key : string := string_of_list_ascii (repeat "k"%char 111).

Definition long_key_run : run_input :=
  mkRunInput (Some long_key) (Some "secret") (Some ["NEW"]) true (Some new_response)
    1710160200 true true.

End Examples.

(** * Properties *)

(** ** Strings and machine integers *)

Lemma substring_all (s : string) (n : nat) :
  (String.length s <= n)%nat -> substring 0 n s = s.
Proof.
  revert n; induction s as [|a s IH]; intros [|n] Hlen; simpl in *;
    try reflexivity; try lia.
  f_equal. apply IH. lia.
Qed.

Lemma copy_symbol_short (s : string) :
  (String.length s <= 15)%nat -> copy_symbol s = s.
Proof. intros H. unfold copy_symbol. simpl. now apply substring_all. Qed.

Lemma wrap_in_range (z : Z) : CInt.in_range z -> CInt.wrap z = z.
Proof.
  unfold CInt.in_range, CInt.wrap, CInt.INT_MIN, CInt.INT_MAX. intros H.
  rewrite Z.mod_small; lia.
Qed.

Lemma sub_exact (a b : Z) : CInt.in_range (a - b) -> CInt.sub a b = a - b.
Proof. apply wrap_in_range. Qed.

Lemma clamp_in_range (z : Z) : CInt.in_range (CInt.clamp z).
Proof.
  unfold CInt.clamp, CInt.in_range, CInt.INT_MIN, CInt.INT_MAX.
  destruct (Z.leb_spec z (- 2 ^ 31)); [lia|].
  destruct (Z.leb_spec (2 ^ 31 - 1) z); lia.
Qed.

Lemma clamp_id (z : Z) : CInt.in_range z -> CInt.clamp z = z.
Proof.
  unfold CInt.clamp, CInt.in_range. intros Hz.
  destruct (Z.leb_spec z CInt.INT_MIN); [lia|].
  destruct (Z.leb_spec CInt.INT_MAX z); lia.
Qed.

(** ** Conversions between [double] and [int] *)

Lemma digits2_pos_bound (m : positive) : Z.pos m < 2 ^ Z.pos (digits2_pos m).
Proof.
  induction m as [p IH | p IH |]; cbn [digits2_pos].
  - rewrite Pos2Z.inj_succ, Z.pow_succ_r by lia. lia.
  - rewrite Pos2Z.inj_succ, Z.pow_succ_r by lia. lia.
  - reflexivity.
Qed.

Lemma valid_mantissa_bound (s : bool) (m : positive) (e : Z) :
  valid_binary (S754_finite s m e) = true -> Z.pos m < 2 ^ 53.
Proof.
  cbn [SpecFloat.valid_binary]. unfold bounded, canonical_mantissa, fexp.
  intros H. apply andb_true_iff in H as [H _]. apply Z.eqb_eq in H.
  pose proof (digits2_pos_bound m) as Hm.
  assert (Hd : Z.pos (digits2_pos m) <= 53) by (unfold prec in H; lia).
  eapply Z.lt_le_trans; [exact Hm|]. apply Z.pow_le_mono_r; lia.
Qed.

Lemma shiftr_small (m : positive) (k b : Z) :
  0 <= b -> 0 <= k -> Z.pos m < 2 ^ (b + k) -> Z.shiftr (Z.pos m) k < 2 ^ b.
Proof.
  intros Hb Hk Hm. rewrite Z.shiftr_div_pow2 by exact Hk.
  apply Z.div_lt_upper_bound; [apply Z.pow_pos_nonneg; lia|].
  rewrite <- Z.pow_add_r by lia. now rewrite Z.add_comm.
Qed.

Lemma magnitude_below_max (m : positive) (e : Z) :
  Z.pos m < 2 ^ 53 ->
  SFleb (S754_finite false 9007199250546688 (-22)) (S754_finite false m e) = false ->
  0 <= CDouble.magnitude m e < 2147483647.
Proof.
  intros Hvalid. unfold SFleb, SFcompare, CDouble.magnitude.
  rewrite Pos.compare_cont_spec, (Pos2Z.inj_compare 9007199250546688 m).
  destruct (Z.compare_spec (-22) e) as [<- | Hlt | Hgt]; [| discriminate |].
  - destruct (Z.compare_spec 9007199250546688 (Z.pos m)) as [Hm | Hm | Hm];
      cbn [Pos.switch_Eq]; [discriminate | discriminate | intros _].
    change (0 <=? -22) with false. cbv iota.
    split; [apply Z.shiftr_nonneg; lia|].
    rewrite Z.shiftr_div_pow2 by lia.
    apply Z.div_lt_upper_bound; [reflexivity|].
    change (2 ^ (- -22) * 2147483647) with 9007199250546688. exact Hm.
  - intros _. destruct (Z.leb_spec 0 e) as [He | He]; [lia|].
    split; [apply Z.shiftr_nonneg; lia|].
    apply (Z.lt_trans _ (2 ^ 30)); [|reflexivity].
    apply shiftr_small; [lia | lia |].
    eapply Z.lt_le_trans; [exact Hvalid|]. apply Z.pow_le_mono_r; lia.
Qed.

Lemma magnitude_above_min (m : positive) (e : Z) :
  Z.pos m < 2 ^ 53 ->
  SFleb (S754_finite true m e) (S754_finite true 4503599627370496 (-21)) = false ->
  0 <= CDouble.magnitude m e < 2147483648.
Proof.
  intros Hvalid. unfold SFleb, SFcompare, CDouble.magnitude.
  rewrite Pos.compare_cont_spec, (Pos2Z.inj_compare m 4503599627370496).
  destruct (Z.compare_spec e (-21)) as [-> | Hlt | Hgt]; [| | discriminate].
  - destruct (Z.compare_spec (Z.pos m) 4503599627370496) as [Hm | Hm | Hm];
      cbn [Pos.switch_Eq CompOpp]; [discriminate | intros _ | discriminate].
    change (0 <=? -21) with false. cbv iota.
    split; [apply Z.shiftr_nonneg; lia|].
    rewrite Z.shiftr_div_pow2 by lia.
    apply Z.div_lt_upper_bound; [reflexivity|].
    change (2 ^ (- -21) * 2147483648) with 4503599627370496. exact Hm.
  - intros _. destruct (Z.leb_spec 0 e) as [He | He]; [lia|].
    split; [apply Z.shiftr_nonneg; lia|].
    apply (Z.lt_le_trans _ (2 ^ 31)); [|apply Z.leb_le; reflexivity].
    apply shiftr_small; [lia | lia |].
    eapply Z.lt_le_trans; [exact Hvalid|]. apply Z.pow_le_mono_r; lia.
Qed.

(** Whatever the JSON value, json-c answers a request for an [int32_t]
    with a value of that type. *)
Lemma json_object_get_int_in_range `{StringConv} (jso : json) :
  CInt.in_range (json_object_get_int jso).
Proof.
  assert (Hzero : CInt.in_range 0)
    by (unfold CInt.in_range, CInt.INT_MIN, CInt.INT_MAX; lia).
  destruct jso as [| [|] | z | d | s | items | fields]; cbn [json_object_get_int];
    try exact Hzero; try apply clamp_in_range.
  - unfold CDouble.truncate. rewrite !leb_spec.
    change (Prim2SF (CDouble.of_Z CInt.INT_MIN))
      with (S754_finite true 4503599627370496 (-21)).
    change (Prim2SF (CDouble.of_Z CInt.INT_MAX))
      with (S754_finite false 9007199250546688 (-22)).
    pose proof (Prim2SF_valid d) as Hvalid.
    unfold CInt.in_range.
    change CInt.INT_MIN with (-2147483648). change CInt.INT_MAX with 2147483647.
    destruct (Prim2SF d) as [s | s | | s m e].
    + cbn. lia.
    + destruct s; cbn; lia.
    + cbn. lia.
    + apply valid_mantissa_bound in Hvalid. destruct s.
      * destruct (SFleb (S754_finite true m e) _) eqn:Hmin; [lia|].
        pose proof (magnitude_above_min m e Hvalid Hmin).
        destruct (SFleb _ (S754_finite true m e)); lia.
      * destruct (SFleb (S754_finite false m e) _) eqn:Hmin; [lia|].
        destruct (SFleb _ (S754_finite false m e)) eqn:Hmax; [lia|].
        pose proof (magnitude_below_max m e Hvalid Hmax). lia.
  - destruct (string_as_int64 s); [apply clamp_in_range | exact Hzero].
Qed.

(** ** The cache as a first-match table *)

Lemma get_cached_values_miss (c : list StockCache) (sym : string) :
  cache_has c sym = false -> get_cached_values c sym = (0%float, 0, 0).
Proof.
  induction c as [|e c IH]; simpl; [reflexivity|].
  destruct (String.eqb (cache_symbol e) sym); simpl; [discriminate | exact IH].
Qed.

Lemma update_cache_hit_none (c : list StockCache) sym g v t :
  cache_has c sym = false -> update_cache_hit c sym g v t = None.
Proof.
  induction c as [|e c IH]; simpl; [reflexivity|].
  destruct (String.eqb (cache_symbol e) sym); simpl; [discriminate|].
  intros H. now rewrite IH.
Qed.

Lemma update_cache_hit_some (c : list StockCache) sym g v t :
  cache_has c sym = true ->
  exists c', update_cache_hit c sym g v t = Some c'
             /\ get_cached_values c' sym = (g, v, t)
             /\ List.length c' = List.length c.
Proof.
  induction c as [|e c IH]; simpl; [discriminate|].
  destruct (String.eqb (cache_symbol e) sym) eqn:E; simpl.
  - intros _. eexists. split; [reflexivity|]. simpl. now rewrite E.
  - intros H. destruct (IH H) as (c' & -> & Hget & Hlen). simpl.
    eexists. split; [reflexivity|]. simpl. rewrite E. split; [exact Hget | now rewrite Hlen].
Qed.

Lemma get_cached_values_app_miss (c : list StockCache) (e : StockCache) sym :
  cache_has c sym = false ->
  get_cached_values (c ++ [e]) sym = get_cached_values [e] sym.
Proof.
  induction c as [|e0 c IH]; simpl; [reflexivity|].
  destruct (String.eqb (cache_symbol e0) sym); simpl; [discriminate | exact IH].
Qed.

Lemma get_after_update (c : list StockCache) sym g v t :
  cache_has c sym = true
  \/ (g_cache_count c < MAX_SYMBOLS /\ (String.length sym <= 15)%nat) ->
  get_cached_values (update_cache c sym g v t) sym = (g, v, t).
Proof.
  unfold update_cache. destruct (cache_has c sym) eqn:Hhas.
  - intros _. destruct (update_cache_hit_some c sym g v t Hhas) as (c' & -> & Hget & _).
    exact Hget.
  - intros [Habs | [Hroom Hlen]]; [discriminate|].
    rewrite update_cache_hit_none by exact Hhas.
    apply Z.ltb_lt in Hroom. rewrite Hroom.
    rewrite get_cached_values_app_miss by exact Hhas.
    simpl. rewrite copy_symbol_short by exact Hlen. now rewrite String.eqb_refl.
Qed.

(** ** The loop body against the validation rules *)

Lemma is_null_true (j : json) : is_null j = true -> j = JNull.
Proof. destruct j; simpl; congruence. Qed.

Ltac split_null :=
  match goal with
  | |- context [is_null ?x] =>
      let E := fresh "E" in
      destruct (is_null x) eqn:E;
      [ apply is_null_true in E; rewrite ?E;
        cbn [json_object_object_get_ex is_null negb andb orb]
      | cbn [negb andb orb] ]
  end.

Lemma read_snapshot_eq `{StringConv} (est_time : tm) (json_response : json)
  (sym : string) :
  let snapshot := json_object_object_get_ex json_response sym in
  read_snapshot est_time json_response sym
  = if snapshot_complete (is_premarket est_time) snapshot
       && (50 <=? json_object_get_int (path snapshot ["minuteBar"; "n"]))
    then Some (snapshot_values_of (is_premarket est_time) snapshot)
    else None.
Proof.
  unfold read_snapshot, snapshot_complete, snapshot_values_of, path, nonnull.
  cbv beta zeta. cbn [fold_left].
  generalize (json_object_object_get_ex json_response sym) as snapshot.
  intros snapshot.
  rewrite (Z.leb_antisym _ 50).
  repeat split_null;
    destruct (is_premarket est_time); cbn [negb andb orb];
    try reflexivity;
    match goal with |- context [?a <? 50] => destruct (a <? 50) end;
    reflexivity.
Qed.

Lemma read_snapshot_ranges `{StringConv} est_time json_response sym v :
  read_snapshot est_time json_response sym = Some v ->
  50 <= minute_trades v <= CInt.INT_MAX /\ CInt.in_range (minute_volume v).
Proof.
  rewrite read_snapshot_eq. cbv zeta.
  destruct (snapshot_complete _ _); cbn [andb]; [|discriminate].
  destruct (Z.leb_spec 50 (json_object_get_int
              (path (json_object_object_get_ex json_response sym)
                    ["minuteBar"; "n"]))) as [Hge | Hlt]; [|discriminate].
  intros Hv. injection Hv as <-. cbn [minute_trades minute_volume snapshot_values_of].
  split; [split; [exact Hge | apply json_object_get_int_in_range]
         | apply json_object_get_int_in_range].
Qed.

Lemma process_symbol_skip `{StringConv} est_time json_response st sym :
  read_snapshot est_time json_response sym = None ->
  process_symbol est_time json_response st sym = st.
Proof. intros Hnone. unfold process_symbol. now rewrite Hnone. Qed.

Lemma process_symbol_emit `{StringConv} est_time json_response st sym v :
  read_snapshot est_time json_response sym = Some v ->
  process_symbol est_time json_response st sym = emit_result v sym st.
Proof. intros Hsome. unfold process_symbol. now rewrite Hsome. Qed.

Lemma emit_result_row `{StringConv} (v : snapshot_values) (sym : string)
  (st : loop_state) :
  exists row,
    results (emit_result v sym st) = (results st ++ [row])%list
    /\ symbol row = copy_symbol sym
    /\ price row = price_now v
    /\ day_close row = snapshot_day_close v
    /\ percent row = percent_of v
    /\ gradient_full row = gradient_full_of v
    /\ gradient_recent row = gradient_recent_of v
    /\ volume row = minute_volume v
    /\ trades row = minute_trades v.
Proof.
  unfold emit_result.
  destruct (get_cached_values (g_cache st) sym) as [[pg pv] pt].
  eexists. cbn. repeat split.
Qed.

Lemma emit_result_changes `{StringConv} (v : snapshot_values) (sym : string)
  (st : loop_state) :
  let prev := get_cached_values (g_cache st) sym in
  exists row,
    results (emit_result v sym st) = (results st ++ [row])%list
    /\ gradient_change row = (gradient_recent_of v - fst (fst prev))%float
    /\ volume_change row = CInt.sub (minute_volume v) (snd (fst prev))
    /\ trades_change row = CInt.sub (minute_trades v) (snd prev).
Proof.
  unfold emit_result.
  destruct (get_cached_values (g_cache st) sym) as [[pg pv] pt].
  eexists. cbn. repeat split.
Qed.

Lemma path_null_parent (j : json) (k1 k2 : string) :
  is_null (json_object_object_get_ex j k1) = true ->
  is_null (path j [k1; k2]) = true.
Proof. intros Hn. apply is_null_true in Hn. unfold path. cbn. now rewrite Hn. Qed.

(** ** Deltas against the cache, then the update (C1) *)

Lemma float_sub_zero (x : float) : (x - 0)%float = x.
Proof.
  apply Prim2SF_inj. rewrite sub_spec.
  change (Prim2SF 0) with (S754_zero false).
  destruct (Prim2SF x) as [[|]| [|] | |s m e]; reflexivity.
Qed.

(** C1 (as amended): when the metric computation of a symbol succeeds, one
    row is appended whose change fields are the differences, in C arithmetic,
    between this poll's values and the values [get_cached_values] finds in
    the cache as it stood before the iteration, a miss giving the baseline
    [(0.0, 0, 0)] and so changes equal to the values themselves; the cache
    after the iteration is [update_cache] applied to that earlier cache
    with the row's recent gradient, volume and trade count.  It answers
    with exactly these values whenever the symbol already had an entry, or
    the table had room for one more and the symbol fits the 15-character
    field; a symbol without an entry leaves a full table as it was. *)
Theorem delta_before_cache_update `{StringConv}
  (est_time : tm) (json_response : json) (st : loop_state) (sym : string)
  (v : snapshot_values) :
  read_snapshot est_time json_response sym = Some v ->
  let prev := get_cached_values (g_cache st) sym in
  let st' := process_symbol est_time json_response st sym in
  exists row,
    results st' = (results st ++ [row])%list
    /\ gradient_recent row = gradient_recent_of v
    /\ volume row = minute_volume v
    /\ trades row = minute_trades v
    /\ gradient_change row = (gradient_recent row - fst (fst prev))%float
    /\ volume_change row = CInt.sub (volume row) (snd (fst prev))
    /\ trades_change row = CInt.sub (trades row) (snd prev)
    /\ (cache_has (g_cache st) sym = false ->
        prev = (0%float, 0, 0)
        /\ gradient_change row = gradient_recent row
        /\ volume_change row = volume row
        /\ trades_change row = trades row)
    /\ g_cache st'
       = update_cache (g_cache st) sym (gradient_recent row) (volume row) (trades row)
    /\ (cache_has (g_cache st) sym = true
        \/ (g_cache_count (g_cache st) < MAX_SYMBOLS /\ (String.length sym <= 15)%nat) ->
        get_cached_values (g_cache st') sym
        = (gradient_recent row, volume row, trades row))
    /\ (cache_has (g_cache st) sym = false ->
        MAX_SYMBOLS <= g_cache_count (g_cache st) ->
        g_cache st' = g_cache st).
Proof.
  intros Hread prev st'. subst prev st'.
  destruct (read_snapshot_ranges _ _ _ _ Hread) as [Htrades Hvolume].
  unfold process_symbol. rewrite Hread. unfold emit_result.
  destruct (get_cached_values (g_cache st) sym) as [[pg pv] pt] eqn:Hprev.
  eexists. cbn [results g_cache gradient_recent volume trades gradient_change
                volume_change trades_change fst snd].
  repeat (split; [reflexivity|]).
  split; [|split; [reflexivity | split; [apply get_after_update|]]];
    [|intros Hmiss Hfull; unfold update_cache;
      rewrite update_cache_hit_none by exact Hmiss;
      apply Z.ltb_ge in Hfull; now rewrite Hfull].
  intros Hmiss. rewrite get_cached_values_miss in Hprev by exact Hmiss.
  injection Hprev as <- <- <-. split; [reflexivity|].
  split; [apply float_sub_zero|].
  unfold CInt.sub. rewrite !Z.sub_0_r.
  split; apply wrap_in_range; [exact Hvolume|].
  unfold CInt.in_range, CInt.INT_MIN. cbn [trades]. lia.
Qed.

Lemma delta_before_cache_update_witness :
  (forall conv : StringConv,
      read_snapshot Examples.premarket_tm Examples.new_response "NEW"
      = Some (mkSnapshotValues 75 101 100 4000 100))
  /\ (forall conv : StringConv,
        let st := mkLoopState [mkStockCache "NEW" 0.5 3000 70] [] in
        exists row,
          results (process_symbol Examples.premarket_tm Examples.new_response st "NEW")
          = [row]
          /\ gradient_change row = 0.5%float
          /\ volume_change row = 1000
          /\ trades_change row = 5
          /\ get_cached_values
               (g_cache (process_symbol Examples.premarket_tm Examples.new_response
                           st "NEW")) "NEW"
             = (1%float, 4000, 75)).
Proof.
  split; [intros conv; reflexivity|].
  intros conv st.
  assert (Hread : read_snapshot Examples.premarket_tm Examples.new_response "NEW"
                  = Some (mkSnapshotValues 75 101 100 4000 100)) by reflexivity.
  destruct (delta_before_cache_update Examples.premarket_tm Examples.new_response
              st "NEW" _ Hread)
    as (row & Hres & Hg & Hv & Ht & Hdg & Hdv & Hdt & _ & _ & Hget & _).
  exists row. rewrite Hdg, Hdv, Hdt, Hg, Hv, Ht. rewrite Hg, Hv, Ht in Hget.
  split; [exact Hres|]. repeat (split; [reflexivity|]).
  apply Hget. left. reflexivity.
Defined.

(** ** Reference price (C2) *)

(** C2: for a snapshot that passes the checks common to both sessions, the
    reference price entering the percent computation is the current-day
    close in pre-market and the previous-day close otherwise; outside
    pre-market a missing previous-day bar, or a bar without a close, makes
    the iteration leave the loop state as it was: no row, no cache write. *)
Theorem reference_price_selection `{StringConv}
  (est_time : tm) (json_response : json) (st : loop_state) (sym : string) :
  let snapshot := json_object_object_get_ex json_response sym in
  snapshot_complete true snapshot = true ->
  50 <= json_object_get_int (path snapshot ["minuteBar"; "n"]) ->
  if is_premarket est_time then
    exists v row,
      read_snapshot est_time json_response sym = Some v
      /\ reference_price v = json_object_get_double (path snapshot ["dailyBar"; "c"])
      /\ results (process_symbol est_time json_response st sym)
         = (results st ++ [row])%list
      /\ percent row
         = (((price row - reference_price v) / reference_price v) * 100)%float
  else
    (is_null (json_object_object_get_ex snapshot "prevDailyBar") = true
     \/ is_null (path snapshot ["prevDailyBar"; "c"]) = true ->
     read_snapshot est_time json_response sym = None
     /\ process_symbol est_time json_response st sym = st)
    /\ (is_null (path snapshot ["prevDailyBar"; "c"]) = false ->
        exists v row,
          read_snapshot est_time json_response sym = Some v
          /\ reference_price v
             = json_object_get_double (path snapshot ["prevDailyBar"; "c"])
          /\ results (process_symbol est_time json_response st sym)
             = (results st ++ [row])%list
          /\ percent row
             = (((price row - reference_price v) / reference_price v) * 100)%float).
Proof.
  intros snapshot Hcommon Hcount.
  pose proof (read_snapshot_eq est_time json_response sym) as Hread.
  cbv zeta in Hread. fold snapshot in Hread.
  apply Z.leb_le in Hcount. rewrite Hcount, andb_true_r in Hread.
  unfold snapshot_complete in Hread, Hcommon. cbn [orb] in Hcommon.
  rewrite andb_true_r in Hcommon. rewrite Hcommon in Hread. cbn [andb] in Hread.
  destruct (is_premarket est_time).
  - cbn [orb] in Hread.
    destruct (emit_result_row (snapshot_values_of true snapshot) sym st)
      as (row & Hres & _ & Hp & _ & Hpc & _).
    exists (snapshot_values_of true snapshot), row.
    rewrite (process_symbol_emit _ _ _ _ _ Hread), Hp, Hpc.
    repeat split; assumption.
  - cbn [orb] in Hread. split.
    + intros Habsent.
      assert (Hnull : is_null (path snapshot ["prevDailyBar"; "c"]) = true)
        by (destruct Habsent; [now apply path_null_parent | assumption]).
      rewrite Hnull in Hread. cbn in Hread.
      split; [exact Hread | now apply process_symbol_skip].
    + intros Hpresent. rewrite Hpresent in Hread. cbn [negb] in Hread.
      destruct (emit_result_row (snapshot_values_of false snapshot) sym st)
        as (row & Hres & _ & Hp & _ & Hpc & _).
      exists (snapshot_values_of false snapshot), row.
      rewrite (process_symbol_emit _ _ _ _ _ Hread), Hp, Hpc.
      repeat split; assumption.
Qed.

Lemma reference_price_selection_witness :
  (forall conv : StringConv,
      snapshot_complete true
        (json_object_object_get_ex Examples.new_response "NEW") = true)
  /\ (forall conv : StringConv,
        50 <= json_object_get_int
                (path (json_object_object_get_ex Examples.new_response "NEW")
                      ["minuteBar"; "n"]))
  /\ (forall (conv : StringConv) (st : loop_state),
        process_symbol Examples.regular_tm Examples.new_response st "NEW" = st).
Proof.
  assert (Hcomplete : forall conv : StringConv,
             snapshot_complete true
               (json_object_object_get_ex Examples.new_response "NEW") = true)
    by (intros conv; reflexivity).
  assert (Hcount : forall conv : StringConv,
             50 <= json_object_get_int
                     (path (json_object_object_get_ex Examples.new_response "NEW")
                           ["minuteBar"; "n"]))
    by (intros conv; vm_compute; discriminate).
  split; [exact Hcomplete|]. split; [exact Hcount|].
  intros conv st.
  pose proof (reference_price_selection Examples.regular_tm Examples.new_response
                st "NEW" (Hcomplete conv) (Hcount conv)) as Hsel.
  change (is_premarket Examples.regular_tm) with false in Hsel. cbv iota in Hsel.
  destruct Hsel as [Hskip _]. apply Hskip. left. reflexivity.
Defined.

(** ** Derived metrics (C5) *)

(** C5: the row emitted for a symbol carries
    [percent = (price - reference) / reference * 100],
    [gradient_full = percent / 2] and
    [gradient_recent = (price - day_close) / day_close * 100], in binary64
    arithmetic; in pre-market with a day close of 100.0 and a price of 101.0
    the reference price is 100.0 and the three values are 1.0, 0.5 and 1.0. *)
Theorem derived_metrics `{StringConv} :
  (forall (est_time : tm) (json_response : json) (st : loop_state) (sym : string)
          (v : snapshot_values),
      read_snapshot est_time json_response sym = Some v ->
      exists row,
        results (process_symbol est_time json_response st sym)
        = (results st ++ [row])%list
        /\ price row = price_now v
        /\ day_close row = snapshot_day_close v
        /\ percent row
           = (((price row - reference_price v) / reference_price v) * 100)%float
        /\ gradient_full row = (percent row / 2)%float
        /\ gradient_recent row
           = (((price row - day_close row) / day_close row) * 100)%float)
  /\ (forall (est_time : tm) (json_response : json) (st : loop_state) (sym : string)
             (v : snapshot_values),
         read_snapshot est_time json_response sym = Some v ->
         is_premarket est_time = true ->
         snapshot_day_close v = 100%float ->
         price_now v = 101%float ->
         reference_price v = 100%float
         /\ exists row,
              results (process_symbol est_time json_response st sym)
              = (results st ++ [row])%list
              /\ percent row = 1%float
              /\ gradient_full row = 0.5%float
              /\ gradient_recent row = 1%float).
Proof.
  split.
  - intros est_time json_response st sym v Hread.
    destruct (emit_result_row v sym st)
      as (row & Hres & _ & Hp & Hc & Hpc & Hgf & Hgr & _).
    exists row. rewrite (process_symbol_emit _ _ _ _ _ Hread).
    rewrite Hgf, Hgr, Hpc, Hp, Hc. repeat split; assumption.
  - intros est_time json_response st sym v Hread Hpre Hclose Hprice.
    assert (Href : reference_price v = 100%float).
    { pose proof (read_snapshot_eq est_time json_response sym) as Heq.
      cbv zeta in Heq. rewrite Hread, Hpre in Heq.
      destruct (_ && _) in Heq; [|discriminate].
      injection Heq as ->. cbn in *. exact Hclose. }
    split; [exact Href|].
    destruct (emit_result_row v sym st)
      as (row & Hres & _ & _ & _ & Hpc & Hgf & Hgr & _).
    exists row. rewrite (process_symbol_emit _ _ _ _ _ Hread).
    rewrite Hgf, Hgr, Hpc.
    unfold gradient_full_of, gradient_recent_of, percent_of.
    rewrite Href, Hclose, Hprice.
    repeat split; [assumption | reflexivity ..].
Qed.

Lemma derived_metrics_witness :
  (forall conv : StringConv,
      read_snapshot Examples.premarket_tm Examples.new_response "NEW"
      = Some (mkSnapshotValues 75 101 100 4000 100))
  /\ (forall conv : StringConv,
        exists row,
          results (process_symbol Examples.premarket_tm Examples.new_response
                     (mkLoopState [] []) "NEW") = [row]
          /\ percent row = 1%float
          /\ gradient_full row = 0.5%float
          /\ gradient_recent row = 1%float).
Proof.
  assert (Hread : forall conv : StringConv,
             read_snapshot Examples.premarket_tm Examples.new_response "NEW"
             = Some (mkSnapshotValues 75 101 100 4000 100))
    by (intros conv; reflexivity).
  split; [exact Hread|]. intros conv.
  destruct (proj2 derived_metrics Examples.premarket_tm Examples.new_response
              (mkLoopState [] []) "NEW" _ (Hread conv))
    as [_ Hrow]; try reflexivity.
  exact Hrow.
Defined.

(** ** Low-liquidity filter (C6) *)

(** C6: when the snapshot gives a minute-bar trade count, a count below 50
    makes the iteration skip the symbol; when every other required member
    is present the symbol is skipped exactly when the count is below 50, and
    from 50 on a row with that trade count is emitted.  A count of 49 is
    skipped and a count of 50 is not. *)
Theorem low_liquidity_filter `{StringConv} :
  (forall (est_time : tm) (json_response : json) (st : loop_state) (sym : string),
      let snapshot := json_object_object_get_ex json_response sym in
      let count := json_object_get_int (path snapshot ["minuteBar"; "n"]) in
      is_null (path snapshot ["minuteBar"; "n"]) = false ->
      (count < 50 ->
       read_snapshot est_time json_response sym = None
       /\ process_symbol est_time json_response st sym = st)
      /\ (snapshot_complete (is_premarket est_time) snapshot = true ->
          (read_snapshot est_time json_response sym = None <-> count < 50)
          /\ (50 <= count ->
              exists row,
                results (process_symbol est_time json_response st sym)
                = (results st ++ [row])%list
                /\ trades row = count)))
  /\ (forall st : loop_state,
        process_symbol Examples.premarket_tm (Examples.response_with_count 49)
          st "NEW" = st)
  /\ (forall st : loop_state,
        exists row,
          results (process_symbol Examples.premarket_tm
                     (Examples.response_with_count 50) st "NEW")
          = (results st ++ [row])%list
          /\ trades row = 50).
Proof.
  split; [|split].
  - intros est_time json_response st sym snapshot count Hn.
    pose proof (read_snapshot_eq est_time json_response sym) as Hread.
    cbv zeta in Hread. fold snapshot in Hread. fold count in Hread.
    split.
    + intros Hlow. apply Z.leb_gt in Hlow.
      rewrite Hlow, andb_false_r in Hread.
      split; [exact Hread | now apply process_symbol_skip].
    + intros Hcomplete. rewrite Hcomplete in Hread. cbn [andb] in Hread.
      split.
      * destruct (Z.leb_spec 50 count) as [Hge | Hlt].
        -- split; [rewrite Hread; discriminate | lia].
        -- split; [intros _; exact Hlt | intros _; exact Hread].
      * intros Hge. apply Z.leb_le in Hge. rewrite Hge in Hread.
        destruct (emit_result_row (snapshot_values_of (is_premarket est_time) snapshot)
                    sym st) as (row & Hres & _ & _ & _ & _ & _ & _ & _ & Ht).
        exists row. rewrite (process_symbol_emit _ _ _ _ _ Hread).
        split; [exact Hres | exact Ht].
  - intros st. apply process_symbol_skip. reflexivity.
  - intros st.
    assert (Hread : read_snapshot Examples.premarket_tm
                      (Examples.response_with_count 50) "NEW"
                    = Some (mkSnapshotValues 50 101 100 4000 100)) by reflexivity.
    destruct (emit_result_row (mkSnapshotValues 50 101 100 4000 100) "NEW" st)
      as (row & Hres & _ & _ & _ & _ & _ & _ & _ & Ht).
    exists row. rewrite (process_symbol_emit _ _ _ _ _ Hread).
    split; [exact Hres | exact Ht].
Qed.

Lemma low_liquidity_filter_witness :
  (forall conv : StringConv,
      is_null (path (json_object_object_get_ex (Examples.response_with_count 49) "NEW")
                    ["minuteBar"; "n"]) = false)
  /\ (forall (conv : StringConv) (st : loop_state),
        read_snapshot Examples.regular_tm (Examples.response_with_count 49) "NEW"
        = None
        /\ process_symbol Examples.regular_tm (Examples.response_with_count 49)
             st "NEW" = st).
Proof.
  split; [intros conv; reflexivity|].
  intros conv st.
  assert (Hn : is_null (path (json_object_object_get_ex
                                (Examples.response_with_count 49) "NEW")
                             ["minuteBar"; "n"]) = false) by reflexivity.
  apply (proj1 (proj1 low_liquidity_filter Examples.regular_tm
                  (Examples.response_with_count 49) st "NEW" Hn)).
  vm_compute. reflexivity.
Defined.

(** ** Session clock (C8) *)

Lemma gmtime_wday_range (t : Z) : 0 <= tm_wday (gmtime t) <= 6.
Proof. unfold gmtime. cbn [tm_wday]. Z.div_mod_to_equations. lia. Qed.

Lemma civil_day_of_year (doe : Z) :
  0 <= doe < 146097 ->
  let yoe := (doe - doe / 1460 + doe / 36524 - doe / 146096) / 365 in
  0 <= doe - (365 * yoe + yoe / 4 - yoe / 100) <= 365.
Proof. intros Hdoe yoe. subst yoe. Z.div_mod_to_equations. lia. Qed.

Lemma civil_day_of_month (doy : Z) :
  0 <= doy <= 365 ->
  let mp := (5 * doy + 2) / 153 in
  1 <= doy - (153 * mp + 2) / 5 + 1 <= 31 /\ 0 <= mp <= 11.
Proof. intros Hdoy mp. subst mp. Z.div_mod_to_equations. lia. Qed.

Lemma gmtime_mday_range (t : Z) : 1 <= tm_mday (gmtime t) <= 31.
Proof.
  unfold gmtime. cbn [tm_mday].
  apply civil_day_of_month. apply civil_day_of_year.
  apply Z.mod_pos_bound. lia.
Qed.

Lemma gmtime_mon_range (t : Z) : 0 <= tm_mon (gmtime t) <= 11.
Proof.
  unfold gmtime. cbn [tm_mon].
  set (doe := (t / 86400 + 719468) mod 146097).
  assert (Hdoe : 0 <= doe < 146097) by (apply Z.mod_pos_bound; lia).
  pose proof (civil_day_of_year doe Hdoe) as Hdoy. cbv zeta in Hdoy.
  pose proof (civil_day_of_month _ Hdoy) as [_ Hmp]. cbv zeta in Hmp.
  destruct (Z.ltb_spec ((5 * (doe - (365 * ((doe - doe / 1460 + doe / 36524
             - doe / 146096) / 365) + (doe - doe / 1460 + doe / 36524
             - doe / 146096) / 365 / 4 - (doe - doe / 1460 + doe / 36524
             - doe / 146096) / 365 / 100)) + 2) / 153) 10); lia.
Qed.

(** The weekday [gmtime] reports moves on by one with every day, which is
    what [weekday_of] reads off a broken-down date. *)
Lemma gmtime_wday_shift (t k : Z) :
  tm_wday (gmtime (t + k * 86400)) = (tm_wday (gmtime t) + k) mod 7.
Proof.
  unfold gmtime. cbn [tm_wday].
  rewrite Z.div_add by lia. rewrite Zplus_mod_idemp_l. f_equal. lia.
Qed.

Lemma is_dst_spec (t : tm) :
  0 <= tm_wday t <= 6 -> 1 <= tm_mday t <= 31 ->
  is_dst t = true <-> daylight_saving t.
Proof.
  intros Hw Hd. unfold is_dst, daylight_saving, nth_sunday, weekday_of, CInt.rem.
  rewrite (Z.rem_mod_nonneg (tm_mday t) 7) by lia.
  rewrite (Z.rem_mod_nonneg (tm_wday t + 7 - tm_mday t mod 7) 7)
    by (pose proof (Z.mod_pos_bound (tm_mday t) 7); lia).
  set (x := (tm_wday t + 7 - tm_mday t mod 7) mod 7).
  assert (Hx : 0 <= x <= 6 /\ (tm_wday t - tm_mday t - x) mod 7 = 0)
    by (subst x; Z.div_mod_to_equations; lia).
  destruct Hx as [Hx Hx7].
  destruct (Z.ltb_spec 2 (tm_mon t)); destruct (Z.ltb_spec (tm_mon t) 10);
    cbn [andb].
  - split; [intros _; left; lia | reflexivity].
  - destruct (Z.eqb_spec (tm_mon t) 2); [lia|].
    destruct (Z.eqb_spec (tm_mon t) 10) as [Hnov | Hother].
    + rewrite Z.ltb_lt. split.
      * intros Hlt. right. right. split; [exact Hnov|].
        exists (7 - x). repeat split; try lia.
        revert Hx7. Z.div_mod_to_equations. lia.
      * intros [Hmid | [[Hmar _] | [_ (d & [Hrange Hsun] & Hlt)]]]; try lia.
        revert Hx7 Hsun. Z.div_mod_to_equations. lia.
    + split; [discriminate | intros [? | [[? _] | [? _]]]; lia].
  - destruct (Z.eqb_spec (tm_mon t) 2) as [Hmar | Hother].
    + rewrite Z.leb_le. split.
      * intros Hle. right. left. split; [exact Hmar|].
        exists (14 - x). repeat split; try lia.
        revert Hx7. Z.div_mod_to_equations. lia.
      * intros [Hmid | [[_ (d & [Hrange Hsun] & Hle)] | [Hnov _]]]; try lia.
        revert Hx7 Hsun. Z.div_mod_to_equations. lia.
    + destruct (Z.eqb_spec (tm_mon t) 10); [lia|].
      split; [discriminate | intros [? | [[? _] | [? _]]]; lia].
  - lia.
Qed.

Lemma is_premarket_gmtime (t : Z) :
  is_premarket (gmtime t) = true
  <-> 4 * 3600 <= seconds_of_day t < 9 * 3600 + 30 * 60.
Proof.
  unfold is_premarket, gmtime, seconds_of_day. cbn [tm_hour tm_min].
  rewrite orb_true_iff, !andb_true_iff, !Z.leb_le, !Z.ltb_lt, Z.eqb_eq.
  Z.div_mod_to_equations. lia.
Qed.

(** C8: for every instant, with the UTC date taken from [gmtime], the clock
    decides for daylight saving exactly from the second Sunday of March up
    to, and not including, the first Sunday of November; Eastern time is the
    instant less four hours under daylight saving and less five hours
    otherwise; and [is_premarket] holds of the Eastern wall clock exactly
    from 04:00 up to, and not including, 09:30. *)
Theorem session_clock (gmt : Z) :
  (is_dst (gmtime gmt) = true <-> daylight_saving (gmtime gmt))
  /\ eastern_time gmt = gmt - (if is_dst (gmtime gmt) then 4 else 5) * 3600
  /\ timezone_abbr (gmtime gmt) = (if is_dst (gmtime gmt) then "EDT" else "EST")
  /\ (is_premarket (gmtime (eastern_time gmt)) = true
      <-> 4 * 3600 <= seconds_of_day (eastern_time gmt) < 9 * 3600 + 30 * 60).
Proof.
  split; [apply is_dst_spec; [apply gmtime_wday_range | apply gmtime_mday_range]|].
  split; [unfold eastern_time; destruct (is_dst (gmtime gmt)); reflexivity|].
  split; [reflexivity | apply is_premarket_gmtime].
Qed.

(** The clock around the two changes of 2024 (10 March, 3 November). *)
Example session_clock_2024 :
  is_dst (gmtime 1710028799) = false      (* 2024-03-09 23:59:59 UTC *)
  /\ is_dst (gmtime 1710028800) = true    (* 2024-03-10 00:00:00 UTC *)
  /\ is_dst (gmtime 1730591999) = true    (* 2024-11-02 23:59:59 UTC *)
  /\ is_dst (gmtime 1730592000) = false   (* 2024-11-03 00:00:00 UTC *)
  /\ is_premarket (gmtime (eastern_time 1710160200)) = true   (* 08:30 EDT *)
  /\ is_premarket (gmtime (eastern_time 1710163800)) = false. (* 09:30 EDT *)
Proof. repeat split. Qed.

(** ** Ranking (C3) *)

Lemma insert_behind_perm {A : Type} (compar : A -> A -> Z) (x : A) (l : list A) :
  Permutation (x :: l) (insert_behind compar x l).
Proof.
  induction l as [|y l IH]; cbn; [apply Permutation_refl|].
  destruct (compar x y <? 0); [apply Permutation_refl|].
  eapply perm_trans; [apply perm_swap | apply perm_skip, IH].
Qed.

Lemma insertion_qsort_perm {A : Type} (compar : A -> A -> Z) (l : list A) :
  Permutation l (insertion_qsort l compar).
Proof.
  induction l as [|x l IH]; cbn; [constructor|].
  eapply perm_trans; [apply perm_skip, IH | apply insert_behind_perm].
Qed.

Lemma consistent_incl {A : Type} (compar : A -> A -> Z) (l l' : list A) :
  incl l' l -> consistent compar l -> consistent compar l'.
Proof.
  intros Hincl [Hsgn Htrans]. split.
  - intros a b Ha Hb. apply Hsgn; now apply Hincl.
  - intros a b c Ha Hb Hc. apply Htrans; now apply Hincl.
Qed.

Lemma insert_behind_sorted {A : Type} (compar : A -> A -> Z) (x : A) (l : list A) :
  consistent compar (x :: l) ->
  StronglySorted (fun a b => compar a b <= 0) l ->
  StronglySorted (fun a b => compar a b <= 0) (insert_behind compar x l).
Proof.
  intros Hcons Hsorted. induction Hsorted as [|y l Hsorted IH Hall]; cbn.
  - constructor; constructor.
  - destruct Hcons as [Hsgn Htrans].
    destruct (Z.ltb_spec (compar x y) 0) as [Hlt | Hge].
    + constructor; [constructor; assumption|].
      constructor; [lia|].
      rewrite Forall_forall in Hall |- *. intros z Hz.
      apply (Htrans x y z);
        [now left | right; now left | right; now right | lia | now apply Hall].
    + constructor.
      * apply IH. eapply consistent_incl; [|split; eassumption].
        intros z [<- | Hz]; cbn; auto.
      * assert (Hyx : compar y x <= 0).
        { pose proof (Hsgn x y (or_introl eq_refl) (or_intror (or_introl eq_refl))).
          lia. }
        rewrite Forall_forall in Hall |- *. intros z Hz.
        apply (Permutation_in _ (Permutation_sym (insert_behind_perm compar x l)))
          in Hz.
        destruct Hz as [<- | Hz]; [exact Hyx | now apply Hall].
Qed.

Lemma insertion_qsort_contract {A : Type} : qsort_contract (@insertion_qsort A).
Proof.
  intros l compar. split; [apply insertion_qsort_perm|].
  induction l as [|x l IH]; intros Hcons; cbn; [constructor|].
  apply insert_behind_sorted.
  - eapply consistent_incl; [|exact Hcons].
    intros z [<- | Hz]; [now left|].
    right. apply (Permutation_in _ (Permutation_sym (insertion_qsort_perm compar l))).
    exact Hz.
  - apply IH. eapply consistent_incl; [|exact Hcons]. intros z Hz. now right.
Qed.

Lemma cmp_stocks_by_trades_exact (a b : StockResult) :
  0 <= trades a <= CInt.INT_MAX -> 0 <= trades b <= CInt.INT_MAX ->
  cmp_stocks_by_trades a b = trades b - trades a.
Proof.
  intros Ha Hb. unfold cmp_stocks_by_trades. apply sub_exact.
  unfold CInt.in_range, CInt.INT_MIN, CInt.INT_MAX in *. lia.
Qed.

Lemma cmp_stocks_by_trades_consistent (rows : list StockResult) :
  Forall (fun r => 0 <= trades r <= CInt.INT_MAX) rows ->
  consistent cmp_stocks_by_trades rows.
Proof.
  rewrite Forall_forall. intros Hall. split.
  - intros a b Ha Hb. rewrite !cmp_stocks_by_trades_exact by auto. lia.
  - intros a b c Ha Hb Hc. rewrite !cmp_stocks_by_trades_exact by auto. lia.
Qed.

Lemma StronglySorted_weaken {A : Type} (R R' : A -> A -> Prop) (l : list A) :
  (forall a b, In a l -> In b l -> R a b -> R' a b) ->
  StronglySorted R l -> StronglySorted R' l.
Proof.
  intros Himp Hsorted. induction Hsorted as [|x l Hsorted IH Hall].
  - constructor.
  - constructor.
    + apply IH. intros a b Ha Hb. apply Himp; now right.
    + rewrite Forall_forall in Hall |- *. intros y Hy.
      apply Himp; [now left | now right | now apply Hall].
Qed.

Lemma StronglySorted_map {A B : Type} (f : A -> B) (R : B -> B -> Prop)
  (l : list A) :
  StronglySorted (fun a b => R (f a) (f b)) l -> StronglySorted R (map f l).
Proof.
  induction 1 as [|x l Hsorted IH Hall]; cbn; constructor; [exact IH|].
  rewrite Forall_forall in Hall |- *. intros y Hy.
  apply in_map_iff in Hy as (z & <- & Hz). now apply Hall.
Qed.

(** A descending arrangement of given numbers is unique. *)
Lemma descending_unique (l1 l2 : list Z) :
  StronglySorted (fun a b => b <= a) l1 ->
  StronglySorted (fun a b => b <= a) l2 ->
  Permutation l1 l2 -> l1 = l2.
Proof.
  intros Hs1. revert l2. induction Hs1 as [|x l1 Hs1 IH Hall1]; intros l2 Hs2 Hperm.
  - now apply Permutation_nil in Hperm.
  - destruct Hs2 as [|y l2 Hs2 Hall2].
    + apply Permutation_sym, Permutation_nil in Hperm. discriminate.
    + rewrite Forall_forall in Hall1, Hall2.
      assert (Hxy : x = y).
      { assert (Hx : In x (y :: l2)) by (apply (Permutation_in _ Hperm); now left).
        assert (Hy : In y (x :: l1))
          by (apply (Permutation_in _ (Permutation_sym Hperm)); now left).
        destruct Hx as [-> | Hx]; [reflexivity|].
        destruct Hy as [-> | Hy]; [reflexivity|].
        apply Hall2 in Hx. apply Hall1 in Hy. lia. }
      subst y. f_equal. apply IH; [exact Hs2|].
      now apply Permutation_cons_inv in Hperm.
Qed.

Lemma sorted_four (r0 r1 r2 r3 : StockResult) (out : list StockResult) :
  trades r0 = 10 -> trades r1 = 50 -> trades r2 = 50 -> trades r3 = 5 ->
  Permutation [r0; r1; r2; r3] out ->
  StronglySorted (fun a b => trades b <= trades a) out ->
  out = [r1; r2; r0; r3] \/ out = [r2; r1; r0; r3].
Proof.
  intros H0 H1 H2 H3 Hperm Hsorted.
  assert (Htrades : map trades out = [50; 50; 10; 5]).
  { apply descending_unique.
    - now apply StronglySorted_map.
    - repeat constructor; lia.
    - apply Permutation_sym.
      eapply perm_trans; [|apply (Permutation_map trades Hperm)].
      cbn. rewrite H0, H1, H2, H3.
      eapply perm_trans; [apply perm_skip, perm_swap|].
      eapply perm_trans; [apply perm_swap|]. apply Permutation_refl. }
  destruct out as [|a [|b [|c [|d [|e out]]]]]; try discriminate Htrades.
  injection Htrades as Ha Hb Hc Hd.
  assert (Hin : forall x, In x [a; b; c; d] -> In x [r0; r1; r2; r3])
    by (intros x; apply Permutation_in, Permutation_sym, Hperm).
  assert (Hc0 : c = r0).
  { destruct (Hin c) as [E | [E | [E | [E | []]]]]; cbn; auto;
      rewrite <- E in Hc; lia. }
  assert (Hd3 : d = r3).
  { destruct (Hin d) as [E | [E | [E | [E | []]]]]; cbn; auto;
      rewrite <- E in Hd; lia. }
  assert (Ha12 : a = r1 \/ a = r2).
  { destruct (Hin a) as [E | [E | [E | [E | []]]]]; cbn; auto;
      rewrite <- E in Ha; lia. }
  assert (Hb12 : b = r1 \/ b = r2).
  { destruct (Hin b) as [E | [E | [E | [E | []]]]]; cbn; auto;
      rewrite <- E in Hb; lia. }
  assert (Hr1 : In r1 [a; b; c; d]) by (apply (Permutation_in _ Hperm); cbn; auto).
  assert (Hr2 : In r2 [a; b; c; d]) by (apply (Permutation_in _ Hperm); cbn; auto).
  subst c d.
  assert (H01 : r0 <> r1) by (intros E; rewrite E in H0; lia).
  assert (H02 : r0 <> r2) by (intros E; rewrite E in H0; lia).
  assert (H31 : r3 <> r1) by (intros E; rewrite E in H3; lia).
  assert (H32 : r3 <> r2) by (intros E; rewrite E in H3; lia).
  destruct Ha12 as [-> | ->], Hb12 as [-> | ->]; auto.
  - left. destruct Hr2 as [E | [E | [E | [E | []]]]]; congruence.
  - right. destruct Hr1 as [E | [E | [E | [E | []]]]]; congruence.
Qed.

(** C3 (as amended): with any [qsort] that keeps the ISO C contract, ranking
    rows whose trade counts are non-negative [int]s rearranges them into
    non-increasing order of [trades]; rows with equal counts come out in an
    order the contract leaves open.  For input counts 10, 50, 50, 5 the
    result is the two 50-trade rows, in one order or the other, then the
    10-trade row, then the 5-trade row. *)
Theorem ranking_descending
  (qsort : list StockResult -> (StockResult -> StockResult -> Z) -> list StockResult)
  (rows : list StockResult) :
  qsort_contract qsort ->
  Forall (fun r => 0 <= trades r <= CInt.INT_MAX) rows ->
  Permutation rows (rank qsort rows)
  /\ StronglySorted (fun a b => trades b <= trades a) (rank qsort rows)
  /\ (forall r0 r1 r2 r3,
         rows = [r0; r1; r2; r3] ->
         trades r0 = 10 -> trades r1 = 50 -> trades r2 = 50 -> trades r3 = 5 ->
         rank qsort rows = [r1; r2; r0; r3] \/ rank qsort rows = [r2; r1; r0; r3]).
Proof.
  intros Hqsort Hrange. unfold rank.
  destruct (Hqsort rows cmp_stocks_by_trades) as [Hperm Hsorted].
  specialize (Hsorted (cmp_stocks_by_trades_consistent rows Hrange)).
  assert (Hdesc : StronglySorted (fun a b => trades b <= trades a)
                    (qsort rows cmp_stocks_by_trades)).
  { eapply StronglySorted_weaken; [|exact Hsorted].
    rewrite Forall_forall in Hrange. intros a b Ha Hb.
    apply (Permutation_in _ (Permutation_sym Hperm)) in Ha, Hb.
    rewrite cmp_stocks_by_trades_exact by auto. lia. }
  split; [exact Hperm|]. split; [exact Hdesc|].
  intros r0 r1 r2 r3 Hrows H0 H1 H2 H3. subst rows.
  now apply (sorted_four r0 r1 r2 r3).
Qed.

Lemma four_rows_in_range :
  Forall (fun r => 0 <= trades r <= CInt.INT_MAX) Examples.four_rows.
Proof. repeat constructor; cbn; unfold CInt.INT_MAX; lia. Qed.

Lemma ranking_descending_witness :
  qsort_contract (@insertion_qsort StockResult)
  /\ Forall (fun r => 0 <= trades r <= CInt.INT_MAX) Examples.four_rows
  /\ StronglySorted (fun a b => trades b <= trades a)
       (rank insertion_qsort Examples.four_rows).
Proof.
  split; [exact insertion_qsort_contract|]. split; [exact four_rows_in_range|].
  exact (proj1 (proj2 (ranking_descending insertion_qsort Examples.four_rows
                         insertion_qsort_contract four_rows_in_range))).
Defined.

(** A [qsort] within the contract that returns the two 50-trade rows in the
    order opposite to their input order. *)
Lemma ranking_not_stable :
  qsort_contract (@insertion_qsort StockResult)
  /\ map symbol Examples.four_rows = ["IDX0"; "IDX1"; "IDX2"; "IDX3"]
  /\ map trades Examples.four_rows = [10; 50; 50; 5]
  /\ map symbol (rank insertion_qsort Examples.four_rows)
     = ["IDX2"; "IDX1"; "IDX0"; "IDX3"].
Proof.
  split; [exact insertion_qsort_contract|]. repeat split.
Qed.

(** ** Cache file round trip (C7) *)

Section RoundTrip.

Context {conv : StringConv}.

Lemma decode_cache_item (e : StockCache) :
  cache_entry_ok e ->
  mkStockCache (copy_symbol (cache_symbol e))
    (json_object_get_double (json_object_object_get_ex (cache_item e) "gradient_recent"))
    (json_object_get_int (json_object_object_get_ex (cache_item e) "volume"))
    (json_object_get_int (json_object_object_get_ex (cache_item e) "trades"))
  = e.
Proof.
  intros (Hlen & Hvol & Htrd). rewrite copy_symbol_short by exact Hlen.
  cbn. rewrite !clamp_id by assumption. now destruct e.
Qed.

Lemma init_cache_entries_fields (d acc : list StockCache) :
  Forall cache_entry_ok d ->
  g_cache_count acc + Z.of_nat (List.length d) <= MAX_SYMBOLS ->
  init_cache_entries (map cache_field d) acc = (acc ++ d)%list.
Proof.
  revert acc. induction d as [|e d IH]; intros acc Hok Hroom; cbn [map].
  - cbn. now rewrite app_nil_r.
  - apply Forall_cons_iff in Hok as [He Hok].
    cbn [init_cache_entries cache_field].
    assert (Hlt : (g_cache_count acc <? MAX_SYMBOLS) = true)
      by (apply Z.ltb_lt; cbn [List.length] in Hroom; lia).
    rewrite Hlt, (decode_cache_item e He). cbn [cache_item
      json_object_object_get_ex lh_table_lookup String.eqb Ascii.eqb Bool.eqb
      is_null negb andb].
    rewrite IH; [now rewrite <- app_assoc | exact Hok|].
    unfold g_cache_count in *. rewrite length_app. cbn [List.length] in *. lia.
Qed.

Lemma lh_table_insert_field (d : list StockCache) (e : StockCache) :
  lh_table_insert (map cache_field d) (cache_symbol e) (cache_item e)
  = map cache_field (upsert d e).
Proof.
  induction d as [|x d IH]; cbn; [reflexivity|].
  destruct (String.eqb_spec (cache_symbol x) (cache_symbol e)) as [Heq | Hne]; cbn.
  - unfold cache_field at 2. now rewrite Heq.
  - now rewrite IH.
Qed.

Lemma save_cache_document_upserts (c d : list StockCache) :
  fold_left
    (fun doc e => json_object_object_add doc (cache_symbol e) (cache_item e))
    c (JObject (map cache_field d))
  = JObject (map cache_field (fold_left upsert c d)).
Proof.
  revert d. induction c as [|e c IH]; intros d; cbn; [reflexivity|].
  rewrite lh_table_insert_field. apply IH.
Qed.

Lemma upsert_fresh (d : list StockCache) (e : StockCache) :
  ~ In (cache_symbol e) (map cache_symbol d) -> upsert d e = (d ++ [e])%list.
Proof.
  induction d as [|x d IH]; cbn; [reflexivity|]. intros Hfresh.
  destruct (String.eqb_spec (cache_symbol x) (cache_symbol e)) as [Heq | Hne].
  - exfalso. apply Hfresh. now left.
  - f_equal. apply IH. intros Hin. apply Hfresh. now right.
Qed.

Lemma fold_upsert_nodup (c d : list StockCache) :
  NoDup (map cache_symbol (d ++ c)) -> fold_left upsert c d = (d ++ c)%list.
Proof.
  revert d. induction c as [|e c IH]; intros d Hnodup; cbn.
  - now rewrite app_nil_r.
  - assert (Hre : (d ++ e :: c = (d ++ [e]) ++ c)%list)
      by (now rewrite <- app_assoc).
    rewrite upsert_fresh.
    + rewrite IH; [now rewrite <- app_assoc | now rewrite <- Hre].
    + rewrite map_app in Hnodup. cbn in Hnodup.
      apply NoDup_remove_2 in Hnodup. intros Hin. apply Hnodup.
      apply in_or_app. now left.
Qed.

Lemma upsert_symbols (d : list StockCache) (e : StockCache) :
  map cache_symbol (upsert d e)
  = if existsb (fun x => String.eqb (cache_symbol x) (cache_symbol e)) d
    then map cache_symbol d
    else (map cache_symbol d ++ [cache_symbol e])%list.
Proof.
  induction d as [|x d IH]; cbn; [reflexivity|].
  destruct (String.eqb_spec (cache_symbol x) (cache_symbol e)) as [Heq | Hne]; cbn.
  - now rewrite Heq.
  - rewrite IH. now destruct (existsb _ d).
Qed.

Lemma upsert_nodup (d : list StockCache) (e : StockCache) :
  NoDup (map cache_symbol d) -> NoDup (map cache_symbol (upsert d e)).
Proof.
  intros Hnodup. rewrite upsert_symbols.
  destruct (existsb _ d) eqn:Hex; [exact Hnodup|].
  apply NoDup_app; [exact Hnodup | repeat constructor; intros [] |].
  intros k Hk [<- | []].
  apply in_map_iff in Hk as (x & Hx & Hin).
  assert (Hsome : existsb (fun x => String.eqb (cache_symbol x) (cache_symbol e)) d
                  = true)
    by (apply existsb_exists; exists x; split; [exact Hin | now apply String.eqb_eq]).
  congruence.
Qed.

Lemma upsert_forall (P : StockCache -> Prop) (d : list StockCache) (e : StockCache) :
  Forall P d -> P e -> Forall P (upsert d e).
Proof.
  intros Hd He. induction Hd as [|x d Hx Hd IH]; cbn; [now repeat constructor|].
  destruct (String.eqb (cache_symbol x) (cache_symbol e)); constructor; assumption.
Qed.

Lemma upsert_length (d : list StockCache) (e : StockCache) :
  (List.length (upsert d e) <= S (List.length d))%nat.
Proof.
  induction d as [|x d IH]; cbn; [lia|].
  destruct (String.eqb (cache_symbol x) (cache_symbol e)); cbn; lia.
Qed.

Lemma fold_upsert_invariant (c d : list StockCache) :
  NoDup (map cache_symbol d) -> Forall cache_entry_ok d -> Forall cache_entry_ok c ->
  NoDup (map cache_symbol (fold_left upsert c d))
  /\ Forall cache_entry_ok (fold_left upsert c d)
  /\ (List.length (fold_left upsert c d) <= List.length d + List.length c)%nat.
Proof.
  revert d. induction c as [|e c IH]; intros d Hnodup Hd Hc; cbn.
  - repeat split; [assumption | assumption | lia].
  - apply Forall_cons_iff in Hc as [He Hc].
    destruct (IH (upsert d e)) as (H1 & H2 & H3);
      [now apply upsert_nodup | now apply upsert_forall | exact Hc|].
    repeat split; [exact H1 | exact H2|].
    pose proof (upsert_length d e). lia.
Qed.

Lemma save_cache_document_eq (c : list StockCache) :
  save_cache_document c = JObject (map cache_field (fold_left upsert c [])).
Proof. apply (save_cache_document_upserts c []). Qed.

Lemma load_saved_document (c : list StockCache) :
  g_cache_count c <= MAX_SYMBOLS ->
  Forall cache_entry_ok c ->
  init_cache_from_file (Some (save_cache_document c)) []
  = Some (fold_left upsert c []).
Proof.
  intros Hcount Hok.
  destruct (fold_upsert_invariant c [] (NoDup_nil _) (Forall_nil _) Hok)
    as (_ & Hok' & Hlen).
  rewrite save_cache_document_eq. cbn [init_cache_from_file]. f_equal.
  rewrite init_cache_entries_fields; [reflexivity | exact Hok'|].
  unfold g_cache_count in *. cbn [List.length] in *. lia.
Qed.

Lemma load_saved_nodup (c : list StockCache) :
  g_cache_count c <= MAX_SYMBOLS ->
  Forall cache_entry_ok c ->
  NoDup (map cache_symbol c) ->
  init_cache_from_file (Some (save_cache_document c)) [] = Some c.
Proof.
  intros Hcount Hok Hnodup. rewrite (load_saved_document c Hcount Hok).
  f_equal. now apply (fold_upsert_nodup c []).
Qed.

(** C7: the file [save_cache_to_file] writes for a cache, read back by
    [init_cache_from_file] into the empty start-up cache, gives a cache
    that saves to the same file contents; when no symbol occurs twice it is
    the very cache that was saved, entry by entry.  (The file is taken at
    the level of the JSON document: its text is produced and read by
    json-c.) *)
Theorem save_load_round_trip (c : list StockCache) (w : world) :
  g_cache_count c <= MAX_SYMBOLS ->
  Forall cache_entry_ok c ->
  let saved := save_cache_to_file c true w in
  (NoDup (map cache_symbol c) ->
   init_cache_from_file (previous_results_json saved) [] = Some c)
  /\ exists c',
      init_cache_from_file (previous_results_json saved) [] = Some c'
      /\ previous_results_json (save_cache_to_file c' true saved)
         = previous_results_json saved.
Proof.
  intros Hcount Hok saved. subst saved. cbn [save_cache_to_file previous_results_json].
  destruct (fold_upsert_invariant c [] (NoDup_nil _) (Forall_nil _) Hok)
    as (Hnodup & _ & _).
  pose proof (load_saved_document c Hcount Hok) as Hload.
  split.
  - now apply load_saved_nodup.
  - exists (fold_left upsert c []). split; [exact Hload|].
    rewrite (save_cache_document_eq (fold_left upsert c [])).
    rewrite (save_cache_document_eq c). do 3 f_equal.
    apply (fold_upsert_nodup _ []). exact Hnodup.
Qed.

End RoundTrip.

(** ** A full table (C1, continued) *)

Lemma update_cache_full (c : list StockCache) sym g v t :
  cache_has c sym = false -> g_cache_count c = MAX_SYMBOLS ->
  update_cache c sym g v t = c.
Proof.
  intros Hmiss Hfull. unfold update_cache.
  rewrite update_cache_hit_none by exact Hmiss.
  rewrite Hfull. reflexivity.
Qed.

Lemma full_cache_count : g_cache_count Examples.full_cache = MAX_SYMBOLS.
Proof.
  unfold g_cache_count, Examples.full_cache.
  rewrite length_map, length_seq. apply Z2Nat.id. discriminate.
Qed.

Lemma full_cache_has_no_NEW : cache_has Examples.full_cache "NEW" = false.
Proof.
  unfold Examples.full_cache.
  induction (seq 0 (Z.to_nat MAX_SYMBOLS)) as [|k l IH]; [reflexivity|].
  cbn [map cache_has existsb cache_symbol]. exact IH.
Qed.

Lemma process_symbol_full_cache `{StringConv} est_time json_response c rows sym v :
  read_snapshot est_time json_response sym = Some v ->
  cache_has c sym = false -> g_cache_count c = MAX_SYMBOLS ->
  let st' := process_symbol est_time json_response (mkLoopState c rows) sym in
  g_cache st' = c /\ get_cached_values (g_cache st') sym = (0%float, 0, 0).
Proof.
  intros Hread Hmiss Hfull st'. subst st'.
  rewrite (process_symbol_emit _ _ _ _ _ Hread). unfold emit_result.
  destruct (get_cached_values _ sym) as [[pg pv] pt].
  cbn [g_cache]. rewrite update_cache_full by assumption.
  split; [reflexivity | now apply get_cached_values_miss].
Qed.

Lemma letter_inj (a b : Z) :
  Examples.letter a = Examples.letter b -> a mod 26 = b mod 26.
Proof.
  unfold Examples.letter. intros Heq. apply (f_equal nat_of_ascii) in Heq.
  pose proof (Z.mod_pos_bound a 26 eq_refl) as Ha.
  pose proof (Z.mod_pos_bound b 26 eq_refl) as Hb.
  rewrite !nat_ascii_embedding in Heq by lia. lia.
Qed.

Lemma full_cache_nodup : NoDup (map cache_symbol Examples.full_cache).
Proof.
  unfold Examples.full_cache. rewrite map_map. cbn [cache_symbol].
  apply NoDup_map_NoDup_ForallPairs; [|apply seq_NoDup].
  intros x y Hx Hy Heq. apply in_seq in Hx, Hy.
  unfold Examples.counter_symbol in Heq. injection Heq as H1 H2 H3.
  apply letter_inj in H1, H2, H3.
  unfold MAX_SYMBOLS in Hx, Hy.
  assert (Hz : Z.of_nat x = Z.of_nat y)
    by (revert H1 H2 H3; Z.div_mod_to_equations; lia).
  lia.
Qed.

Lemma full_cache_ok : Forall cache_entry_ok Examples.full_cache.
Proof.
  unfold Examples.full_cache. apply Forall_map, Forall_forall. intros k _.
  repeat split; cbn; unfold CInt.INT_MIN, CInt.INT_MAX; lia.
Qed.

(** The table is full of other symbols, as loaded from the cache file a
    run over another universe has written: the computation for ["NEW"]
    succeeds and its row is emitted, yet no entry is written, and a later
    lookup of ["NEW"] still gives the zero baseline rather than
    [(1.0, 4000, 75)]. *)
Lemma full_cache_drops_update :
  g_cache_count Examples.full_cache = MAX_SYMBOLS
  /\ NoDup (map cache_symbol Examples.full_cache)
  /\ (forall conv : StringConv,
        init_cache_from_file (Some (save_cache_document Examples.full_cache)) []
        = Some Examples.full_cache
        /\ let st := mkLoopState Examples.full_cache [] in
           let st' := process_symbol Examples.premarket_tm Examples.new_response
                        st "NEW" in
           (exists row, results st' = [row] /\ gradient_recent row = 1%float
                        /\ volume row = 4000 /\ trades row = 75)
           /\ g_cache st' = Examples.full_cache
           /\ get_cached_values (g_cache st') "NEW" = (0%float, 0, 0)).
Proof.
  split; [exact full_cache_count|]. split; [exact full_cache_nodup|].
  intros conv. split.
  { apply (load_saved_nodup Examples.full_cache);
      [rewrite full_cache_count; reflexivity | exact full_cache_ok
       | exact full_cache_nodup]. }
  assert (Hread : read_snapshot Examples.premarket_tm Examples.new_response "NEW"
                  = Some (mkSnapshotValues 75 101 100 4000 100)) by reflexivity.
  generalize full_cache_has_no_NEW full_cache_count.
  generalize Examples.full_cache as c. intros c Hmiss Hfull st st'.
  split; [|exact (process_symbol_full_cache _ _ c [] "NEW" _ Hread Hmiss Hfull)].
  destruct (emit_result_row (mkSnapshotValues 75 101 100 4000 100) "NEW" st)
    as (row & Hres & _ & _ & _ & _ & _ & Hg & Hv & Ht).
  exists row. subst st'. rewrite (process_symbol_emit _ _ _ _ _ Hread).
  repeat split; assumption.
Qed.

(** ** The run (C4, C10) *)

Section Run.

Context {conv : StringConv}.
Variable qsort :
  list StockResult -> (StockResult -> StockResult -> Z) -> list StockResult.

Lemma main_at_transfer (i : run_input) (w : world) (universe : list string)
  (cache : list StockCache) :
  reaches_transfer i w universe cache ->
  main qsort i w
  = match transfer i with
    | None => Exit 1 w
    | Some json_response =>
        if is_null json_response then Exit 1 w
        else
          let st := process_universe (gmtime (eastern_time (now i))) json_response
                      universe (mkLoopState cache []) in
          if 0 <? Z.of_nat (List.length (results st))
          then Exit 0 (publish qsort i st w)
          else Exit 0 w
    end.
Proof.
  intros (key & secret & first & others & Hkey & Hsecret & Hlist & Huniv & Hcache
          & Hcurl & Hfits).
  unfold main. rewrite Hkey, Hsecret, Hlist, Hcache, Hcurl, <- Huniv, Hfits.
  reflexivity.
Qed.

(** Whatever the run is given, an unparseable payload leaves the files as
    they were. *)
Lemma parse_failure_keeps_world (i : run_input) (w : world) :
  transfer i = Some JNull ->
  match main qsort i w with
  | Exit _ w' | Killed w' => w' = w
  | Undefined => True
  end.
Proof.
  intros Hnull. unfold main. rewrite Hnull.
  destruct (api_key_id i), (secret_key_id i); try reflexivity.
  destruct (symbol_list i) as [[|first others]|]; try reflexivity.
  destruct (init_cache_from_file _ _); [|reflexivity].
  destruct (curl i); [|reflexivity].
  destruct (request_fits _ _ _); reflexivity.
Qed.

(** C4: when the transfer succeeds and the tokener rejects the payload as a
    whole, the run exits with status 1 and the files are the files it
    started with: no report is written or delivered, and the cache file
    keeps its contents, whether or not it could have been opened. *)
Theorem parse_failure_aborts (i : run_input) (w : world) (universe : list string)
  (cache : list StockCache) :
  reaches_transfer i w universe cache ->
  transfer i = Some JNull ->
  main qsort i w = Exit 1 w.
Proof.
  intros Hreach Hnull. rewrite (main_at_transfer i w universe cache Hreach), Hnull.
  reflexivity.
Qed.

(** C10: when the loop ends with no row, the run writes neither the report
    nor the cache file and exits with status 0. *)
Theorem no_results_no_writes (i : run_input) (w : world) (universe : list string)
  (cache : list StockCache) (json_response : json) :
  reaches_transfer i w universe cache ->
  transfer i = Some json_response ->
  is_null json_response = false ->
  results (process_universe (gmtime (eastern_time (now i))) json_response universe
             (mkLoopState cache [])) = [] ->
  main qsort i w = Exit 0 w.
Proof.
  intros Hreach Hfetch Hparsed Hnone.
  rewrite (main_at_transfer i w universe cache Hreach), Hfetch, Hparsed.
  cbv zeta. rewrite Hnone. reflexivity.
Qed.

(** With at least one row the cache file is rewritten whenever it opens. *)
Lemma some_results_save_cache (i : run_input) (w : world) (universe : list string)
  (cache : list StockCache) (json_response : json) :
  reaches_transfer i w universe cache ->
  transfer i = Some json_response ->
  is_null json_response = false ->
  let st := process_universe (gmtime (eastern_time (now i))) json_response universe
              (mkLoopState cache []) in
  results st <> [] ->
  cache_file_opens i = true ->
  exists w', main qsort i w = Exit 0 w'
             /\ previous_results_json w' = Some (save_cache_document (g_cache st)).
Proof.
  intros Hreach Hfetch Hparsed st Hsome Hopens.
  rewrite (main_at_transfer i w universe cache Hreach), Hfetch, Hparsed.
  cbv zeta. fold st.
  destruct (results st) as [|r rs] eqn:Hres; [congruence|].
  assert (Hpos : (0 <? Z.of_nat (List.length (r :: rs))) = true)
    by (apply Z.ltb_lt; cbn [List.length]; lia).
  rewrite Hpos. eexists. split; [reflexivity|].
  unfold publish, save_cache_to_file. rewrite Hopens. reflexivity.
Qed.

End Run.

Lemma earlier_run_reaches_transfer (conv : StringConv) (response : json) :
  reaches_transfer (Examples.run_with response) Examples.earlier_world
    ["NEW"] Examples.earlier_cache.
Proof. exists "key", "secret", "NEW", []. repeat split. Qed.

Lemma parse_failure_aborts_witness :
  (forall conv : StringConv,
      reaches_transfer (Examples.run_with JNull) Examples.earlier_world
        ["NEW"] Examples.earlier_cache)
  /\ transfer (Examples.run_with JNull) = Some JNull
  /\ (forall (conv : StringConv) qsort,
        main qsort (Examples.run_with JNull) Examples.earlier_world
        = Exit 1 Examples.earlier_world).
Proof.
  split; [intros conv; apply earlier_run_reaches_transfer|].
  split; [reflexivity|].
  intros conv qsort.
  exact (parse_failure_aborts qsort (Examples.run_with JNull) Examples.earlier_world
           ["NEW"] Examples.earlier_cache
           (earlier_run_reaches_transfer conv JNull) (eq_refl (Some JNull))).
Defined.

Lemma no_results_no_writes_witness :
  (forall conv : StringConv,
      reaches_transfer (Examples.run_with (Examples.response_with_count 49))
        Examples.earlier_world ["NEW"] Examples.earlier_cache)
  /\ (forall (conv : StringConv) qsort,
        main qsort (Examples.run_with (Examples.response_with_count 49))
          Examples.earlier_world
        = Exit 0 Examples.earlier_world).
Proof.
  split; [intros conv; apply earlier_run_reaches_transfer|].
  intros conv qsort.
  apply (no_results_no_writes qsort
           (Examples.run_with (Examples.response_with_count 49))
           Examples.earlier_world ["NEW"] Examples.earlier_cache
           (Examples.response_with_count 49)
           (earlier_run_reaches_transfer conv _));
    reflexivity.
Defined.

Lemma save_load_round_trip_witness :
  g_cache_count Examples.earlier_cache <= MAX_SYMBOLS
  /\ Forall cache_entry_ok Examples.earlier_cache
  /\ (forall conv : StringConv,
        init_cache_from_file
          (previous_results_json
             (save_cache_to_file Examples.earlier_cache true (mkWorld None None [])))
          []
        = Some Examples.earlier_cache).
Proof.
  assert (Hcount : g_cache_count Examples.earlier_cache <= MAX_SYMBOLS)
    by (cbn; unfold MAX_SYMBOLS; lia).
  assert (Hok : Forall cache_entry_ok Examples.earlier_cache).
  { repeat constructor; cbn; unfold CInt.INT_MIN, CInt.INT_MAX; lia. }
  split; [exact Hcount|]. split; [exact Hok|].
  intros conv.
  apply (proj1 (save_load_round_trip Examples.earlier_cache (mkWorld None None [])
                  Hcount Hok)).
  repeat constructor; cbn; intuition.
Defined.

(** ** Division by a zero close (C9) *)

Lemma relative_change_by_zero (p d : float) :
  CDouble.is_zero d = true ->
  CDouble.finite (((p - d) / d) * 100)%float = false.
Proof.
  unfold CDouble.is_zero, CDouble.finite.
  rewrite mul_spec, div_spec, sub_spec.
  change (Prim2SF 100) with (S754_finite false 7036874417766400 (-46)).
  destruct (Prim2SF d) as [sd | sd | | sd md ed]; try discriminate. intros _.
  destruct (Prim2SF p) as [[|] | [|] | | [|] mp ep]; destruct sd; reflexivity.
Qed.

Lemma zero_close_snapshot `{StringConv} (est_time : tm) (zero_close : json) :
  is_premarket est_time = true ->
  is_null zero_close = false ->
  read_snapshot est_time (Examples.response_with_close zero_close JNull) "NEW"
  = Some (mkSnapshotValues 75 101 (json_object_get_double zero_close) 4000
            (json_object_get_double zero_close)).
Proof.
  intros Hpre Hpresent. rewrite read_snapshot_eq. cbv zeta. rewrite Hpre.
  unfold snapshot_complete, snapshot_values_of, path.
  cbn [fold_left Examples.response_with_close Examples.snapshot
       json_object_object_get_ex lh_table_lookup String.eqb Ascii.eqb Bool.eqb
       is_null negb andb orb json_object_get_int CInt.clamp].
  rewrite Hpresent. reflexivity.
Qed.

(** C9: nothing between the reads and the divisions tests the divisor.  A
    day close that is zero makes [gradient_recent] an infinity or a NaN, and
    a zero reference price does the same to [percent], whatever the price.
    A snapshot whose [dailyBar.c] is present and read as zero passes every
    check: its row carries the non-finite values, its cache entry the
    non-finite gradient, and a run on it writes that gradient to the cache
    file.  The number 0 is read as zero, and so is a value that is not a
    number.  Outside pre-market a zero [prevDailyBar.c] makes [percent]
    infinite in the same way. *)
Theorem division_by_zero_unguarded `{StringConv} :
  (forall (est_time : tm) (json_response : json) (sym : string) (v : snapshot_values),
      read_snapshot est_time json_response sym = Some v ->
      (CDouble.is_zero (snapshot_day_close v) = true ->
       CDouble.finite (gradient_recent_of v) = false)
      /\ (CDouble.is_zero (reference_price v) = true ->
          CDouble.finite (percent_of v) = false))
  /\ (forall zero_close : json,
         is_null zero_close = false ->
         CDouble.is_zero (json_object_get_double zero_close) = true ->
         let response := Examples.response_with_close zero_close JNull in
         let st := process_symbol Examples.premarket_tm response
                     (mkLoopState [] []) "NEW" in
         exists row,
           results st = [row]
           /\ CDouble.finite (percent row) = false
           /\ CDouble.finite (gradient_recent row) = false
           /\ g_cache st = [mkStockCache "NEW" (gradient_recent row) 4000 75]
           /\ forall qsort,
               exists w,
                 main qsort (Examples.run_with response) Examples.earlier_world
                 = Exit 0 w
                 /\ previous_results_json w
                    = Some (JObject [("NEW",
                              JObject [("gradient_recent",
                                        JDouble (gradient_recent row));
                                       ("volume", JInt 4000);
                                       ("trades", JInt 75)])]))
  /\ (Forall (fun zero_close =>
                is_null zero_close = false
                /\ CDouble.is_zero (json_object_get_double zero_close) = true)
             [JInt 0; JDouble 0; JDouble (-0); JBool false; JArray []; JObject []]
      /\ forall s, string_as_double s = None ->
                   CDouble.is_zero (json_object_get_double (JString s)) = true)
  /\ (let response :=
        Examples.response_with_close (JDouble 100) (JObject [("c", JInt 0)]) in
      exists row,
        results (process_symbol Examples.regular_tm response (mkLoopState [] []) "NEW")
        = [row]
        /\ percent row = infinity
        /\ gradient_recent row = 1%float).
Proof.
  split; [|split; [|split; [split|]]].
  - intros est_time json_response sym v _. split; intros Hzero;
      now apply relative_change_by_zero.
  - intros zero_close Hpresent Hzero response st.
    set (v := mkSnapshotValues 75 101 (json_object_get_double zero_close) 4000
                (json_object_get_double zero_close)).
    assert (Hread : forall est_time, is_premarket est_time = true ->
                      read_snapshot est_time response "NEW" = Some v)
      by (intros est_time Hpre; now apply zero_close_snapshot).
    assert (Hst : st = emit_result v "NEW" (mkLoopState [] []))
      by (apply process_symbol_emit, Hread; reflexivity).
    exists (mkStockResult "NEW" 101 (json_object_get_double zero_close)
              (percent_of v) (gradient_full_of v) (gradient_recent_of v)
              (gradient_recent_of v - 0)%float 4000 4000 75 75).
    cbn [percent gradient_recent].
    split; [rewrite Hst; reflexivity|].
    split; [now apply relative_change_by_zero|].
    split; [now apply relative_change_by_zero|].
    split; [rewrite Hst; reflexivity|].
    intros qsort.
    assert (Hest : is_premarket
                     (gmtime (eastern_time (now (Examples.run_with response))))
                   = true) by reflexivity.
    destruct (some_results_save_cache qsort (Examples.run_with response)
                Examples.earlier_world ["NEW"] Examples.earlier_cache response
                (earlier_run_reaches_transfer _ response) eq_refl eq_refl)
      as (w & Hmain & Hfile).
    + unfold process_universe. cbn [fold_left].
      rewrite (process_symbol_emit _ _ _ _ _ (Hread _ Hest)).
      unfold emit_result. cbn. discriminate.
    + reflexivity.
    + exists w. split; [exact Hmain|]. rewrite Hfile.
      unfold process_universe. cbn [fold_left].
      rewrite (process_symbol_emit _ _ _ _ _ (Hread _ Hest)).
      reflexivity.
  - repeat constructor.
  - intros s Hnone. cbn. now rewrite Hnone.
  - eexists. repeat split.
Qed.

(** ** What the program maintains of its cache and of its rows *)

Section Invariants.

Context {conv : StringConv}.

Lemma substring_length_le (n : nat) (s : string) :
  (String.length (substring 0 n s) <= n)%nat.
Proof.
  revert s. induction n as [|n IH]; intros [|a s]; cbn; try lia.
  specialize (IH s). lia.
Qed.

Lemma copy_symbol_length (s : string) : (String.length (copy_symbol s) <= 15)%nat.
Proof. apply (substring_length_le 15). Qed.

Lemma init_cache_entries_invariant (pairs : list (string * json))
  (acc : list StockCache) :
  Forall cache_entry_ok acc -> g_cache_count acc <= MAX_SYMBOLS ->
  Forall cache_entry_ok (init_cache_entries pairs acc)
  /\ g_cache_count (init_cache_entries pairs acc) <= MAX_SYMBOLS.
Proof.
  revert acc. induction pairs as [|[sym val] pairs IH]; intros acc Hok Hcount;
    cbn [init_cache_entries]; [now split|].
  destruct (Z.ltb_spec (g_cache_count acc) MAX_SYMBOLS) as [Hroom | Hfull];
    [|now split].
  destruct (_ && _); [|now apply IH].
  apply IH.
  - apply Forall_app. split; [exact Hok|]. constructor; [|constructor].
    split; [apply copy_symbol_length | split; apply json_object_get_int_in_range].
  - unfold g_cache_count in *. rewrite length_app. cbn [List.length]. lia.
Qed.

Lemma update_cache_hit_invariant (c c' : list StockCache) sym g v t :
  update_cache_hit c sym g v t = Some c' ->
  Forall cache_entry_ok c -> CInt.in_range v -> CInt.in_range t ->
  Forall cache_entry_ok c'
  /\ List.length c' = List.length c
  /\ map cache_symbol c' = map cache_symbol c.
Proof.
  revert c'. induction c as [|e c IH]; intros c' Hhit Hok Hv Ht; cbn in Hhit;
    [discriminate|].
  apply Forall_cons_iff in Hok as [He Hok].
  destruct (String.eqb (cache_symbol e) sym).
  - injection Hhit as <-. repeat split; [|reflexivity ..].
    constructor; [|exact Hok]. destruct He as (Hlen & _ & _).
    split; [exact Hlen | split; assumption].
  - destruct (update_cache_hit c sym g v t) as [c1|]; [|discriminate].
    injection Hhit as <-. destruct (IH c1 eq_refl Hok Hv Ht) as (H1 & H2 & H3).
    repeat split; cbn; [now constructor | now rewrite H2 | now rewrite H3].
Qed.

Lemma update_cache_invariant (c : list StockCache) sym g v t :
  Forall cache_entry_ok c -> g_cache_count c <= MAX_SYMBOLS ->
  CInt.in_range v -> CInt.in_range t ->
  Forall cache_entry_ok (update_cache c sym g v t)
  /\ g_cache_count (update_cache c sym g v t) <= MAX_SYMBOLS
  /\ ((String.length sym <= 15)%nat -> NoDup (map cache_symbol c) ->
      NoDup (map cache_symbol (update_cache c sym g v t))).
Proof.
  intros Hok Hcount Hv Ht. unfold update_cache.
  destruct (update_cache_hit c sym g v t) as [c'|] eqn:Hhit.
  - destruct (update_cache_hit_invariant c c' sym g v t Hhit Hok Hv Ht)
      as (H1 & H2 & H3).
    unfold g_cache_count in *. rewrite H2, H3. now repeat split.
  - destruct (Z.ltb_spec (g_cache_count c) MAX_SYMBOLS) as [Hroom | Hfull];
      [|now repeat split].
    repeat split.
    + apply Forall_app. split; [exact Hok|]. constructor; [|constructor].
      split; [apply copy_symbol_length | split; assumption].
    + unfold g_cache_count in *. rewrite length_app. cbn [List.length]. lia.
    + intros Hlen Hnodup. rewrite map_app. cbn [map cache_symbol].
      rewrite copy_symbol_short by exact Hlen.
      apply NoDup_app; [exact Hnodup | repeat constructor; intros [] |].
      intros k Hk [<- | []]. apply in_map_iff in Hk as (e & He & Hin).
      destruct (cache_has c sym) eqn:Hhas.
      * destruct (update_cache_hit_some c sym g v t Hhas) as (c' & Hsome & _).
        congruence.
      * assert (Htrue : cache_has c sym = true)
          by (apply existsb_exists; exists e; split;
              [exact Hin | now apply String.eqb_eq]).
        congruence.
Qed.

(** Every row the loop emits has a trade count from 50 up to [INT_MAX], and
    the cache stays within what the C types hold. *)
Lemma process_universe_invariant est_time json_response universe st :
  Forall (fun r => 50 <= trades r <= CInt.INT_MAX) (results st) ->
  Forall cache_entry_ok (g_cache st) -> g_cache_count (g_cache st) <= MAX_SYMBOLS ->
  let st' := process_universe est_time json_response universe st in
  Forall (fun r => 50 <= trades r <= CInt.INT_MAX) (results st')
  /\ Forall cache_entry_ok (g_cache st')
  /\ g_cache_count (g_cache st') <= MAX_SYMBOLS.
Proof.
  unfold process_universe. revert st.
  induction universe as [|sym universe IH]; intros st Hrows Hok Hcount;
    cbn [fold_left]; [now repeat split|].
  apply IH; unfold process_symbol;
    destruct (read_snapshot est_time json_response sym) as [v|] eqn:Hread;
    try assumption;
    destruct (read_snapshot_ranges _ _ _ _ Hread) as [Htrades Hvolume];
    assert (Htrd : CInt.in_range (minute_trades v))
      by (unfold CInt.in_range, CInt.INT_MIN; lia);
    unfold emit_result;
    destruct (get_cached_values (g_cache st) sym) as [[pg pv] pt];
    cbn [results g_cache].
  - apply Forall_app. split; [exact Hrows|]. now repeat constructor.
  - now apply update_cache_invariant.
  - now apply update_cache_invariant.
Qed.

(** So the cache a run saves is one that the round trip of the cache file
    covers, whatever the cache file and the response were. *)
Lemma saved_cache_within_types est_time json_response universe file cache :
  init_cache_from_file file [] = Some cache ->
  let st := process_universe est_time json_response universe
              (mkLoopState cache []) in
  Forall cache_entry_ok (g_cache st) /\ g_cache_count (g_cache st) <= MAX_SYMBOLS.
Proof.
  intros Hload st.
  assert (Hloaded : Forall cache_entry_ok cache /\ g_cache_count cache <= MAX_SYMBOLS).
  { assert (Hempty : Forall cache_entry_ok [] /\ g_cache_count [] <= MAX_SYMBOLS)
      by (split; [constructor | cbn; unfold MAX_SYMBOLS; lia]).
    destruct file as [[| | | | | |pairs]|]; cbn in Hload;
      try discriminate; try (injection Hload as <-; exact Hempty).
    injection Hload as <-. now apply init_cache_entries_invariant. }
  destruct Hloaded as [Hok Hcount].
  destruct (process_universe_invariant est_time json_response universe
              (mkLoopState cache []) (Forall_nil _) Hok Hcount) as (_ & H1 & H2).
  now split.
Qed.

Lemma process_universe_rows est_time json_response universe st :
  Forall (fun r => 50 <= trades r <= CInt.INT_MAX) (results st) ->
  Forall (fun r => 50 <= trades r <= CInt.INT_MAX)
    (results (process_universe est_time json_response universe st)).
Proof.
  unfold process_universe. revert st.
  induction universe as [|sym universe IH]; intros st Hrows; cbn [fold_left];
    [exact Hrows|].
  apply IH. unfold process_symbol.
  destruct (read_snapshot est_time json_response sym) as [v|] eqn:Hread;
    [|exact Hrows].
  destruct (read_snapshot_ranges _ _ _ _ Hread) as [Htrades _].
  unfold emit_result.
  destruct (get_cached_values (g_cache st) sym) as [[pg pv] pt].
  cbn [results]. apply Forall_app. split; [exact Hrows|].
  now repeat constructor.
Qed.

(** The rows a run hands to the ranking are within the range in which
    [cmp_stocks_by_trades] does not wrap. *)
Lemma loop_rows_rankable est_time json_response universe cache :
  Forall (fun r => 0 <= trades r <= CInt.INT_MAX)
    (results (process_universe est_time json_response universe
                (mkLoopState cache []))).
Proof.
  eapply Forall_impl; [|apply process_universe_rows; constructor].
  cbn. intros r Hr. lia.
Qed.

(** Outside that range the subtraction wraps and the comparison misorders:
    a row of [INT_MIN] trades compares as coming before a row of one. *)
Example cmp_stocks_by_trades_wraps :
  cmp_stocks_by_trades (Examples.row "LOW" CInt.INT_MIN) (Examples.row "ONE" 1)
  = - 2147483647.
Proof. reflexivity. Qed.

End Invariants.

(** ** Deltas over a whole run *)

Section RunDeltas.

Context {conv : StringConv}.

Lemma get_cached_values_app_other (c : list StockCache) (e : StockCache) sym :
  cache_symbol e <> sym ->
  get_cached_values (c ++ [e]) sym = get_cached_values c sym.
Proof.
  intros Hne. induction c as [|x c IH]; cbn.
  - now apply String.eqb_neq in Hne as ->.
  - now rewrite IH.
Qed.

Lemma update_cache_hit_other (c c' : list StockCache) other g v t sym :
  update_cache_hit c other g v t = Some c' -> other <> sym ->
  get_cached_values c' sym = get_cached_values c sym.
Proof.
  revert c'. induction c as [|e c IH]; intros c' Hhit Hne; cbn in Hhit;
    [discriminate|].
  destruct (String.eqb_spec (cache_symbol e) other) as [Heq | Hother].
  - injection Hhit as <-. cbn.
    assert (Hsym : String.eqb (cache_symbol e) sym = false)
      by (apply String.eqb_neq; congruence).
    now rewrite Hsym.
  - destruct (update_cache_hit c other g v t) as [c1|]; [|discriminate].
    injection Hhit as <-. cbn. now rewrite (IH c1 eq_refl Hne).
Qed.

Lemma update_cache_other (c : list StockCache) other g v t sym :
  other <> sym -> copy_symbol other <> sym ->
  get_cached_values (update_cache c other g v t) sym = get_cached_values c sym.
Proof.
  intros Hne Hcopy. unfold update_cache.
  destruct (update_cache_hit c other g v t) as [c'|] eqn:Hhit.
  - now apply (update_cache_hit_other c c' other g v t).
  - destruct (g_cache_count c <? MAX_SYMBOLS); [|reflexivity].
    now apply get_cached_values_app_other.
Qed.

Lemma process_universe_other est_time json_response (others : list string) st sym :
  Forall (fun other => other <> sym /\ copy_symbol other <> sym) others ->
  get_cached_values (g_cache (process_universe est_time json_response others st)) sym
  = get_cached_values (g_cache st) sym.
Proof.
  unfold process_universe. revert st.
  induction others as [|other others IH]; intros st Hothers; cbn [fold_left];
    [reflexivity|].
  apply Forall_cons_iff in Hothers as [[Hne Hcopy] Hothers].
  rewrite IH by exact Hothers. unfold process_symbol.
  destruct (read_snapshot est_time json_response other) as [v|]; [|reflexivity].
  unfold emit_result.
  destruct (get_cached_values (g_cache st) other) as [[pg pv] pt]. cbn [g_cache].
  now apply update_cache_other.
Qed.

(** When a symbol is reached for the first time in a run, and no earlier
    symbol of the universe is cut down to it by the 15-character copy, its
    deltas are taken against the cache as it was loaded. *)
Lemma delta_against_loaded_cache est_time json_response
  (before : list string) (sym : string) (st0 : loop_state) (v : snapshot_values) :
  Forall (fun other => other <> sym /\ copy_symbol other <> sym) before ->
  read_snapshot est_time json_response sym = Some v ->
  let loaded := get_cached_values (g_cache st0) sym in
  let st1 := process_universe est_time json_response before st0 in
  exists row,
    results (process_universe est_time json_response (before ++ [sym]) st0)
    = (results st1 ++ [row])%list
    /\ gradient_change row = (gradient_recent_of v - fst (fst loaded))%float
    /\ volume_change row = CInt.sub (minute_volume v) (snd (fst loaded))
    /\ trades_change row = CInt.sub (minute_trades v) (snd loaded).
Proof.
  intros Hbefore Hread loaded st1.
  unfold process_universe. rewrite fold_left_app. cbn [fold_left].
  fold (process_universe est_time json_response before st0). fold st1.
  rewrite (process_symbol_emit _ _ _ _ _ Hread).
  destruct (emit_result_changes v sym st1) as (row & Hres & Hdg & Hdv & Hdt).
  exists row. split; [exact Hres|].
  rewrite Hdg, Hdv, Hdt. subst st1 loaded.
  rewrite (process_universe_other _ _ before st0 sym Hbefore). repeat split.
Qed.

End RunDeltas.

(** ** The symbol list file *)

Lemma string_length_app (s1 s2 : string) :
  String.length (s1 ++ s2) = (String.length s1 + String.length s2)%nat.
Proof. induction s1 as [|c s1 IH]; cbn; [reflexivity | now rewrite IH]. Qed.

Lemma string_app_assoc (s1 s2 s3 : string) : (s1 ++ s2) ++ s3 = s1 ++ (s2 ++ s3).
Proof. induction s1 as [|c s1 IH]; cbn; [reflexivity | now rewrite IH]. Qed.

Lemma string_app_nil_r (s : string) : s ++ EmptyString = s.
Proof. induction s as [|c s IH]; cbn; [reflexivity | now rewrite IH]. Qed.

Lemma strlen_app (s1 s2 : string) : strlen (s1 ++ s2) = strlen s1 + strlen s2.
Proof. unfold strlen. rewrite string_length_app. lia. Qed.

(** One call of [fgets] splits the stream and takes at least a character. *)
Lemma fgets_read_spec (room : nat) (stream : string) :
  let (buffer, rest) := fgets_read room stream in
  stream = buffer ++ rest /\ (String.length buffer <= room)%nat
  /\ (room <> 0%nat -> stream <> EmptyString -> buffer <> EmptyString).
Proof.
  revert stream. induction room as [|room IH]; intros [|c rest]; cbn;
    try (repeat split; congruence || lia).
  destruct (Ascii.eqb c LF).
  - cbn. repeat split; [lia | congruence].
  - specialize (IH rest). destruct (fgets_read room rest) as [line rest'].
    destruct IH as (-> & Hlen & _). cbn. repeat split; [lia | congruence].
Qed.

Lemma fgets_shorter (stream buffer rest : string) :
  fgets 256 stream = Some (buffer, rest) ->
  stream = buffer ++ rest /\ (String.length rest < String.length stream)%nat.
Proof.
  unfold fgets. destruct stream as [|c s]; [discriminate|].
  pose proof (fgets_read_spec (256 - 1) (String c s)) as Hspec.
  destruct (fgets_read (256 - 1) (String c s)) as [b r].
  intros H. injection H as -> ->.
  destruct Hspec as (Heq & _ & Hne).
  split; [exact Heq|]. rewrite Heq, string_length_app.
  destruct buffer; [exfalso; apply Hne; [discriminate.. | reflexivity]|]. cbn. lia.
Qed.

Lemma fgets_loop_fuel (fuel1 fuel2 : nat) (stream : string) :
  (String.length stream <= fuel1)%nat -> (String.length stream <= fuel2)%nat ->
  fgets_loop fuel1 stream = fgets_loop fuel2 stream.
Proof.
  revert fuel2 stream. induction fuel1 as [|fuel1 IH]; intros fuel2 stream H1 H2.
  - destruct stream; [|cbn in H1; lia]. now destruct fuel2.
  - destruct fuel2 as [|fuel2].
    + destruct stream; [reflexivity | cbn in H2; lia].
    + cbn [fgets_loop]. destruct (fgets 256 stream) as [[buffer rest]|] eqn:Hget;
        [|reflexivity].
      apply fgets_shorter in Hget as [_ Hlt]. f_equal. apply IH; lia.
Qed.

(** The buffers are those of the loop [while (fgets(...))]: the loop ends
    at the end of the file, not for want of steps. *)
Lemma fgets_lines_step (stream : string) :
  fgets_lines stream
  = match fgets 256 stream with
    | None => []
    | Some (buffer, rest) => buffer :: fgets_lines rest
    end.
Proof.
  unfold fgets_lines. destruct stream as [|c s]; [reflexivity|].
  cbn [String.length fgets_loop].
  destruct (fgets 256 (String c s)) as [[buffer rest]|] eqn:Hget; [|reflexivity].
  apply fgets_shorter in Hget as [_ Hlt]. cbn [String.length] in Hlt.
  f_equal. apply fgets_loop_fuel; lia.
Qed.

(** *** What the second pass stores *)

Lemma all_chars_impl (p q : ascii -> bool) (s : string) :
  (forall c, p c = true -> q c = true) ->
  all_chars p s = true -> all_chars q s = true.
Proof.
  intros Hpq. induction s as [|c s IH]; cbn; [reflexivity|].
  intros [Hc Hs]%andb_prop. now rewrite (Hpq c Hc), IH.
Qed.

Lemma all_chars_and (p q : ascii -> bool) (s : string) :
  all_chars p s = true -> all_chars q s = true ->
  all_chars (fun c => p c && q c) s = true.
Proof.
  induction s as [|c s IH]; cbn; [reflexivity|].
  intros [Hp Hps]%andb_prop [Hq Hqs]%andb_prop. now rewrite Hp, Hq, IH.
Qed.

Lemma all_chars_app (p : ascii -> bool) (s t : string) :
  all_chars p (s ++ t) = all_chars p s && all_chars p t.
Proof.
  induction s as [|c s IH]; cbn; [reflexivity|]. now rewrite IH, andb_assoc.
Qed.

Lemma c_str_no_nul (s : string) :
  all_chars (fun c => negb (Ascii.eqb c NUL)) (c_str s) = true.
Proof.
  induction s as [|c s IH]; cbn; [reflexivity|].
  destruct (Ascii.eqb c NUL) eqn:E; cbn; [reflexivity|]. now rewrite E, IH.
Qed.

Lemma skip_span_chars (p : ascii -> bool) (s accept : string) :
  all_chars p s = true -> all_chars p (skip_span s accept) = true.
Proof.
  induction s as [|c s IH]; cbn; [reflexivity|].
  intros H. destruct (strchr accept c); [|exact H].
  apply andb_prop in H as [_ H]. now apply IH.
Qed.

Lemma strcspn_prefix_chars (p : ascii -> bool) (s reject : string) :
  all_chars p s = true -> all_chars p (strcspn_prefix s reject) = true.
Proof.
  induction s as [|c s IH]; cbn; [reflexivity|].
  intros [Hc Hs]%andb_prop. destruct (strchr reject c); cbn; [reflexivity|].
  now rewrite Hc, IH.
Qed.

Lemma strcspn_prefix_rejects (s reject : string) :
  all_chars (fun c => negb (strchr reject c)) (strcspn_prefix s reject) = true.
Proof.
  induction s as [|c s IH]; cbn; [reflexivity|].
  destruct (strchr reject c) eqn:E; cbn; [reflexivity|]. now rewrite E, IH.
Qed.

Lemma strtok_some (s delim token : string) :
  strtok s delim = Some token ->
  token = strcspn_prefix (skip_span s delim) delim.
Proof.
  unfold strtok. destruct (skip_span s delim) as [|c t]; [discriminate|].
  now intros [= <-].
Qed.

Lemma strtok_chars (p : ascii -> bool) (s delim token : string) :
  strtok s delim = Some token -> all_chars p s = true ->
  all_chars p token = true
  /\ all_chars (fun c => negb (strchr delim c)) token = true.
Proof.
  intros ->%strtok_some Hs. split;
    [now apply strcspn_prefix_chars, skip_span_chars | apply strcspn_prefix_rejects].
Qed.

Lemma toupper_symbol_char (c : ascii) :
  negb (strchr blank c) = true -> negb (strchr eol_chars c) = true ->
  negb (Ascii.eqb c NUL) = true ->
  symbol_char (toupper c) = true.
Proof.
  destruct c as [[] [] [] [] [] [] [] []]; vm_compute; intros; congruence.
Qed.

Lemma upcase_length (s : string) : String.length (upcase s) = String.length s.
Proof. induction s as [|c s IH]; cbn; [reflexivity | now rewrite IH]. Qed.

Lemma upcase_symbol_chars (s : string) :
  all_chars (fun c => negb (strchr blank c) && negb (strchr eol_chars c)
                      && negb (Ascii.eqb c NUL)) s = true ->
  all_chars symbol_char (upcase s) = true.
Proof.
  induction s as [|c s IH]; cbn [all_chars upcase]; [reflexivity|].
  intros [[[H1 H2]%andb_prop H3]%andb_prop Hs]%andb_prop.
  now rewrite toupper_symbol_char, IH.
Qed.

Lemma symbol_fits_length (token : string) :
  symbol_fits token = true <-> (1 <= String.length token <= 14)%nat.
Proof.
  unfold symbol_fits, strlen, MAX_SYMBOL_LENGTH.
  rewrite andb_true_iff, !Z.ltb_lt. lia.
Qed.

Lemma symbol_fits_copy (token : string) :
  symbol_fits token = true -> copy_symbol token = token.
Proof.
  intros H%symbol_fits_length. apply copy_symbol_short. lia.
Qed.

Lemma loaded_listed (raw sym : string) :
  loaded (c_str raw) = Some sym -> listed_symbol sym = true.
Proof.
  unfold loaded.
  destruct (strtok (strcspn_prefix (c_str raw) eol_chars) blank) as [token|] eqn:Htok;
    [|discriminate].
  destruct (symbol_fits token) eqn:Hfits; [|discriminate].
  intros [= <-]. rewrite symbol_fits_copy by exact Hfits.
  unfold listed_symbol. apply andb_true_intro. split.
  - apply symbol_fits_length. rewrite upcase_length. now apply symbol_fits_length.
  - apply upcase_symbol_chars.
    assert (Hline : all_chars (fun c => negb (strchr eol_chars c)
                                        && negb (Ascii.eqb c NUL))
                      (strcspn_prefix (c_str raw) eol_chars) = true).
    { apply all_chars_and; [apply strcspn_prefix_rejects|].
      apply strcspn_prefix_chars, c_str_no_nul. }
    destruct (strtok_chars _ _ _ _ Htok Hline) as [H1 H2].
    eapply all_chars_impl; [|exact (all_chars_and _ _ _ H2 H1)].
    cbn beta. intros c. now rewrite andb_assoc.
Qed.

Lemma count_symbols_bound (buffers : list string) (count : Z) :
  count <= MAX_SYMBOLS -> count <= count_symbols buffers count <= MAX_SYMBOLS.
Proof.
  revert count. induction buffers as [|buffer buffers IH]; intros count Hle;
    cbn [count_symbols]; [lia|].
  destruct (Z.ltb_spec count MAX_SYMBOLS); [|lia].
  destruct (counted buffer).
  - specialize (IH (count + 1)). lia.
  - now apply IH.
Qed.

Lemma load_symbols_listed (raws : list string) (count : Z) (symbols : list string) :
  forallb listed_symbol symbols = true ->
  Z.of_nat (List.length symbols) <= count ->
  let symbols' := load_symbols (map c_str raws) count symbols in
  forallb listed_symbol symbols' = true
  /\ Z.of_nat (List.length symbols') <= count.
Proof.
  revert symbols. induction raws as [|raw raws IH]; intros symbols Hall Hlen;
    cbn [map load_symbols]; [now split|].
  destruct (Z.ltb_spec (Z.of_nat (List.length symbols)) count); [|now split].
  destruct (loaded (c_str raw)) as [sym|] eqn:Hloaded; [|now apply IH].
  apply IH.
  - rewrite forallb_app, Hall. cbn. now rewrite (loaded_listed raw sym Hloaded).
  - rewrite length_app. cbn [List.length]. lia.
Qed.

Lemma read_symbol_list_listed (file : option string) (symbols : list string) :
  read_symbol_list file = Some symbols ->
  symbols <> []
  /\ Z.of_nat (List.length symbols) <= MAX_SYMBOLS
  /\ forallb listed_symbol symbols = true.
Proof.
  unfold read_symbol_list. destruct file as [text|]; [|discriminate].
  cbv zeta.
  assert (Hcount : 0 <= count_symbols (map c_str (fgets_lines text)) 0 <= MAX_SYMBOLS)
    by (apply count_symbols_bound; unfold MAX_SYMBOLS; lia).
  set (count := count_symbols _ 0) in *.
  destruct (count =? 0); [discriminate|].
  destruct (load_symbols_listed (fgets_lines text) count [] eq_refl) as [Hall Hlen];
    [cbn; lia|].
  destruct (Z.eqb_spec (Z.of_nat (List.length
             (load_symbols (map c_str (fgets_lines text)) count []))) 0) as [|Hne];
    [discriminate|].
  intros [= <-]. repeat split; [|lia|exact Hall].
  intros Hnil. rewrite Hnil in Hne. now apply Hne.
Qed.

(** X1: whatever the list file holds, a list that [read_symbol_list]
    returns is not empty, and each of its symbols has from 1 to 14
    characters, none of them a blank, an end of line, a NUL or a lower-case
    letter.  So [main] never cuts the list down to [MAX_SYMBOLS], and the
    15-character copies into the rows and the cache keep every symbol
    whole. *)
Theorem symbol_list_well_formed (file : option string) (symbols : list string) :
  read_symbol_list file = Some symbols ->
  symbols <> []
  /\ forallb listed_symbol symbols = true
  /\ firstn (Z.to_nat MAX_SYMBOLS) symbols = symbols
  /\ map copy_symbol symbols = symbols.
Proof.
  intros (Hne & Hlen & Hall)%read_symbol_list_listed.
  repeat split; [exact Hne | exact Hall | apply firstn_all2; lia |].
  clear Hne Hlen. induction symbols as [|s symbols IH]; [reflexivity|].
  cbn [forallb] in Hall. apply andb_prop in Hall as [Hs Hall].
  unfold listed_symbol in Hs. apply andb_prop in Hs as [Hs _].
  cbn [map]. now rewrite symbol_fits_copy, IH.
Qed.

Lemma symbol_list_well_formed_witness :
  read_symbol_list (Some Examples.list_file) = Some ["AAPL"; "MSFT"; "BRK.B"; "TSLA"]
  /\ forallb listed_symbol ["AAPL"; "MSFT"; "BRK.B"; "TSLA"] = true.
Proof.
  assert (Hread : read_symbol_list (Some Examples.list_file)
                  = Some ["AAPL"; "MSFT"; "BRK.B"; "TSLA"]) by reflexivity.
  split; [exact Hread|].
  exact (proj1 (proj2 (symbol_list_well_formed _ _ Hread))).
Defined.

(** *** A text file, line by line *)

Lemma load_symbols_firstn (buffers : list string) (count : Z) (symbols : list string) :
  load_symbols buffers count symbols
  = (symbols ++ firstn (Z.to_nat count - List.length symbols) (symbols_of buffers))%list.
Proof.
  revert symbols. induction buffers as [|b buffers IH]; intros symbols;
    cbn [load_symbols symbols_of flat_map].
  - now rewrite firstn_nil, app_nil_r.
  - fold (symbols_of buffers).
    destruct (Z.ltb_spec (Z.of_nat (List.length symbols)) count) as [Hlt | Hge].
    + destruct (loaded b) as [s|]; rewrite IH; [|reflexivity].
      rewrite length_app, <- app_assoc. cbn [List.length app].
      replace (Z.to_nat count - List.length symbols)%nat
        with (S (Z.to_nat count - (List.length symbols + 1)))%nat by lia.
      reflexivity.
    + replace (Z.to_nat count - List.length symbols)%nat with 0%nat by lia.
      now rewrite app_nil_r.
Qed.

Lemma count_symbols_min (buffers : list string) (count : Z) :
  count <= MAX_SYMBOLS ->
  count_symbols buffers count
  = Z.min MAX_SYMBOLS (count + Z.of_nat (List.length (filter counted buffers))).
Proof.
  revert count. induction buffers as [|b buffers IH]; intros count Hle;
    cbn [count_symbols filter List.length]; [lia|].
  destruct (Z.ltb_spec count MAX_SYMBOLS) as [Hlt | Hge].
  - destruct (counted b); rewrite IH by lia; cbn [List.length]; lia.
  - destruct (counted b); cbn [List.length]; lia.
Qed.

Lemma c_str_text (s : string) :
  all_chars (fun c => negb (Ascii.eqb c NUL)) s = true -> c_str s = s.
Proof.
  induction s as [|c s IH]; cbn; [reflexivity|].
  intros [Hc Hs]%andb_prop. apply negb_true_iff in Hc. now rewrite Hc, IH.
Qed.

Lemma line_end_text (body tail : string) :
  all_chars text_char body = true -> line_end tail ->
  c_str (body ++ tail) = body ++ tail.
Proof.
  intros Hbody Htail. apply c_str_text. rewrite all_chars_app.
  apply andb_true_intro. split.
  - eapply all_chars_impl; [|exact Hbody]. unfold text_char.
    now intros c [_ H]%andb_prop.
  - now destruct Htail as [-> | [-> | ->]].
Qed.

(** The second pass cuts a buffer at the end of its line. *)
Lemma strcspn_prefix_line (body tail : string) :
  all_chars text_char body = true -> line_end tail ->
  strcspn_prefix (body ++ tail) eol_chars = body.
Proof.
  intros Hbody Htail. induction body as [|c body IH]; cbn.
  - now destruct Htail as [-> | [-> | ->]].
  - cbn in Hbody. apply andb_prop in Hbody as [Hc Hbody].
    unfold text_char in Hc. apply andb_prop in Hc as [Hc _].
    apply negb_true_iff in Hc. cbn in Hc. rewrite Hc. now rewrite IH.
Qed.

Lemma strchr_blank_or_eol (c : ascii) :
  strchr blank_or_eol c = strchr blank c || strchr eol_chars c.
Proof. cbn. now rewrite !orb_false_r, orb_assoc. Qed.

Lemma strcspn_prefix_token (body tail : string) :
  all_chars text_char body = true -> line_end tail ->
  strcspn_prefix (body ++ tail) blank_or_eol = strcspn_prefix body blank.
Proof.
  intros Hbody Htail. induction body as [|c body IH].
  - now destruct Htail as [-> | [-> | ->]].
  - cbn [all_chars] in Hbody. apply andb_prop in Hbody as [Hc Hbody].
    unfold text_char in Hc. apply andb_prop in Hc as [Hc _].
    apply negb_true_iff in Hc.
    cbn [append strcspn_prefix]. rewrite strchr_blank_or_eol, Hc, orb_false_r.
    now rewrite IH.
Qed.

(** On a line of text both passes find the same token. *)
Lemma strtok_line (body tail : string) :
  all_chars text_char body = true -> line_end tail ->
  strtok (body ++ tail) blank_or_eol = strtok body blank.
Proof.
  intros Hbody Htail. unfold strtok. induction body as [|c body IH].
  - now destruct Htail as [-> | [-> | ->]].
  - cbn [all_chars] in Hbody. apply andb_prop in Hbody as [Hc Hbody].
    pose proof Hc as Hc'.
    unfold text_char in Hc. apply andb_prop in Hc as [Hc _].
    apply negb_true_iff in Hc.
    cbn [append skip_span]. rewrite strchr_blank_or_eol, Hc, orb_false_r.
    destruct (strchr blank c) eqn:Hblank; [now apply IH|].
    f_equal.
    change (String c (body ++ tail)) with (String c body ++ tail).
    apply strcspn_prefix_token; [|exact Htail].
    cbn [all_chars]. now rewrite Hc', Hbody.
Qed.

Lemma loaded_line (body tail : string) :
  all_chars text_char body = true -> line_end tail ->
  match loaded (body ++ tail) with Some s => [s] | None => [] end
  = map upcase (filter symbol_fits (first_word body)).
Proof.
  intros Hbody Htail. unfold loaded, first_word.
  rewrite strcspn_prefix_line by assumption.
  destruct (strtok body blank) as [token|]; [|reflexivity].
  cbn [filter]. destruct (symbol_fits token) eqn:Hfits; [|reflexivity].
  now rewrite symbol_fits_copy.
Qed.

Lemma counted_line (body tail : string) :
  all_chars text_char body = true -> line_end tail ->
  (if counted (body ++ tail) then 1%nat else 0%nat)
  = List.length (filter symbol_fits (first_word body)).
Proof.
  intros Hbody Htail. unfold counted, first_word.
  rewrite strtok_line by assumption.
  destruct (Z.ltb_spec 0 (strlen (body ++ tail))) as [Hpos | Hzero].
  - destruct (strtok body blank) as [token|]; [|reflexivity].
    cbn [filter]. now destruct (symbol_fits token).
  - unfold strlen in Hzero. rewrite string_length_app in Hzero.
    destruct body; [reflexivity | cbn in Hzero; lia].
Qed.

Lemma fgets_read_line (room : nat) (pre rest : string) :
  all_chars (fun c => negb (Ascii.eqb c LF)) pre = true ->
  (String.length pre < room)%nat ->
  fgets_read room (pre ++ String LF rest) = (pre ++ String LF EmptyString, rest).
Proof.
  revert room. induction pre as [|c pre IH]; intros room Hpre Hlen.
  - destruct room; [cbn in Hlen; lia|]. reflexivity.
  - destruct room; [cbn in Hlen; lia|].
    cbn [all_chars] in Hpre. apply andb_prop in Hpre as [Hc Hpre].
    apply negb_true_iff in Hc. cbn [append fgets_read]. rewrite Hc.
    rewrite IH; [reflexivity | exact Hpre | cbn in Hlen; lia].
Qed.

Lemma fgets_read_last (room : nat) (s : string) :
  all_chars (fun c => negb (Ascii.eqb c LF)) s = true ->
  (String.length s <= room)%nat ->
  fgets_read room s = (s, EmptyString).
Proof.
  revert room. induction s as [|c s IH]; intros room Hs Hlen.
  - now destruct room.
  - destruct room; [cbn in Hlen; lia|].
    cbn [all_chars] in Hs. apply andb_prop in Hs as [Hc Hs].
    apply negb_true_iff in Hc. cbn [fgets_read]. rewrite Hc.
    rewrite IH; [reflexivity | exact Hs | cbn in Hlen; lia].
Qed.

Lemma text_char_not_LF (s : string) :
  all_chars text_char s = true ->
  all_chars (fun c => negb (Ascii.eqb c LF)) s = true.
Proof.
  apply all_chars_impl. intros c [H _]%andb_prop.
  apply negb_true_iff in H. cbn in H. rewrite orb_false_r in H.
  apply orb_false_elim in H as [_ H]. apply negb_true_iff.
  now rewrite Ascii.eqb_sym.
Qed.

Lemma fgets_text_line (body eol rest : string) :
  text_line body = true -> eol = newline \/ eol = crlf ->
  fgets 256 (body ++ eol ++ rest) = Some (body ++ eol, rest).
Proof.
  unfold text_line. intros [Hlen%Nat.leb_le Hbody]%andb_prop Heol.
  assert (Hsplit : exists e, eol = e ++ newline
                             /\ all_chars (fun c => negb (Ascii.eqb c LF)) e = true
                             /\ (String.length e <= 1)%nat).
  { destruct Heol as [-> | ->];
      [exists EmptyString | exists (String CR EmptyString)];
      repeat split; cbn; lia. }
  destruct Hsplit as (e & -> & He & Helen).
  replace (body ++ (e ++ newline) ++ rest) with ((body ++ e) ++ String LF rest)
    by (now rewrite !string_app_assoc).
  replace (body ++ e ++ newline) with ((body ++ e) ++ String LF EmptyString)
    by (now rewrite !string_app_assoc).
  unfold fgets.
  destruct ((body ++ e) ++ String LF rest) eqn:Hstream;
    [now destruct body, e|].
  rewrite <- Hstream. f_equal. apply fgets_read_line.
  - rewrite all_chars_app, He, andb_true_r. now apply text_char_not_LF.
  - rewrite string_length_app. lia.
Qed.

Lemma fgets_text_last (last : string) :
  text_line last = true ->
  fgets 256 last
  = match last with EmptyString => None | _ => Some (last, EmptyString) end.
Proof.
  unfold text_line. intros [Hlen%Nat.leb_le Hbody]%andb_prop.
  unfold fgets. destruct last as [|c s]; [reflexivity|].
  f_equal. apply fgets_read_last; [now apply text_char_not_LF | lia].
Qed.

(** Each call of [fgets] delivers one line of such a file. *)
Lemma fgets_lines_text (eol : string) (lines : list string) (last : string) :
  eol = newline \/ eol = crlf ->
  forallb text_line lines = true -> text_line last = true ->
  fgets_lines (text_of eol lines last) = buffers_of eol lines last.
Proof.
  intros Heol Hlines Hlast. unfold buffers_of.
  induction lines as [|body lines IH]; cbn [text_of fold_right map app].
  - rewrite fgets_lines_step, fgets_text_last by exact Hlast.
    now destruct last.
  - cbn [forallb] in Hlines. apply andb_prop in Hlines as [Hbody Hlines].
    rewrite fgets_lines_step, fgets_text_line by assumption.
    f_equal. now apply IH.
Qed.


(** The two passes together, given what each buffer contributes. *)
Lemma read_symbol_list_buffers (text : string) (syms : list string) :
  symbols_of (map c_str (fgets_lines text)) = syms ->
  List.length (filter counted (map c_str (fgets_lines text))) = List.length syms ->
  read_symbol_list (Some text)
  = match firstn (Z.to_nat MAX_SYMBOLS) syms with
    | [] => None
    | symbols => Some symbols
    end.
Proof.
  intros Hsyms Hcount. unfold read_symbol_list. cbv zeta.
  rewrite load_symbols_firstn, Hsyms,
    count_symbols_min, Hcount by (unfold MAX_SYMBOLS; lia).
  cbn [app List.length]. rewrite Z.add_0_l, Nat.sub_0_r.
  assert (Hfirst : firstn (Z.to_nat (Z.min MAX_SYMBOLS (Z.of_nat (List.length syms)))) syms
                   = firstn (Z.to_nat MAX_SYMBOLS) syms).
  { destruct (Z.le_ge_cases MAX_SYMBOLS (Z.of_nat (List.length syms))).
    - now rewrite Z.min_l.
    - rewrite Z.min_r, Nat2Z.id, firstn_all by assumption.
      symmetry. apply firstn_all2. lia. }
  rewrite Hfirst.
  destruct syms as [|s syms]; [reflexivity|].
  assert (Hpos : (Z.min MAX_SYMBOLS (Z.of_nat (List.length (s :: syms))) =? 0) = false)
    by (apply Z.eqb_neq; unfold MAX_SYMBOLS; cbn [List.length]; lia).
  rewrite Hpos.
  change (Z.to_nat MAX_SYMBOLS) with (S (Z.to_nat (MAX_SYMBOLS - 1))).
  cbn [firstn List.length].
  destruct (Z.eqb_spec
              (Z.of_nat (S (List.length (firstn (Z.to_nat (MAX_SYMBOLS - 1)) syms)))) 0);
    [lia | reflexivity].
Qed.



(** *** The [--list] option *)

Lemma list_option_skip (a : string) (args : list string) (default : string) :
  a <> "--list" -> list_option (a :: args) default = list_option args default.
Proof.
  intros Hne%String.eqb_neq. destruct args as [|b rest]; [reflexivity|].
  cbn [list_option]. now rewrite Hne.
Qed.

(** X3: the arguments before the first [--list] do not matter; the argument
    behind it is taken as the file name whatever it is, and the rest of the
    command line is read with that name as the default, so that a later
    [--list] overrides it; a [--list] that ends the command line is
    ignored, and without the option the name stays the default. *)
Theorem list_option_first (before : list string) (value : string)
  (after : list string) (default : string) :
  ~ In "--list" before ->
  list_option (before ++ "--list" :: value :: after) default = list_option after value
  /\ list_option (before ++ ["--list"]) default = default
  /\ list_option before default = default.
Proof.
  induction before as [|a before IH]; intros Hnot.
  - now repeat split.
  - assert (Ha : a <> "--list") by (intros ->; apply Hnot; now left).
    destruct IH as (IH1 & IH2 & IH3); [intros Hin; apply Hnot; now right|].
    cbn [app]. now rewrite !list_option_skip.
Qed.

Lemma list_option_first_witness :
  ~ In "--list" ["-v"]
  /\ list_filename ["stock_analyzer"; "-v"; "--list"; "nasdaq.lis"; "--list"]
     = "nasdaq.lis".
Proof.
  assert (Hnot : ~ In "--list" ["-v"]) by (intros [H | []]; discriminate).
  split; [exact Hnot|].
  exact (proj1 (list_option_first ["-v"] "nasdaq.lis" ["--list"] "combined.lis" Hnot)).
Defined.

(** ** Outcomes of a run *)

Section RunOutcomes.

Context {conv : StringConv}.
Variable qsort :
  list StockResult -> (StockResult -> StockResult -> Z) -> list StockResult.

(** X4: when the run reaches the transfer and [curl_easy_perform] fails,
    [main] returns 1 and the files are as they were: the loop, the report
    and [save_cache_to_file] are never reached. *)
Theorem fetch_failure_aborts (i : run_input) (w : world) (universe : list string)
  (cache : list StockCache) :
  reaches_transfer i w universe cache ->
  transfer i = None ->
  main qsort i w = Exit 1 w.
Proof.
  intros Hreach Hnone. rewrite (main_at_transfer qsort i w universe cache Hreach), Hnone.
  reflexivity.
Qed.

(** X5: without one of the two keys in the environment, or without a symbol
    list, [main] returns 1 with the files as they were, and does so before
    [init_cache_from_file]: the cache file is not looked at, not even one
    that the loader cannot iterate. *)
Theorem config_error_aborts (i : run_input) (w : world) :
  api_key_id i = None \/ secret_key_id i = None
  \/ symbol_list i = None \/ symbol_list i = Some [] ->
  main qsort i w = Exit 1 w.
Proof.
  unfold main. intros [-> | [-> | [-> | ->]]];
    destruct (api_key_id i), (secret_key_id i); reflexivity.
Qed.

(** X6: when [curl_easy_init] gives no handle, [main] prints a message and
    returns 0, the status of a successful run, with the files as they
    were. *)
Theorem no_curl_handle_exits_zero (i : run_input) (w : world) (key secret first : string)
  (others : list string) (cache : list StockCache) :
  api_key_id i = Some key -> secret_key_id i = Some secret ->
  symbol_list i = Some (first :: others) ->
  init_cache_from_file (previous_results_json w) [] = Some cache ->
  curl i = false ->
  main qsort i w = Exit 0 w.
Proof.
  intros Hkey Hsecret Hlist Hcache Hcurl. unfold main.
  now rewrite Hkey, Hsecret, Hlist, Hcache, Hcurl.
Qed.

Lemma publish_files (i : run_input) (st : loop_state) (w : world) :
  let page := mkReport (rank qsort (results st)) (gmtime (eastern_time (now i)))
                (timezone_abbr (gmtime (now i))) in
  previous_results_json (publish qsort i st w)
  = (if cache_file_opens i then Some (save_cache_document (g_cache st))
     else previous_results_json w)
  /\ latest_html (publish qsort i st w)
     = (if html_file_opens i then Some page else latest_html w)
  /\ scp_runs (publish qsort i st w)
     = (if html_file_opens i then scp_runs w ++ [page] else scp_runs w)%list.
Proof.
  unfold publish, save_cache_to_file.
  destruct (html_file_opens i), (cache_file_opens i); now repeat split.
Qed.

(** X7: whatever it is given, a run that ends returns 0 or 1; when it
    returns 1, or dies in the cache loader, every file is as it was; the
    remote copy is made at most once, exactly when [latest.html] has been
    written and of that page; and the cache file is either untouched or a
    document written by [save_cache_to_file]. *)
Theorem writes_only_on_success (i : run_input) (w : world) :
  match main qsort i w with
  | Exit status w' =>
      (status = 0 \/ status = 1)
      /\ (status = 1 -> w' = w)
      /\ ((latest_html w' = latest_html w /\ scp_runs w' = scp_runs w)
          \/ exists page, latest_html w' = Some page
                          /\ scp_runs w' = (scp_runs w ++ [page])%list)
      /\ (previous_results_json w' = previous_results_json w
          \/ exists cache,
               previous_results_json w' = Some (save_cache_document cache))
  | Killed w' => w' = w
  | Undefined => True
  end.
Proof.
  assert (Hsame : forall status, status = 0 \/ status = 1 ->
            (status = 0 \/ status = 1)
            /\ (status = 1 -> w = w)
            /\ ((latest_html w = latest_html w /\ scp_runs w = scp_runs w)
                \/ exists page, latest_html w = Some page
                                /\ scp_runs w = (scp_runs w ++ [page])%list)
            /\ (previous_results_json w = previous_results_json w
                \/ exists cache,
                     previous_results_json w = Some (save_cache_document cache)))
    by (intros status Hs; repeat split; auto).
  unfold main.
  destruct (api_key_id i), (secret_key_id i); try (apply Hsame; now right).
  destruct (symbol_list i) as [[|first others]|]; try (apply Hsame; now right).
  destruct (init_cache_from_file _ _); [|reflexivity].
  destruct (curl i); [|apply Hsame; now left].
  destruct (request_fits _ _ _); [|exact I].
  destruct (transfer i) as [json_response|]; [|apply Hsame; now right].
  destruct (is_null json_response); [apply Hsame; now right|].
  cbv zeta. destruct (0 <? _); [|apply Hsame; now left].
  match goal with |- context [publish qsort i ?st w] =>
    destruct (publish_files i st w) as (Hcache & Hhtml & Hscp) end.
  cbv zeta in Hhtml, Hscp.
  split; [now left|]. split; [discriminate|]. split.
  - rewrite Hhtml, Hscp. destruct (html_file_opens i); [right | left; now split].
    eexists. split; reflexivity.
  - rewrite Hcache. destruct (cache_file_opens i); [right | now left].
    eexists. reflexivity.
Qed.

(** X8: in a run with at least one row the two files are written
    independently and the status is 0 either way: the cache file takes the
    cache of the loop whenever it opens, also when [latest.html] does not;
    [latest.html] takes the ranked rows, and is copied to the remote host,
    whenever it opens, also when the cache file does not. *)
Theorem report_and_cache_written_independently (i : run_input) (w : world)
  (universe : list string) (cache : list StockCache) (json_response : json) :
  reaches_transfer i w universe cache ->
  transfer i = Some json_response ->
  is_null json_response = false ->
  let st := process_universe (gmtime (eastern_time (now i))) json_response universe
              (mkLoopState cache []) in
  let page := mkReport (rank qsort (results st)) (gmtime (eastern_time (now i)))
                (timezone_abbr (gmtime (now i))) in
  results st <> [] ->
  exists w',
    main qsort i w = Exit 0 w'
    /\ previous_results_json w'
       = (if cache_file_opens i then Some (save_cache_document (g_cache st))
          else previous_results_json w)
    /\ latest_html w' = (if html_file_opens i then Some page else latest_html w)
    /\ scp_runs w'
       = (if html_file_opens i then scp_runs w ++ [page] else scp_runs w)%list.
Proof.
  intros Hreach Hfetch Hparsed st page Hsome.
  rewrite (main_at_transfer qsort i w universe cache Hreach), Hfetch, Hparsed.
  cbv zeta. fold st.
  destruct (results st) as [|r rs] eqn:Hres; [congruence|].
  assert (Hpos : (0 <? Z.of_nat (List.length (r :: rs))) = true)
    by (apply Z.ltb_lt; cbn [List.length]; lia).
  rewrite Hpos. eexists. split; [reflexivity|].
  subst page. rewrite <- Hres. apply publish_files.
Qed.

Lemma read_snapshot_absent est_time json_response sym :
  is_null (json_object_object_get_ex json_response sym) = true ->
  read_snapshot est_time json_response sym = None.
Proof. intros Hnull. unfold read_snapshot, nonnull. now rewrite Hnull. Qed.

Lemma process_universe_absent est_time json_response universe st :
  Forall (fun sym => is_null (json_object_object_get_ex json_response sym) = true)
    universe ->
  process_universe est_time json_response universe st = st.
Proof.
  unfold process_universe. induction 1 as [|sym universe Hsym _ IH]; cbn [fold_left];
    [reflexivity|].
  now rewrite process_symbol_skip by (now apply read_snapshot_absent).
Qed.

(** X9: a payload that parses but has none of the listed symbols as a
    member, such as the object of an error message, an array or a number,
    is not told apart from a quiet market: every symbol is skipped, nothing
    is written and [main] returns 0. *)
Theorem response_without_symbols (i : run_input) (w : world) (universe : list string)
  (cache : list StockCache) (json_response : json) :
  reaches_transfer i w universe cache ->
  transfer i = Some json_response ->
  is_null json_response = false ->
  Forall (fun sym => is_null (json_object_object_get_ex json_response sym) = true)
    universe ->
  main qsort i w = Exit 0 w.
Proof.
  intros Hreach Hfetch Hparsed Habsent.
  rewrite (main_at_transfer qsort i w universe cache Hreach), Hfetch, Hparsed.
  cbv zeta. now rewrite process_universe_absent.
Qed.

Lemma process_universe_symbols est_time json_response universe st :
  map symbol (results (process_universe est_time json_response universe st))
  = (map symbol (results st)
     ++ map copy_symbol (filter (passes est_time json_response) universe))%list.
Proof.
  unfold process_universe. revert st.
  induction universe as [|sym universe IH]; intros st; cbn [fold_left filter map].
  - now rewrite app_nil_r.
  - rewrite IH. unfold process_symbol, passes.
    destruct (read_snapshot est_time json_response sym) as [v|]; [|reflexivity].
    destruct (emit_result_row v sym st) as (row & -> & Hsym & _).
    cbn [map]. now rewrite map_app, <- app_assoc, <- Hsym.
Qed.

(** X10: the loop appends one row for each occurrence of a symbol that
    passes the checks, in the order of the list and under the symbol's
    first fifteen characters, and no other row; so [num_results] never
    exceeds the [num_symbols] rows that [results] was allocated for. *)
Theorem rows_follow_universe est_time json_response universe st :
  let st' := process_universe est_time json_response universe st in
  map symbol (results st')
  = (map symbol (results st)
     ++ map copy_symbol (filter (passes est_time json_response) universe))%list
  /\ (List.length (results st')
      <= List.length (results st) + List.length universe)%nat.
Proof.
  cbv zeta. split; [apply process_universe_symbols|].
  rewrite <- (length_map symbol), process_universe_symbols, length_app, !length_map.
  pose proof (filter_length_le (passes est_time json_response) universe). lia.
Qed.


End RunOutcomes.

Lemma failed_run_reaches_transfer (conv : StringConv) :
  reaches_transfer Examples.failed_run Examples.earlier_world ["NEW"]
    Examples.earlier_cache.
Proof. exists "key", "secret", "NEW", []. repeat split. Qed.

Lemma fetch_failure_aborts_witness :
  (forall conv : StringConv,
      reaches_transfer Examples.failed_run Examples.earlier_world ["NEW"]
        Examples.earlier_cache)
  /\ transfer Examples.failed_run = None
  /\ (forall (conv : StringConv) qsort,
        main qsort Examples.failed_run Examples.earlier_world
        = Exit 1 Examples.earlier_world).
Proof.
  split; [exact failed_run_reaches_transfer|]. split; [reflexivity|].
  intros conv qsort.
  exact (fetch_failure_aborts qsort Examples.failed_run Examples.earlier_world ["NEW"]
           Examples.earlier_cache (failed_run_reaches_transfer conv) eq_refl).
Defined.

Lemma config_error_aborts_witness :
  api_key_id Examples.no_credentials = None
  /\ (forall (conv : StringConv) qsort,
        main qsort Examples.no_credentials (mkWorld (Some (JInt 7)) None [])
        = Exit 1 (mkWorld (Some (JInt 7)) None [])).
Proof.
  split; [reflexivity|]. intros conv qsort.
  exact (config_error_aborts qsort Examples.no_credentials
           (mkWorld (Some (JInt 7)) None []) (or_introl eq_refl)).
Defined.

Lemma no_curl_handle_exits_zero_witness :
  curl Examples.no_handle = false
  /\ (forall (conv : StringConv) qsort,
        main qsort Examples.no_handle Examples.earlier_world
        = Exit 0 Examples.earlier_world).
Proof.
  split; [reflexivity|]. intros conv qsort.
  apply (no_curl_handle_exits_zero qsort Examples.no_handle Examples.earlier_world
           "key" "secret" "NEW" [] Examples.earlier_cache); reflexivity.
Defined.

Lemma response_without_symbols_witness :
  is_null Examples.error_body = false
  /\ Forall (fun sym =>
               is_null (json_object_object_get_ex Examples.error_body sym) = true)
       ["NEW"]
  /\ (forall (conv : StringConv) qsort,
        main qsort (Examples.run_with Examples.error_body) Examples.earlier_world
        = Exit 0 Examples.earlier_world).
Proof.
  assert (Habsent : Forall (fun sym =>
            is_null (json_object_object_get_ex Examples.error_body sym) = true)
                      ["NEW"])
    by (repeat constructor).
  split; [reflexivity|]. split; [exact Habsent|]. intros conv qsort.
  exact (response_without_symbols qsort (Examples.run_with Examples.error_body)
           Examples.earlier_world ["NEW"] Examples.earlier_cache Examples.error_body
           (earlier_run_reaches_transfer conv Examples.error_body)
           eq_refl eq_refl Habsent).
Defined.

Lemma unwritable_report_reaches_transfer (conv : StringConv) :
  reaches_transfer Examples.unwritable_report Examples.earlier_world ["NEW"]
    Examples.earlier_cache.
Proof. exists "key", "secret", "NEW", []. repeat split. Qed.

Lemma new_response_passes (conv : StringConv) :
  passes (gmtime (eastern_time 1710160200)) Examples.new_response "NEW" = true.
Proof. reflexivity. Qed.

Lemma new_response_row (conv : StringConv) :
  results (process_universe (gmtime (eastern_time 1710160200)) Examples.new_response
             ["NEW"] (mkLoopState Examples.earlier_cache [])) <> [].
Proof.
  pose proof (process_universe_symbols (gmtime (eastern_time 1710160200))
                Examples.new_response ["NEW"] (mkLoopState Examples.earlier_cache []))
    as Hsyms.
  cbn [filter] in Hsyms. rewrite new_response_passes in Hsyms.
  intros Hnil. rewrite Hnil in Hsyms. apply (f_equal (@List.length string)) in Hsyms.
  cbn [results map app List.length] in Hsyms. lia.
Qed.

Lemma report_and_cache_written_independently_witness :
  (forall conv : StringConv,
      reaches_transfer Examples.unwritable_report Examples.earlier_world ["NEW"]
        Examples.earlier_cache)
  /\ (forall (conv : StringConv) qsort,
        exists w',
          main qsort Examples.unwritable_report Examples.earlier_world = Exit 0 w'
          /\ previous_results_json w'
             = Some (save_cache_document
                       (g_cache (process_universe (gmtime (eastern_time 1710160200))
                                   Examples.new_response ["NEW"]
                                   (mkLoopState Examples.earlier_cache []))))
          /\ latest_html w' = None
          /\ scp_runs w' = []).
Proof.
  split; [exact unwritable_report_reaches_transfer|]. intros conv qsort.
  assert (Hfetch : transfer Examples.unwritable_report = Some Examples.new_response)
    by reflexivity.
  assert (Hparsed : is_null Examples.new_response = false) by reflexivity.
  exact (report_and_cache_written_independently qsort Examples.unwritable_report
           Examples.earlier_world ["NEW"] Examples.earlier_cache Examples.new_response
           (unwritable_report_reaches_transfer conv) Hfetch Hparsed
           (new_response_row conv)).
Defined.


(** ** The loop over the symbols and its cache *)

Section Loop.

Context {conv : StringConv}.

Lemma emit_result_observation (v : snapshot_values) (sym : string) (st1 st2 : loop_state) :
  map observation (results st1) = map observation (results st2) ->
  map observation (results (emit_result v sym st1))
  = map observation (results (emit_result v sym st2)).
Proof.
  intros Hsame. unfold emit_result.
  destruct (get_cached_values (g_cache st1) sym) as [[g1 v1] t1].
  destruct (get_cached_values (g_cache st2) sym) as [[g2 v2] t2].
  cbn [results]. rewrite !map_app, Hsame. reflexivity.
Qed.

(** X12: the cache bears on the three change fields only.  Two runs of the
    loop over the same response and list, started from any two caches, emit
    the same rows up to [gradient_change], [volume_change] and
    [trades_change]: the same symbols in the same order, with the same
    price, close, percent, gradients, volume and trades. *)
Theorem rows_independent_of_cache est_time json_response universe
  (cache1 cache2 : list StockCache) :
  map observation
    (results (process_universe est_time json_response universe
                (mkLoopState cache1 [])))
  = map observation
      (results (process_universe est_time json_response universe
                  (mkLoopState cache2 []))).
Proof.
  unfold process_universe.
  generalize (eq_refl (map observation (results (mkLoopState cache1 [])))).
  change (map observation (results (mkLoopState cache1 [])))
    with (map observation (results (mkLoopState cache2 []))) at 2.
  generalize (mkLoopState cache1 []) as st1, (mkLoopState cache2 []) as st2.
  induction universe as [|sym universe IH]; intros st1 st2 Hsame; cbn [fold_left];
    [exact Hsame|].
  apply IH. unfold process_symbol.
  destruct (read_snapshot est_time json_response sym) as [v|]; [|exact Hsame].
  now apply emit_result_observation.
Qed.

Lemma sub_self (z : Z) : CInt.sub z z = 0.
Proof. unfold CInt.sub. now rewrite Z.sub_diag. Qed.

Lemma update_cache_hit_same (c : list StockCache) sym g v t :
  get_cached_values c sym = (g, v, t) -> cache_has c sym = true ->
  update_cache_hit c sym g v t = Some c.
Proof.
  induction c as [|e c IH]; cbn; [discriminate|].
  destruct (String.eqb (cache_symbol e) sym); cbn.
  - intros [= <- <- <-] _. now destruct e.
  - intros Hget Hhas. now rewrite IH.
Qed.

Lemma update_cache_hit_has (c c' : list StockCache) sym g v t :
  update_cache_hit c sym g v t = Some c' -> cache_has c' sym = true.
Proof.
  revert c'. induction c as [|e c IH]; intros c' Hhit; cbn in Hhit; [discriminate|].
  destruct (String.eqb (cache_symbol e) sym) eqn:E.
  - injection Hhit as <-. cbn. now rewrite E.
  - destruct (update_cache_hit c sym g v t) as [c1|]; [|discriminate].
    injection Hhit as <-. unfold cache_has. cbn [existsb]. rewrite E.
    exact (IH c1 eq_refl).
Qed.

Lemma cache_has_after_update (c : list StockCache) sym g v t :
  cache_has c sym = true
  \/ (g_cache_count c < MAX_SYMBOLS /\ (String.length sym <= 15)%nat) ->
  cache_has (update_cache c sym g v t) sym = true.
Proof.
  intros Hroom. unfold update_cache.
  destruct (update_cache_hit c sym g v t) as [c'|] eqn:Hhit;
    [now apply (update_cache_hit_has c c' sym g v t)|].
  destruct Hroom as [Hhas | [Hlt Hshort]].
  - destruct (update_cache_hit_some c sym g v t Hhas) as (c' & Hsome & _).
    congruence.
  - apply Z.ltb_lt in Hlt. rewrite Hlt.
    unfold cache_has. rewrite existsb_app. cbn.
    rewrite copy_symbol_short, String.eqb_refl by exact Hshort.
    now rewrite orb_true_r.
Qed.

(** X13: a symbol that the list names twice in a row, and that the cache
    can hold, gets two rows; the second is measured against what the first
    has just stored, so its volume and trades changes are 0, and the second
    update leaves the cache as the first left it. *)
Theorem repeated_symbol_changes est_time json_response (sym : string)
  (st : loop_state) (v : snapshot_values) :
  read_snapshot est_time json_response sym = Some v ->
  cache_has (g_cache st) sym = true
  \/ (g_cache_count (g_cache st) < MAX_SYMBOLS /\ (String.length sym <= 15)%nat) ->
  let once := process_universe est_time json_response [sym] st in
  let twice := process_universe est_time json_response [sym; sym] st in
  exists row,
    results twice = (results once ++ [row])%list
    /\ volume_change row = 0
    /\ trades_change row = 0
    /\ g_cache twice = g_cache once.
Proof.
  intros Hread Hroom once twice. subst once twice. unfold process_universe.
  cbn [fold_left]. rewrite !(process_symbol_emit _ _ _ _ _ Hread).
  set (st1 := emit_result v sym st).
  assert (Hcache : g_cache st1
                   = update_cache (g_cache st) sym (gradient_recent_of v)
                       (minute_volume v) (minute_trades v)).
  { subst st1. unfold emit_result.
    now destruct (get_cached_values (g_cache st) sym) as [[pg pv] pt]. }
  assert (Hget : get_cached_values (g_cache st1) sym
                 = (gradient_recent_of v, minute_volume v, minute_trades v))
    by (rewrite Hcache; now apply get_after_update).
  assert (Hhas : cache_has (g_cache st1) sym = true)
    by (rewrite Hcache; now apply cache_has_after_update).
  destruct (emit_result_changes v sym st1) as (row & Hres & _ & Hdv & Hdt).
  exists row. rewrite Hget in Hdv, Hdt. cbn [fst snd] in Hdv, Hdt.
  rewrite sub_self in Hdv, Hdt. repeat split; try assumption.
  unfold emit_result at 1. rewrite Hget. cbn [g_cache].
  unfold update_cache. now rewrite (update_cache_hit_same _ _ _ _ _ Hget Hhas).
Qed.

(** X14: the cache is a map from symbols to observations.  After
    [update_cache] for a symbol that the cache holds, or has room for and
    can store whole, [get_cached_values] gives the new observation for that
    symbol and what it gave before for every other symbol. *)
Theorem update_then_get (c : list StockCache) (sym : string) (g : float) (v t : Z)
  (other : string) :
  cache_has c sym = true
  \/ (g_cache_count c < MAX_SYMBOLS /\ (String.length sym <= 15)%nat) ->
  get_cached_values (update_cache c sym g v t) other
  = if String.eqb other sym then (g, v, t) else get_cached_values c other.
Proof.
  intros Hroom. destruct (String.eqb_spec other sym) as [-> | Hne].
  - now apply get_after_update.
  - destruct (cache_has c sym) eqn:Hhas.
    + unfold update_cache.
      destruct (update_cache_hit_some c sym g v t Hhas) as (c' & Hhit & _).
      rewrite Hhit. apply (update_cache_hit_other c c' sym g v t other Hhit).
      congruence.
    + destruct Hroom as [Habs | [_ Hshort]]; [discriminate|].
      apply update_cache_other; [congruence|].
      rewrite copy_symbol_short by exact Hshort. congruence.
Qed.

Lemma update_cache_hit_symbols (c c' : list StockCache) sym g v t :
  update_cache_hit c sym g v t = Some c' ->
  map cache_symbol c' = map cache_symbol c.
Proof.
  revert c'. induction c as [|e c IH]; intros c' Hhit; cbn in Hhit; [discriminate|].
  destruct (String.eqb (cache_symbol e) sym).
  - now injection Hhit as <-.
  - destruct (update_cache_hit c sym g v t) as [c1|]; [|discriminate].
    injection Hhit as <-. cbn. now rewrite (IH c1 eq_refl).
Qed.

Lemma update_cache_nodup (c : list StockCache) sym g v t :
  (String.length sym <= 15)%nat -> NoDup (map cache_symbol c) ->
  NoDup (map cache_symbol (update_cache c sym g v t)).
Proof.
  intros Hshort Hnodup. unfold update_cache.
  destruct (update_cache_hit c sym g v t) as [c'|] eqn:Hhit.
  - now rewrite (update_cache_hit_symbols c c' sym g v t Hhit).
  - destruct (g_cache_count c <? MAX_SYMBOLS); [|exact Hnodup].
    rewrite map_app. cbn [map cache_symbol].
    rewrite copy_symbol_short by exact Hshort.
    apply NoDup_app; [exact Hnodup | repeat constructor; intros [] |].
    intros k Hk [<- | []]. apply in_map_iff in Hk as (e & He & Hin).
    destruct (cache_has c sym) eqn:Hhas.
    + destruct (update_cache_hit_some c sym g v t Hhas) as (c' & Hsome & _).
      congruence.
    + assert (Htrue : cache_has c sym = true)
        by (apply existsb_exists; exists e; split;
            [exact Hin | now apply String.eqb_eq]).
      congruence.
Qed.

(** While no listed symbol is longer than the fifteen characters an entry
    stores, the loop keeps the cache at one entry per symbol. *)
Lemma process_universe_nodup est_time json_response (universe : list string)
  (st : loop_state) :
  Forall (fun sym => (String.length sym <= 15)%nat) universe ->
  NoDup (map cache_symbol (g_cache st)) ->
  NoDup (map cache_symbol
           (g_cache (process_universe est_time json_response universe st))).
Proof.
  unfold process_universe. intros Hshort. revert st.
  induction Hshort as [|sym universe Hsym _ IH]; intros st Hnodup; cbn [fold_left];
    [exact Hnodup|].
  apply IH. unfold process_symbol.
  destruct (read_snapshot est_time json_response sym) as [v|]; [|exact Hnodup].
  unfold emit_result.
  destruct (get_cached_values (g_cache st) sym) as [[pg pv] pt]. cbn [g_cache].
  now apply update_cache_nodup.
Qed.

(** X15: over a list that [read_symbol_list] returned, the loop keeps the
    cache at one entry per symbol: every listed symbol is stored whole, so
    [update_cache] finds the entry it appended for it. *)
Theorem one_entry_per_symbol (file : option string) (universe : list string)
  est_time json_response (st : loop_state) :
  read_symbol_list file = Some universe ->
  NoDup (map cache_symbol (g_cache st)) ->
  NoDup (map cache_symbol
           (g_cache (process_universe est_time json_response universe st))).
Proof.
  intros (_ & _ & Hall)%read_symbol_list_listed.
  apply process_universe_nodup.
  apply Forall_forall. intros sym Hin.
  apply (proj1 (forallb_forall _ _) Hall) in Hin.
  unfold listed_symbol in Hin. apply andb_prop in Hin as [Hfits _].
  apply symbol_fits_length in Hfits. lia.
Qed.

Lemma update_cache_symbols (c : list StockCache) sym g v t :
  exists added,
    map cache_symbol (update_cache c sym g v t) = (map cache_symbol c ++ added)%list
    /\ incl added [copy_symbol sym].
Proof.
  unfold update_cache.
  destruct (update_cache_hit c sym g v t) as [c'|] eqn:Hhit.
  - exists []. rewrite app_nil_r. split;
      [now apply (update_cache_hit_symbols c c' sym g v t) | intros x []].
  - destruct (g_cache_count c <? MAX_SYMBOLS).
    + exists [copy_symbol sym]. rewrite map_app. split; [reflexivity | apply incl_refl].
    + exists []. rewrite app_nil_r. split; [reflexivity | intros x []].
Qed.

Lemma process_symbol_cache est_time json_response (st : loop_state) (sym : string) :
  exists added,
    map cache_symbol (g_cache (process_symbol est_time json_response st sym))
    = (map cache_symbol (g_cache st) ++ added)%list
    /\ incl added (map copy_symbol (filter (passes est_time json_response) [sym])).
Proof.
  unfold process_symbol, passes. cbn [filter].
  destruct (read_snapshot est_time json_response sym) as [v|].
  - unfold emit_result.
    destruct (get_cached_values (g_cache st) sym) as [[pg pv] pt]. cbn [g_cache].
    apply update_cache_symbols.
  - exists []. rewrite app_nil_r. split; [reflexivity | intros x []].
Qed.

(** X16: the loop never removes or moves a cache entry.  The symbols of the
    cache behind the loop are those before it, in their places, followed by
    new ones, each of them (the first fifteen characters of) a listed
    symbol that passed the checks; the entries of symbols that are listed
    no more stay where they are. *)
Theorem cache_only_grows est_time json_response (universe : list string)
  (st : loop_state) :
  exists added,
    map cache_symbol (g_cache (process_universe est_time json_response universe st))
    = (map cache_symbol (g_cache st) ++ added)%list
    /\ incl added (map copy_symbol (filter (passes est_time json_response) universe)).
Proof.
  unfold process_universe. revert st.
  induction universe as [|sym universe IH]; intros st; cbn [fold_left].
  - exists []. rewrite app_nil_r. split; [reflexivity | intros x []].
  - destruct (IH (process_symbol est_time json_response st sym))
      as (added & Heq & Hincl).
    destruct (process_symbol_cache est_time json_response st sym)
      as (first & Hfirst & Hin).
    exists (first ++ added)%list. rewrite Heq, Hfirst, <- app_assoc.
    split; [reflexivity|].
    change (sym :: universe) with ([sym] ++ universe)%list.
    rewrite filter_app, map_app. apply incl_app;
      [now apply incl_appl | now apply incl_appr].
Qed.

(** X17: [init_cache_from_file] appends to the cache, in the order of the
    document, the entries of the members that have all of
    [gradient_recent], [volume] and [trades], under the first fifteen
    characters of their names, until the cache holds [MAX_SYMBOLS] entries;
    a member that lacks one of the three is passed over, and members beyond
    the capacity are dropped. *)
Theorem init_cache_entries_spec (pairs : list (string * json)) (acc : list StockCache) :
  init_cache_entries pairs acc
  = (acc ++ firstn (Z.to_nat MAX_SYMBOLS - List.length acc)
              (map entry_of (filter (fun pair => complete_entry (snd pair)) pairs)))%list.
Proof.
  revert acc. induction pairs as [|[sym val] pairs IH]; intros acc;
    cbn [init_cache_entries filter map snd].
  - now rewrite firstn_nil, app_nil_r.
  - unfold g_cache_count.
    destruct (Z.ltb_spec (Z.of_nat (List.length acc)) MAX_SYMBOLS) as [Hlt | Hge].
    + fold (complete_entry val). destruct (complete_entry val); rewrite IH;
        [|reflexivity].
      rewrite length_app, <- app_assoc. cbn [List.length app map].
      replace (Z.to_nat MAX_SYMBOLS - List.length acc)%nat
        with (S (Z.to_nat MAX_SYMBOLS - (List.length acc + 1)))%nat by lia.
      reflexivity.
    + replace (Z.to_nat MAX_SYMBOLS - List.length acc)%nat with 0%nat by lia.
      now rewrite app_nil_r.
Qed.

End Loop.

Lemma repeated_symbol_changes_witness :
  (forall conv : StringConv,
      read_snapshot Examples.premarket_tm Examples.new_response "NEW"
      = Some (mkSnapshotValues 75 101 100 4000 100))
  /\ cache_has Examples.earlier_cache "NEW" = true
  /\ (forall conv : StringConv,
        let st := mkLoopState Examples.earlier_cache [] in
        exists row,
          results (process_universe Examples.premarket_tm Examples.new_response
                     ["NEW"; "NEW"] st)
          = (results (process_universe Examples.premarket_tm Examples.new_response
                        ["NEW"] st) ++ [row])%list
          /\ volume_change row = 0
          /\ trades_change row = 0).
Proof.
  split; [intros conv; reflexivity|]. split; [reflexivity|].
  intros conv st.
  assert (Hread : read_snapshot Examples.premarket_tm Examples.new_response "NEW"
                  = Some (mkSnapshotValues 75 101 100 4000 100)) by reflexivity.
  assert (Hhas : cache_has (g_cache st) "NEW" = true) by reflexivity.
  destruct (repeated_symbol_changes Examples.premarket_tm Examples.new_response
              "NEW" st _ Hread (or_introl Hhas)) as (row & Hres & Hdv & Hdt & _).
  exists row. now repeat split.
Defined.

Lemma update_then_get_witness :
  cache_has Examples.earlier_cache "NEW" = true
  /\ get_cached_values (update_cache Examples.earlier_cache "NEW" 1 4000 75) "NEW"
     = (1%float, 4000, 75)
  /\ get_cached_values (update_cache Examples.earlier_cache "NEW" 1 4000 75) "OLD"
     = (0%float, 0, 0).
Proof.
  assert (Hhas : cache_has Examples.earlier_cache "NEW" = true) by reflexivity.
  split; [exact Hhas|]. split.
  - exact (update_then_get Examples.earlier_cache "NEW" 1 4000 75 "NEW"
             (or_introl Hhas)).
  - exact (update_then_get Examples.earlier_cache "NEW" 1 4000 75 "OLD"
             (or_introl Hhas)).
Defined.

Lemma one_entry_per_symbol_witness :
  read_symbol_list (Some "new") = Some ["NEW"]
  /\ NoDup (map cache_symbol Examples.earlier_cache)
  /\ (forall conv : StringConv,
        NoDup (map cache_symbol
                 (g_cache (process_universe Examples.premarket_tm
                             Examples.new_response ["NEW"]
                             (mkLoopState Examples.earlier_cache []))))).
Proof.
  assert (Hread : read_symbol_list (Some "new") = Some ["NEW"]) by reflexivity.
  assert (Hnodup : NoDup (map cache_symbol Examples.earlier_cache))
    by (repeat constructor; intros []).
  split; [exact Hread|]. split; [exact Hnodup|]. intros conv.
  exact (one_entry_per_symbol (Some "new") ["NEW"] Examples.premarket_tm
           Examples.new_response (mkLoopState Examples.earlier_cache []) Hread Hnodup).
Defined.

(** ** The request URL *)




Lemma url_length_upper (hi : Z) (universe : list string) :
  Forall (fun s => strlen s <= hi) universe ->
  url_length universe <= 55 + (hi + 1) * Z.of_nat (List.length universe).
Proof.
  intros Hall. unfold url_length. change (strlen url_prefix) with 56.
  assert (Hsum : fold_right (fun s n => strlen s + n) 0 universe
                 <= hi * Z.of_nat (List.length universe)).
  { induction Hall as [|s universe Hs _ IH]; cbn [fold_right List.length]; [lia|].
    rewrite Nat2Z.inj_succ, !Z.mul_succ_r. lia. }
  lia.
Qed.

Lemma url_length_lower (lo : Z) (universe : list string) :
  Forall (fun s => lo <= strlen s) universe ->
  55 + (lo + 1) * Z.of_nat (List.length universe) <= url_length universe.
Proof.
  intros Hall. unfold url_length. change (strlen url_prefix) with 56.
  assert (Hsum : lo * Z.of_nat (List.length universe)
                 <= fold_right (fun s n => strlen s + n) 0 universe).
  { induction Hall as [|s universe Hs _ IH]; cbn [fold_right List.length]; [lia|].
    rewrite Nat2Z.inj_succ, !Z.mul_succ_r. lia. }
  lia.
Qed.

Lemma listed_symbols_short (symbols : list string) :
  forallb listed_symbol symbols = true ->
  Forall (fun s => strlen s <= 14) symbols.
Proof.
  intros Hall. apply Forall_forall. intros s Hin.
  apply (proj1 (forallb_forall _ _) Hall) in Hin.
  unfold listed_symbol in Hin. apply andb_prop in Hin as [Hfits _].
  apply symbol_fits_length in Hfits. unfold strlen. lia.
Qed.

(** X19: a list file that yields at most 4365 symbols gives a URL that
    fits [url_buffer] with its NUL, whatever the symbols are: each has at
    most 14 characters. *)
Theorem listed_universe_fits (file : option string) (universe : list string) :
  read_symbol_list file = Some universe ->
  Z.of_nat (List.length universe) <= 4365 ->
  url_length universe < MAX_URL_LENGTH.
Proof.
  intros (_ & _ & Hall)%read_symbol_list_listed Hcount.
  pose proof (url_length_upper 14 universe (listed_symbols_short universe Hall)).
  unfold MAX_URL_LENGTH. lia.
Qed.

Lemma listed_universe_fits_witness :
  read_symbol_list (Some Examples.list_file) = Some ["AAPL"; "MSFT"; "BRK.B"; "TSLA"]
  /\ url_length ["AAPL"; "MSFT"; "BRK.B"; "TSLA"] < MAX_URL_LENGTH.
Proof.
  assert (Hread : read_symbol_list (Some Examples.list_file)
                  = Some ["AAPL"; "MSFT"; "BRK.B"; "TSLA"]) by reflexivity.
  split; [exact Hread|].
  apply (listed_universe_fits _ _ Hread). cbn. lia.
Defined.

Section Overflow.

Context {conv : StringConv}.
Variable qsort :
  list StockResult -> (StockResult -> StockResult -> Z) -> list StockResult.

(** X20: the list may hold more than the URL buffer does.  When the
    symbols, of at least [lo] characters each, are so many that
    [55 + (lo + 1) * num_symbols] reaches [MAX_URL_LENGTH], as 13097
    four-letter symbols do, the [strcat] loop writes past [url_buffer]: the
    behaviour of the run is undefined, though the list is within
    [MAX_SYMBOLS]. *)
Theorem long_universe_overflows (i : run_input) (w : world) (key secret : string)
  (universe : list string) (cache : list StockCache) (lo : Z) :
  api_key_id i = Some key -> secret_key_id i = Some secret ->
  symbol_list i = Some universe ->
  Z.of_nat (List.length universe) <= MAX_SYMBOLS ->
  Forall (fun s => lo <= strlen s) universe ->
  MAX_URL_LENGTH <= 55 + (lo + 1) * Z.of_nat (List.length universe) ->
  init_cache_from_file (previous_results_json w) [] = Some cache ->
  curl i = true ->
  main qsort i w = Undefined.
Proof.
  intros Hkey Hsecret Hlist Hcount Hlo Hbig Hcache Hcurl.
  pose proof (url_length_lower lo universe Hlo) as Hlow.
  assert (Hfits : request_fits key secret universe = false).
  { unfold request_fits.
    assert (Hlen : (url_length universe <? MAX_URL_LENGTH) = false)
      by (apply Z.ltb_ge; lia).
    now rewrite Hlen. }
  unfold main. rewrite Hkey, Hsecret, Hlist.
  destruct universe as [|first others];
    [cbn [List.length] in Hbig; unfold MAX_URL_LENGTH in Hbig; lia|].
  rewrite firstn_all2 by lia. now rewrite Hcache, Hcurl, Hfits.
Qed.

End Overflow.

Lemma long_universe_length :
  Z.of_nat (List.length Examples.long_universe) = MAX_SYMBOLS.
Proof.
  unfold Examples.long_universe. rewrite length_map, length_seq.
  apply Z2Nat.id. unfold MAX_SYMBOLS. lia.
Qed.

Lemma long_universe_symbols : Forall (fun s => 4 <= strlen s) Examples.long_universe.
Proof.
  apply Forall_forall. intros s (k & <- & _)%in_map_iff. unfold strlen. cbn. lia.
Qed.

Lemma long_universe_overflows_witness :
  Z.of_nat (List.length Examples.long_universe) <= MAX_SYMBOLS
  /\ Forall (fun s => 4 <= strlen s) Examples.long_universe
  /\ MAX_URL_LENGTH <= 55 + (4 + 1) * Z.of_nat (List.length Examples.long_universe)
  /\ (forall (conv : StringConv) qsort,
        main qsort Examples.long_run (mkWorld None None []) = Undefined).
Proof.
  assert (Hcount : Z.of_nat (List.length Examples.long_universe) <= MAX_SYMBOLS)
    by (rewrite long_universe_length; lia).
  assert (Hbig : MAX_URL_LENGTH
                 <= 55 + (4 + 1) * Z.of_nat (List.length Examples.long_universe))
    by (rewrite long_universe_length; unfold MAX_URL_LENGTH, MAX_SYMBOLS; lia).
  split; [exact Hcount|]. split; [exact long_universe_symbols|].
  split; [exact Hbig|]. intros conv qsort.
  assert (Hlist : symbol_list Examples.long_run = Some Examples.long_universe)
    by reflexivity.
  exact (long_universe_overflows qsort Examples.long_run (mkWorld None None [])
           "key" "secret" Examples.long_universe [] 4
           eq_refl eq_refl Hlist Hcount long_universe_symbols Hbig eq_refl eq_refl).
Defined.

(** ** The response body *)

(** X21: [WriteMemoryCallback] puts the body together whatever the pieces
    libcurl delivers it in.  From a buffer whose [size] is the length of
    its [memory], a transfer that is not given up leaves the pieces one
    after the other behind what the buffer held, with [size] again the
    length; a transfer is given up only for a piece that is not empty and
    whose [realloc] fails, never when every [realloc] succeeds. *)
Theorem receive_reassembles (pieces : list (string * bool)) (mem : MemoryStruct) :
  size mem = strlen (memory mem) ->
  match receive pieces mem with
  | Some mem' =>
      memory mem' = memory mem ++ strcat_all (map fst pieces)
      /\ size mem' = strlen (memory mem')
  | None => exists contents, In (contents, false) pieces /\ contents <> EmptyString
  end
  /\ (forallb snd pieces = true -> receive pieces mem <> None).
Proof.
  revert mem. induction pieces as [|[contents ok] pieces IH]; intros mem Hsize.
  - cbn. rewrite string_app_nil_r. repeat split; [exact Hsize | discriminate].
  - destruct ok;
      cbn [receive map fst strcat_all fold_right forallb snd andb];
      unfold WriteMemoryCallback; cbv zeta iota beta.
    + rewrite Z.eqb_refl.
      destruct (IH (mkMemoryStruct (memory mem ++ contents)
                      (size mem + strlen contents))) as [IH1 IH2].
      { cbn [size memory]. rewrite strlen_app. lia. }
      split; [|exact IH2].
      destruct (receive pieces _) as [mem'|].
      * cbn [memory] in IH1. destruct IH1 as [-> ->].
        now rewrite string_app_assoc.
      * destruct IH1 as (c & Hin & Hne). exists c. split; [now right | exact Hne].
    + split; [|discriminate].
      destruct (Z.eqb_spec 0 (strlen contents)) as [Hzero | Hpos].
      * assert (contents = EmptyString) as ->
          by (destruct contents;
              [reflexivity | unfold strlen in Hzero; cbn in Hzero; lia]).
        destruct (IH mem Hsize) as [IH1 _].
        destruct (receive pieces mem) as [mem'|]; [exact IH1|].
        destruct IH1 as (c & Hin & Hne). exists c. split; [now right | exact Hne].
      * exists contents. split; [now left|]. intros ->. now apply Hpos.
Qed.

Lemma receive_reassembles_witness :
  size (mkMemoryStruct EmptyString 0) = strlen (memory (mkMemoryStruct EmptyString 0))
  /\ receive [("{'NEW'", true); (": 1}", true)] (mkMemoryStruct EmptyString 0)
     = Some (mkMemoryStruct "{'NEW': 1}" 10)
  /\ receive [("{'NEW'", true); (": 1}", false)] (mkMemoryStruct EmptyString 0)
     = None
  /\ receive [("{'NEW'", true); (": 1}", true)] (mkMemoryStruct EmptyString 0)
     <> None.
Proof.
  split; [reflexivity|]. split; [reflexivity|]. split; [reflexivity|].
  exact (proj2 (receive_reassembles [("{'NEW'", true); (": 1}", true)]
                  (mkMemoryStruct EmptyString 0) eq_refl) eq_refl).
Defined.

(** ** The table of the report *)

Section Table.

Variable snprintf_row : string -> StockResult -> option string.

Lemma table_rows_fit (results : list StockResult) (table_buffer_size : Z)
  (table_buffer : string) :
  strlen table_buffer + row_buffer_size * Z.of_nat (List.length results)
  < table_buffer_size ->
  table_rows snprintf_row results table_buffer_size table_buffer
  = table_buffer ++ strcat_all (flat_map (fitting_row snprintf_row) results)
  /\ strlen (table_rows snprintf_row results table_buffer_size table_buffer)
     < table_buffer_size.
Proof.
  revert table_buffer. unfold row_buffer_size.
  induction results as [|r results IH]; intros table_buffer Hroom.
  - cbn. rewrite string_app_nil_r. cbn in Hroom. split; [reflexivity | lia].
  - cbn [table_rows flat_map]. unfold fitting_row at 1.
    cbn [List.length] in Hroom. rewrite Nat2Z.inj_succ in Hroom.
    destruct (snprintf_row (row_class r) r) as [row|]; [|apply IH; lia].
    assert (Hneg : (strlen row <? 0) = false)
      by (apply Z.ltb_ge; unfold strlen; lia).
    rewrite Hneg. cbn [orb]. unfold row_buffer_size.
    destruct (Z.ltb_spec (strlen row) 1024) as [Hfit | Hlong].
    + assert (Hle : (1024 <=? strlen row) = false) by (apply Z.leb_gt; lia).
      rewrite Hle.
      assert (Hbreak : (table_buffer_size <=? strlen table_buffer + strlen row) = false)
        by (apply Z.leb_gt; lia).
      rewrite Hbreak.
      destruct (IH (table_buffer ++ row)) as [IH1 IH2];
        [rewrite strlen_app; lia|].
      split; [|exact IH2]. rewrite IH1. cbn [app strcat_all fold_right].
      now rewrite string_app_assoc.
    + assert (Hle : (1024 <=? strlen row) = true) by (apply Z.leb_le; lia).
      rewrite Hle. apply IH. lia.
Qed.

(** X22: the table of [generate_html] holds, in the order of the ranking,
    the text of every row that [snprintf] could write into the 1024-byte
    row buffer, and of no other row; it stays within the
    [1024 * (num_results + 1)] bytes allocated for it, and the [break] that
    guards the table buffer is never taken. *)
Theorem table_holds_every_fitting_row (results : list StockResult) :
  table snprintf_row results
  = strcat_all (flat_map (fitting_row snprintf_row) results)
  /\ strlen (table snprintf_row results)
     < row_buffer_size * (Z.of_nat (List.length results) + 1).
Proof.
  unfold table.
  destruct (table_rows_fit results
              (row_buffer_size * (Z.of_nat (List.length results) + 1)) EmptyString)
    as [H1 H2]; [unfold row_buffer_size, strlen; cbn [String.length]; lia|].
  split; [exact H1 | exact H2].
Qed.

End Table.

(** ** The symbol list and the run *)

Lemma fgets_read_full (room : nat) (pre rest : string) :
  all_chars (fun c => negb (Ascii.eqb c LF)) pre = true ->
  String.length pre = room ->
  fgets_read room (pre ++ rest) = (pre, rest).
Proof.
  revert room. induction pre as [|c pre IH]; intros room Hpre Hlen.
  - cbn in Hlen. subst room. now destruct rest.
  - destruct room; [discriminate|].
    cbn [all_chars] in Hpre. apply andb_prop in Hpre as [Hc Hpre].
    apply negb_true_iff in Hc. cbn [append fgets_read]. rewrite Hc.
    rewrite IH; [reflexivity | exact Hpre | cbn in Hlen; lia].
Qed.

Lemma fgets_lines_long (head tail : string) :
  String.length head = 255%nat -> all_chars text_char head = true ->
  text_line tail = true ->
  fgets_lines (head ++ tail ++ newline) = [head; tail ++ newline].
Proof.
  intros Hlen Hhead Htail.
  rewrite fgets_lines_step.
  assert (Hfirst : fgets 256 (head ++ tail ++ newline)
                   = Some (head, tail ++ newline)).
  { unfold fgets. destruct (head ++ tail ++ newline) eqn:Hstream;
      [destruct head; discriminate|].
    rewrite <- Hstream. f_equal.
    apply fgets_read_full; [now apply text_char_not_LF | exact Hlen]. }
  rewrite Hfirst. f_equal.
  pose proof (fgets_lines_text newline [tail] EmptyString (or_introl eq_refl)) as Hrest.
  cbn [text_of fold_right forallb buffers_of map app] in Hrest.
  rewrite !string_app_nil_r in Hrest. apply Hrest; [|reflexivity].
  now rewrite Htail.
Qed.

(** X23: a line longer than the 255 characters one [fgets] takes is read
    in pieces, and what follows the 255th character is taken for a line of
    its own: its first word is stored as a symbol when it has from 1 to 14
    characters, although it begins no line of the file. *)
Theorem long_line_is_split (head tail : string) :
  String.length head = 255%nat -> all_chars text_char head = true ->
  text_line tail = true ->
  read_symbol_list (Some (head ++ tail ++ newline))
  = match map upcase (filter symbol_fits (first_word head ++ first_word tail)) with
    | [] => None
    | symbols => Some symbols
    end.
Proof.
  intros Hlen Hhead Htail.
  assert (Hbody : all_chars text_char tail = true)
    by (unfold text_line in Htail; now apply andb_prop in Htail as [_ H]).
  assert (Hnl : line_end newline) by (right; now left).
  assert (Hnone : line_end EmptyString) by now left.
  pose proof (loaded_line head EmptyString Hhead Hnone) as Hl1.
  pose proof (counted_line head EmptyString Hhead Hnone) as Hc1.
  pose proof (line_end_text head EmptyString Hhead Hnone) as Ht1.
  rewrite string_app_nil_r in Hl1, Hc1, Ht1.
  pose proof (loaded_line tail newline Hbody Hnl) as Hl2.
  pose proof (counted_line tail newline Hbody Hnl) as Hc2.
  pose proof (line_end_text tail newline Hbody Hnl) as Ht2.
  set (syms := map upcase (filter symbol_fits (first_word head ++ first_word tail))).
  rewrite (read_symbol_list_buffers _ syms).
  - rewrite firstn_all2; [reflexivity|].
    subst syms. rewrite length_map.
    pose proof (filter_length_le symbol_fits (first_word head ++ first_word tail))
      as Hle.
    rewrite length_app in Hle.
    assert (Hone : forall l, (List.length (first_word l) <= 1)%nat)
      by (intros l; unfold first_word; destruct (strtok l blank); cbn; lia).
    pose proof (Hone head). pose proof (Hone tail).
    unfold MAX_SYMBOLS. lia.
  - rewrite fgets_lines_long by assumption. cbn [map]. rewrite Ht1, Ht2.
    unfold symbols_of. cbn [flat_map]. rewrite Hl1, Hl2, app_nil_r.
    subst syms. now rewrite filter_app, map_app.
  - rewrite fgets_lines_long by assumption. cbn [map]. rewrite Ht1, Ht2.
    subst syms. rewrite length_map, filter_app, length_app, <- Hc1, <- Hc2.
    cbn [filter]. destruct (counted head), (counted (tail ++ newline)); reflexivity.
Qed.

Lemma long_line_is_split_witness :
  String.length Examples.long_word = 255%nat
  /\ all_chars text_char Examples.long_word = true
  /\ text_line "abc" = true
  /\ read_symbol_list (Some (Examples.long_word ++ "abc" ++ newline)) = Some ["ABC"].
Proof.
  assert (Hlen : String.length Examples.long_word = 255%nat) by reflexivity.
  assert (Hchars : all_chars text_char Examples.long_word = true) by reflexivity.
  split; [exact Hlen|]. split; [exact Hchars|]. split; [reflexivity|].
  exact (long_line_is_split Examples.long_word "abc" Hlen Hchars eq_refl).
Defined.

(** X28: the two passes do not read a line alike.  The first takes a CR for
    a blank before the first word; the second cuts the line at its first
    CR.  A line that begins with a CR is therefore counted for its first
    word and yields no symbol, and a file of that one line gives NULL
    through the check behind the second pass. *)
Theorem leading_cr_line (body : string) :
  text_line body = true ->
  let text := String CR (body ++ newline) in
  count_symbols (map c_str (fgets_lines text)) 0
  = Z.of_nat (List.length (filter symbol_fits (first_word body)))
  /\ read_symbol_list (Some text) = None.
Proof.
  intros Hline text.
  assert (Hbody : all_chars text_char body = true)
    by (unfold text_line in Hline; now apply andb_prop in Hline as [_ H]).
  assert (Hlen : (String.length body <= 253)%nat)
    by (unfold text_line in Hline; apply andb_prop in Hline as [H _];
        now apply Nat.leb_le).
  assert (Hnl : line_end newline) by (right; now left).
  assert (Hlines : fgets_lines text = [text]).
  { rewrite fgets_lines_step. unfold fgets. subst text.
    change (String CR (body ++ newline))
      with ((String CR body) ++ String LF EmptyString).
    destruct (String CR body ++ String LF EmptyString) eqn:Hstream; [discriminate|].
    rewrite <- Hstream.
    rewrite (fgets_read_line (256 - 1) (String CR body) EmptyString);
      [now rewrite fgets_lines_step
      | cbn [all_chars]; now rewrite (text_char_not_LF body Hbody)
      | cbn [String.length]; lia]. }
  assert (Hstr : c_str text = text).
  { subst text. cbn [c_str]. change (Ascii.eqb CR NUL) with false. cbv iota.
    now rewrite (line_end_text body newline Hbody Hnl). }
  assert (Hcounted : counted text = counted (body ++ newline)).
  { subst text. unfold counted, strtok. cbn [skip_span].
    change (strchr blank_or_eol CR) with true. cbv iota.
    assert (H1 : (0 <? strlen (String CR (body ++ newline))) = true)
      by (apply Z.ltb_lt; unfold strlen; cbn [String.length]; lia).
    assert (H2 : (0 <? strlen (body ++ newline)) = true)
      by (apply Z.ltb_lt; rewrite strlen_app; unfold strlen;
          cbn [String.length newline]; lia).
    now rewrite H1, H2. }
  assert (Hloaded : loaded text = None) by (subst text; reflexivity).
  unfold read_symbol_list. cbv zeta. rewrite Hlines. cbn [map]. rewrite Hstr.
  cbn [count_symbols load_symbols List.length].
  change (0 <? MAX_SYMBOLS) with true. cbv iota.
  rewrite Hcounted, Hloaded.
  pose proof (counted_line body newline Hbody Hnl) as Hc.
  destruct (counted (body ++ newline)); rewrite <- Hc; cbn; split; reflexivity.
Qed.

Lemma leading_cr_line_witness :
  text_line "abc" = true
  /\ count_symbols (map c_str (fgets_lines (String CR ("abc" ++ newline)))) 0 = 1
  /\ read_symbol_list (Some (String CR ("abc" ++ newline))) = None.
Proof.
  split; [reflexivity|]. exact (leading_cr_line "abc" eq_refl).
Defined.

Section ListedRun.

Context {conv : StringConv}.

Lemma listed_copies (symbols : list string) :
  forallb listed_symbol symbols = true -> map copy_symbol symbols = symbols.
Proof.
  induction symbols as [|s symbols IH]; [reflexivity|].
  cbn [forallb]. intros [Hs Hall]%andb_prop.
  unfold listed_symbol in Hs. apply andb_prop in Hs as [Hs _].
  cbn [map]. now rewrite symbol_fits_copy, IH.
Qed.

(** X24: in a run over a list that [read_symbol_list] returned, the rows
    carry the listed symbols themselves: [main] walks the whole list, and
    the symbols of the rows are exactly the listed symbols that pass the
    checks, in the order of the list, none of them cut short. *)
Theorem listed_rows_are_whole (file : option string) (universe : list string)
  est_time json_response (cache : list StockCache) :
  read_symbol_list file = Some universe ->
  map symbol
    (results (process_universe est_time json_response
                (firstn (Z.to_nat MAX_SYMBOLS) universe) (mkLoopState cache [])))
  = filter (passes est_time json_response) universe.
Proof.
  intros (_ & Hlen & Hall)%read_symbol_list_listed.
  rewrite firstn_all2 by lia. rewrite process_universe_symbols.
  cbn [results map app]. apply listed_copies.
  apply forallb_forall. intros s [Hin _]%filter_In.
  exact (proj1 (forallb_forall _ _) Hall s Hin).
Qed.

End ListedRun.

Lemma listed_rows_are_whole_witness :
  read_symbol_list (Some "new") = Some ["NEW"]
  /\ (forall conv : StringConv,
        map symbol
          (results (process_universe Examples.premarket_tm Examples.new_response
                      (firstn (Z.to_nat MAX_SYMBOLS) ["NEW"])
                      (mkLoopState Examples.earlier_cache [])))
        = ["NEW"]).
Proof.
  assert (Hread : read_symbol_list (Some "new") = Some ["NEW"]) by reflexivity.
  split; [exact Hread|]. intros conv.
  exact (listed_rows_are_whole (Some "new") ["NEW"] Examples.premarket_tm
           Examples.new_response Examples.earlier_cache Hread).
Defined.

(** ** From one run to the next *)

Section Runs.

Context {conv : StringConv}.
Variable qsort :
  list StockResult -> (StockResult -> StockResult -> Z) -> list StockResult.

Lemma written_by_save_loads (file : option json) (cache : list StockCache) :
  written_by_save file ->
  init_cache_from_file file [] = Some cache ->
  NoDup (map cache_symbol cache).
Proof.
  intros [-> | (c & Hcount & Hok & ->)] Hload.
  - injection Hload as <-. constructor.
  - rewrite (load_saved_document c Hcount Hok) in Hload. injection Hload as <-.
    exact (proj1 (fold_upsert_invariant c [] (NoDup_nil _) (Forall_nil _) Hok)).
Qed.

(** X25: the cache file stays a file of the program's own.  When it is
    absent or was written by [save_cache_to_file] before a run, it is so
    behind the run, whatever the run is given and however it ends: a run
    either leaves the file alone or writes the cache of its loop, which is
    within what the C types hold. *)
Theorem cache_file_stays_well_formed (i : run_input) (w : world) :
  written_by_save (previous_results_json w) ->
  match main qsort i w with
  | Exit _ w' | Killed w' => written_by_save (previous_results_json w')
  | Undefined => True
  end.
Proof.
  intros Hfile. unfold main.
  destruct (api_key_id i), (secret_key_id i); try exact Hfile.
  destruct (symbol_list i) as [[|first others]|]; try exact Hfile.
  destruct (init_cache_from_file _ _) as [cache|] eqn:Hload; [|exact Hfile].
  destruct (curl i); [|exact Hfile].
  destruct (request_fits _ _ _); [|exact I].
  destruct (transfer i) as [json_response|]; [|exact Hfile].
  destruct (is_null json_response); [exact Hfile|].
  cbv zeta. destruct (0 <? _); [|exact Hfile].
  match goal with |- context [publish qsort i ?st w] =>
    destruct (publish_files qsort i st w) as (Hcache & _) end.
  rewrite Hcache. destruct (cache_file_opens i); [|exact Hfile].
  right. eexists.
  destruct (saved_cache_within_types (gmtime (eastern_time (now i))) json_response
              (firstn (Z.to_nat MAX_SYMBOLS) (first :: others))
              (previous_results_json w) cache Hload) as [Hok Hcount].
  split; [exact Hcount|]. split; [exact Hok | reflexivity].
Qed.

(** X26: what a run leaves is what the next run starts from.  Over a cache
    file of the program's own and a list without a symbol of more than
    fifteen characters, a run that emits a row and can open the cache file
    returns 0, and [init_cache_from_file] on the file it leaves gives the
    very cache its loop ended with, entry by entry; the next run's changes
    are measured against those observations. *)
Theorem next_run_loads_this_cache (i : run_input) (w : world)
  (universe : list string) (cache : list StockCache) (json_response : json) :
  written_by_save (previous_results_json w) ->
  reaches_transfer i w universe cache ->
  transfer i = Some json_response ->
  is_null json_response = false ->
  Forall (fun sym => (String.length sym <= 15)%nat) universe ->
  let st := process_universe (gmtime (eastern_time (now i))) json_response universe
              (mkLoopState cache []) in
  results st <> [] ->
  cache_file_opens i = true ->
  exists w',
    main qsort i w = Exit 0 w'
    /\ init_cache_from_file (previous_results_json w') [] = Some (g_cache st).
Proof.
  intros Hfile Hreach Hfetch Hparsed Hshort st Hsome Hopens.
  destruct (some_results_save_cache qsort i w universe cache json_response
              Hreach Hfetch Hparsed Hsome Hopens) as (w' & Hmain & Hsaved).
  exists w'. split; [exact Hmain|]. fold st in Hsaved. rewrite Hsaved.
  destruct Hreach as (_ & _ & _ & _ & _ & _ & _ & _ & Hload & _).
  destruct (saved_cache_within_types (gmtime (eastern_time (now i))) json_response
              universe (previous_results_json w) cache Hload) as [Hok Hcount].
  apply load_saved_nodup; [exact Hcount | exact Hok|].
  apply process_universe_nodup; [exact Hshort|].
  exact (written_by_save_loads _ _ Hfile Hload).
Qed.

(** X27: the two headers are written by [sprintf] into 128 bytes each.  A
    key of more than 110 characters, or a secret of more than 106, does
    not fit behind its header name: the run writes past the array and its
    behaviour is undefined. *)
Theorem long_key_overflows (i : run_input) (w : world) (key secret first : string)
  (others : list string) (cache : list StockCache) :
  api_key_id i = Some key -> secret_key_id i = Some secret ->
  symbol_list i = Some (first :: others) ->
  init_cache_from_file (previous_results_json w) [] = Some cache ->
  curl i = true ->
  110 < strlen key \/ 106 < strlen secret ->
  main qsort i w = Undefined.
Proof.
  intros Hkey Hsecret Hlist Hcache Hcurl Hlong. unfold main.
  rewrite Hkey, Hsecret, Hlist, Hcache, Hcurl.
  assert (Hfits : request_fits key secret
                    (firstn (Z.to_nat MAX_SYMBOLS) (first :: others)) = false).
  { unfold request_fits.
    change (strlen "APCA-API-KEY-ID: ") with 17.
    change (strlen "APCA-API-SECRET-KEY: ") with 21.
    destruct Hlong as [Hlong | Hlong].
    - assert (Hk : (17 + strlen key <? 128) = false) by (apply Z.ltb_ge; lia).
      now rewrite Hk, andb_false_r.
    - assert (Hs : (21 + strlen secret <? 128) = false) by (apply Z.ltb_ge; lia).
      now rewrite Hs, andb_false_r. }
  now rewrite Hfits.
Qed.

End Runs.

Lemma earlier_world_written : written_by_save (previous_results_json Examples.earlier_world).
Proof.
  right. exists Examples.earlier_cache. split; [cbn; unfold MAX_SYMBOLS; lia|].
  split; [|reflexivity].
  repeat constructor; cbn; unfold CInt.INT_MIN, CInt.INT_MAX; lia.
Qed.

Lemma cache_file_stays_well_formed_witness :
  written_by_save (previous_results_json Examples.earlier_world)
  /\ (forall (conv : StringConv) qsort,
        match main qsort (Examples.run_with Examples.new_response)
                Examples.earlier_world with
        | Exit _ w' | Killed w' => written_by_save (previous_results_json w')
        | Undefined => True
        end).
Proof.
  split; [exact earlier_world_written|]. intros conv qsort.
  apply cache_file_stays_well_formed. exact earlier_world_written.
Defined.

Lemma next_run_loads_this_cache_witness :
  written_by_save (previous_results_json Examples.earlier_world)
  /\ Forall (fun sym => (String.length sym <= 15)%nat) ["NEW"]
  /\ (forall (conv : StringConv) qsort,
        exists w',
          main qsort (Examples.run_with Examples.new_response) Examples.earlier_world
          = Exit 0 w'
          /\ init_cache_from_file (previous_results_json w') []
             = Some (g_cache (process_universe (gmtime (eastern_time 1710160200))
                                Examples.new_response ["NEW"]
                                (mkLoopState Examples.earlier_cache [])))).
Proof.
  assert (Hshort : Forall (fun sym => (String.length sym <= 15)%nat) ["NEW"])
    by (repeat constructor; cbn; lia).
  split; [exact earlier_world_written|]. split; [exact Hshort|].
  intros conv qsort.
  assert (Hfetch : transfer (Examples.run_with Examples.new_response)
                   = Some Examples.new_response) by reflexivity.
  assert (Hparsed : is_null Examples.new_response = false) by reflexivity.
  assert (Hopens : cache_file_opens (Examples.run_with Examples.new_response) = true)
    by reflexivity.
  exact (next_run_loads_this_cache qsort (Examples.run_with Examples.new_response)
           Examples.earlier_world ["NEW"] Examples.earlier_cache Examples.new_response
           earlier_world_written
           (earlier_run_reaches_transfer conv Examples.new_response)
           Hfetch Hparsed Hshort (new_response_row conv) Hopens).
Defined.

Lemma long_key_overflows_witness :
  110 < strlen Examples.long_key
  /\ (forall (conv : StringConv) qsort,
        main qsort Examples.long_key_run Examples.earlier_world = Undefined).
Proof.
  assert (Hlong : 110 < strlen Examples.long_key) by (vm_compute; reflexivity).
  split; [exact Hlong|]. intros conv qsort.
  assert (Hcache : init_cache_from_file (previous_results_json Examples.earlier_world) []
                   = Some Examples.earlier_cache) by reflexivity.
  exact (long_key_overflows qsort Examples.long_key_run Examples.earlier_world
           Examples.long_key "secret" "NEW" [] Examples.earlier_cache
           eq_refl eq_refl eq_refl Hcache eq_refl (or_introl Hlong)).
Defined.

(** ** Symbols seen for the first time *)

Section FirstSight.

Context {conv : StringConv}.

Lemma emit_result_baseline (v : snapshot_values) (sym : string) (st : loop_state) :
  get_cached_values (g_cache st) sym = (0%float, 0, 0) ->
  CInt.in_range (minute_volume v) -> CInt.in_range (minute_trades v) ->
  exists row,
    results (emit_result v sym st) = (results st ++ [row])%list
    /\ zero_baseline row.
Proof.
  intros Hget Hv Ht. unfold emit_result. rewrite Hget. cbn [results].
  eexists. split; [reflexivity|]. unfold zero_baseline.
  cbn [gradient_change gradient_recent volume_change volume trades_change trades].
  rewrite float_sub_zero, !sub_exact by (now rewrite Z.sub_0_r).
  now rewrite !Z.sub_0_r.
Qed.

(** X29: over a list without a repeated symbol, none of whose symbols has
    an entry in the cache as loaded (so on a first run, with no cache file
    at all), every row reports its values as its changes:
    [gradient_change] is [gradient_recent], [volume_change] is [volume] and
    [trades_change] is [trades]. *)
Theorem unseen_symbols_zero_baseline est_time json_response
  (universe : list string) (cache : list StockCache) :
  NoDup universe ->
  Forall (fun sym => (String.length sym <= 15)%nat) universe ->
  Forall (fun sym => cache_has cache sym = false) universe ->
  Forall zero_baseline
    (results (process_universe est_time json_response universe
                (mkLoopState cache []))).
Proof.
  induction universe as [|sym before IH] using rev_ind; intros Hnodup Hshort Hnew.
  - constructor.
  - apply NoDup_remove in Hnodup as [Hnodup Hnotin]. rewrite app_nil_r in *.
    apply Forall_app in Hshort as [Hshort _].
    apply Forall_app in Hnew as [Hnew Hsym].
    apply Forall_inv in Hsym.
    specialize (IH Hnodup Hshort Hnew).
    assert (Happ : process_universe est_time json_response (before ++ [sym])
                     (mkLoopState cache [])
                   = process_symbol est_time json_response
                       (process_universe est_time json_response before
                          (mkLoopState cache [])) sym)
      by (unfold process_universe; now rewrite fold_left_app).
    rewrite Happ.
    set (st1 := process_universe est_time json_response before
                  (mkLoopState cache [])) in *.
    unfold process_symbol.
    destruct (read_snapshot est_time json_response sym) as [v|] eqn:Hread;
      [|exact IH].
    destruct (read_snapshot_ranges _ _ _ _ Hread) as [Htrades Hvolume].
    assert (Hget : get_cached_values (g_cache st1) sym = (0%float, 0, 0)).
    { subst st1.
      rewrite (process_universe_other est_time json_response before
                 (mkLoopState cache []) sym).
      - now apply get_cached_values_miss.
      - apply Forall_forall. intros other Hin.
        assert (Hne : other <> sym) by (intros ->; now apply Hnotin).
        split; [exact Hne|]. rewrite copy_symbol_short; [exact Hne|].
        exact (proj1 (Forall_forall _ _) Hshort other Hin). }
    destruct (emit_result_baseline v sym st1 Hget Hvolume) as (row & -> & Hrow).
    + unfold CInt.in_range, CInt.INT_MIN. lia.
    + apply Forall_app. split; [exact IH | now constructor].
Qed.

End FirstSight.

Lemma unseen_symbols_zero_baseline_witness :
  NoDup ["NEW"]
  /\ Forall (fun sym => (String.length sym <= 15)%nat) ["NEW"]
  /\ Forall (fun sym => cache_has [] sym = false) ["NEW"]
  /\ (forall conv : StringConv,
        Forall zero_baseline
          (results (process_universe Examples.premarket_tm Examples.new_response
                      ["NEW"] (mkLoopState [] [])))).
Proof.
  assert (Hnodup : NoDup ["NEW"]) by (repeat constructor; intros []).
  assert (Hshort : Forall (fun sym => (String.length sym <= 15)%nat) ["NEW"])
    by (repeat constructor; cbn; lia).
  assert (Hnew : Forall (fun sym => cache_has [] sym = false) ["NEW"])
    by (repeat constructor).
  split; [exact Hnodup|]. split; [exact Hshort|]. split; [exact Hnew|].
  intros conv.
  exact (unseen_symbols_zero_baseline Examples.premarket_tm Examples.new_response
           ["NEW"] [] Hnodup Hshort Hnew).
Defined.
